(** * MRF tile engine and mrf_insert: a shallow embedding

    The definitions below follow two translation units of the MRF raster
    driver:

    - [mrf_apps/mrf_insert.cpp]: [ClippedRasterIO] and the overview loop at
      the end of [state::patch];
    - [frmts/mrf/mrf_band.cpp]: the byte scanners, [swab_buff],
      [DeflateBlock], [FillBlock] and the block read and write entry points
      of [GDALMRFRasterBand].

    C++ [int] values are integers of [Z] with the 32-bit wrap-around written
    out, [size_t] and [GUIntBig] wrap at 64 bits, bytes are [Byte.byte], and
    process memory is a byte-addressed store. *)

From Stdlib Require Import ZArith List Lia Bool String.
From stdpp Require Import base gmap.
Import ListNotations.

Local Open Scope Z_scope.

(** ** Machine integers *)

Definition INT_MIN : Z := - 2 ^ 31.
Definition INT_MAX : Z := 2 ^ 31 - 1.

(** Two's complement reduction of a mathematical integer to [int]. *)
Definition wrap32 (z : Z) : Z := (z + 2 ^ 31) mod 2 ^ 32 - 2 ^ 31.

(** Reduction to [size_t] / [GUIntBig]. *)
Definition wrap64 (z : Z) : Z := z mod 2 ^ 64.

Definition is_int (z : Z) : Prop := INT_MIN <= z <= INT_MAX.

Definition add32 (a b : Z) : Z := wrap32 (a + b).
Definition sub32 (a b : Z) : Z := wrap32 (a - b).
Definition mul32 (a b : Z) : Z := wrap32 (a * b).
(** C++ [/] truncates towards zero. *)
Definition div32 (a b : Z) : Z := wrap32 (Z.quot a b).

(** ** GDAL vocabulary shared by both files *)

Inductive CPLErr := CE_None | CE_Debug | CE_Warning | CE_Failure | CE_Fatal.

Inductive GDALRWFlag := GF_Read | GF_Write.

Inductive GDALAccess := GA_ReadOnly | GA_Update.

Inductive GDALDataType :=
| GDT_Unknown | GDT_Byte | GDT_UInt16 | GDT_Int16 | GDT_UInt32 | GDT_Int32
| GDT_Float32 | GDT_Float64 | GDT_CInt16 | GDT_CInt32 | GDT_CFloat32
| GDT_CFloat64.

(** [GDALGetDataTypeSize]: the width of one sample in bits. *)
Definition GDALGetDataTypeSize (dt : GDALDataType) : Z :=
  match dt with
  | GDT_Unknown => 0
  | GDT_Byte => 8
  | GDT_UInt16 | GDT_Int16 => 16
  | GDT_UInt32 | GDT_Int32 | GDT_Float32 => 32
  | GDT_Float64 => 64
  | GDT_CInt16 => 32
  | GDT_CInt32 | GDT_CFloat32 => 64
  | GDT_CFloat64 => 128
  end.

Definition GDALRWFlag_eqb (a b : GDALRWFlag) : bool :=
  match a, b with
  | GF_Read, GF_Read | GF_Write, GF_Write => true
  | _, _ => false
  end.

Definition GDALDataType_eqb (a b : GDALDataType) : bool :=
  match a, b with
  | GDT_Unknown, GDT_Unknown | GDT_Byte, GDT_Byte | GDT_UInt16, GDT_UInt16
  | GDT_Int16, GDT_Int16 | GDT_UInt32, GDT_UInt32 | GDT_Int32, GDT_Int32
  | GDT_Float32, GDT_Float32 | GDT_Float64, GDT_Float64
  | GDT_CInt16, GDT_CInt16 | GDT_CInt32, GDT_CInt32
  | GDT_CFloat32, GDT_CFloat32 | GDT_CFloat64, GDT_CFloat64 => true
  | _, _ => false
  end.

(** * Part I: mrf_insert.cpp *)

Module Insert.

(** What [ClippedRasterIO] needs from a [GDALRasterBand]: its extent. *)
Record GDALRasterBand := {
  GetXSize : Z;
  GetYSize : Z
}.

(** The arguments of one [band->RasterIO(GF_Read, ...)] call. *)
Record RasterIO_request := {
  rq_XOff : Z;
  rq_YOff : Z;
  rq_XSize : Z;
  rq_YSize : Z;
  rq_pData : Z;
  rq_BufXSize : Z;
  rq_BufYSize : Z;
  rq_BufType : GDALDataType;
  rq_PixelSpace : Z;
  rq_LineSpace : Z
}.

Section ClippedRead.

(** The band's own windowed read is the host framework's; only its status
    matters here. *)
Variable RasterIO : GDALRasterBand -> RasterIO_request -> CPLErr.

(** [ClippedRasterIO] (mrf_insert.cpp:38-84).  The result is the status
    together with the list of requests handed to [band->RasterIO]. *)
Definition ClippedRasterIO (band : GDALRasterBand) (eRWFlag : GDALRWFlag)
    (nXOff nYOff nXSize nYSize : Z) (pData : Z) (nBufXSize nBufYSize : Z)
    (eBufType : GDALDataType) (nPixelSpace nLineSpace : Z)
  : CPLErr * list RasterIO_request :=
  let call (nXOff nYOff nXSize nYSize pData : Z) :=
    let rq := {| rq_XOff := nXOff; rq_YOff := nYOff;
                 rq_XSize := nXSize; rq_YSize := nYSize;
                 rq_pData := pData;
                 rq_BufXSize := nBufXSize; rq_BufYSize := nBufYSize;
                 rq_BufType := eBufType;
                 rq_PixelSpace := nPixelSpace; rq_LineSpace := nLineSpace |} in
    (RasterIO band rq, [rq]) in
  if negb (GDALRWFlag_eqb eRWFlag GF_Read) then (CE_Failure, [])
  else if (0 <=? nXOff) && (add32 nXOff nXSize <=? GetXSize band)
          && (0 <=? nYOff) && (add32 nYOff nYSize <=? GetYSize band)
  then call nXOff nYOff nXSize nYSize pData
  else
    (* Clip needed on X *)
    let '(pData, nXSize, nXOff) :=
      if (nXOff <? 0) || (GetXSize band <? add32 nXOff nXSize) then
        let '(pData, nXSize, nXOff) :=
          if nXOff <? 0
          then (pData + mul32 nXOff nPixelSpace, add32 nXSize nXOff, 0)
          else (pData, nXSize, nXOff) in
        let nXSize :=
          if GetXSize band <? add32 nXOff nXSize
          then sub32 (GetXSize band) nXOff else nXSize in
        (pData, nXSize, nXOff)
      else (pData, nXSize, nXOff) in
    (* Clip needed on Y *)
    let '(pData, nYSize, nYOff) :=
      if (nYOff <? 0) || (GetYSize band <? add32 nYOff nYSize) then
        let '(pData, nYSize, nYOff) :=
          if nYOff <? 0
          then (pData + nLineSpace, add32 nYSize nYOff, 0)
          else (pData, nYSize, nYOff) in
        let nYSize :=
          if GetYSize band <? add32 nYOff nYSize
          then sub32 (GetYSize band) nYOff else nYSize in
        (pData, nYSize, nYOff)
      else (pData, nYSize, nYOff) in
    call nXOff nYOff nXSize nYSize pData.

End ClippedRead.

(** The tile region that the overview loop of [state::patch] carries from
    one level to the next. *)
Record region := {
  BlockXOut : Z;
  BlockYOut : Z;
  WidthOut : Z;
  HeightOut : Z
}.

(** One pass through the tail of the loop body (mrf_insert.cpp:291-297):
    width and height are computed from the old block origin, then the
    origin is halved. *)
Definition level_step (r : region) : region :=
  let w := add32 (add32 (div32 (WidthOut r) 2) (Z.land (WidthOut r) 1))
                 (Z.land (BlockXOut r) 1) in
  let h := add32 (add32 (div32 (HeightOut r) 2) (Z.land (HeightOut r) 1))
                 (Z.land (BlockYOut r) 1) in
  {| BlockXOut := div32 (BlockXOut r) 2;
     BlockYOut := div32 (BlockYOut r) 2;
     WidthOut := w;
     HeightOut := h |}.

(** One [PatchOverview(BlockXOut, BlockYOut, WidthOut, HeightOut, sl, ...)]
    call. *)
Record PatchOverview_call := {
  po_region : region;
  po_srcLevel : Z
}.

(** The [for (sl = 0; sl < overview_count; sl++)] loop, [n] iterations
    still to run.  It yields the calls made, in order, and the region left
    in the loop variables. *)
Fixpoint overview_loop (n : nat) (sl start_level stop_level : Z) (r : region)
  : list PatchOverview_call * region :=
  match n with
  | O => ([], r)
  | S n' =>
      let calls :=
        if (start_level <=? sl) && (sl <? stop_level)
        then [ {| po_region := r; po_srcLevel := sl |} ]
        else [] in
      let '(rest, r') :=
        overview_loop n' (sl + 1) start_level stop_level (level_step r) in
      (calls ++ rest, r')
  end.

(** The [if (overlays)] block of [state::patch] (mrf_insert.cpp:268-299):
    an unset stop level means all levels, and the start level is converted
    to a source level before the loop. *)
Definition patch_overviews (overview_count start_level stop_level : Z)
    (r : region) : list PatchOverview_call * region :=
  let stop_level :=
    if stop_level =? -1 then overview_count else stop_level in
  let start_level := sub32 start_level 1 in
  overview_loop (Z.to_nat overview_count) 0 start_level stop_level r.

(** The window [ClippedRasterIO] asks of the band, in closed form: the
    requested window cut to the band's extent, the data pointer moved as
    the code moves it, and the buffer description passed on. *)
Definition clipped_request (band : GDALRasterBand)
    (nXOff nYOff nXSize nYSize pData nBufXSize nBufYSize : Z)
    (eBufType : GDALDataType) (nPixelSpace nLineSpace : Z)
  : RasterIO_request :=
  {| rq_XOff := Z.max 0 nXOff;
     rq_YOff := Z.max 0 nYOff;
     rq_XSize := Z.min (GetXSize band) (nXOff + nXSize) - Z.max 0 nXOff;
     rq_YSize := Z.min (GetYSize band) (nYOff + nYSize) - Z.max 0 nYOff;
     rq_pData := pData
                 + (if nXOff <? 0 then mul32 nXOff nPixelSpace else 0)
                 + (if nYOff <? 0 then nLineSpace else 0);
     rq_BufXSize := nBufXSize; rq_BufYSize := nBufYSize;
     rq_BufType := eBufType;
     rq_PixelSpace := nPixelSpace; rq_LineSpace := nLineSpace |}.

(** The four loop variables hold [int] values. *)
Definition region_is_int (r : region) : Prop :=
  is_int (BlockXOut r) /\ is_int (BlockYOut r)
  /\ is_int (WidthOut r) /\ is_int (HeightOut r).

(** Tile [(x, y)] of a level lies in the region. *)
Definition in_region (r : region) (x y : Z) : Prop :=
  BlockXOut r <= x < BlockXOut r + WidthOut r
  /\ BlockYOut r <= y < BlockYOut r + HeightOut r.

(** The call for the level [k] levels after [sl], when the loop started
    at [sl] with the region [r]. *)
Definition level_call (r : region) (sl : Z) (k : nat) : PatchOverview_call :=
  {| po_region := Nat.iter k level_step r; po_srcLevel := sl + Z.of_nat k |}.

(** ** One tile of the base level loop (mrf_insert.cpp:219-251) *)

(** The test that decides whether the tile buffer is first read from the
    destination (mrf_insert.cpp:224-225).  It is written without
    parentheses, and [&&] binds tighter than [||]. *)
Definition needs_padding (src : GDALRasterBand)
    (src_offset_x src_offset_y tsz_x tsz_y : Z) : bool :=
  (src_offset_x <? 0)
  || ((GetXSize src <? add32 src_offset_x tsz_x) && (src_offset_y <? 0))
  || (GetYSize src <? add32 src_offset_y tsz_y).

(** What one pass of the band loop asks of the two datasets. *)
Inductive tile_io :=
| io_dst (rw : GDALRWFlag) (rq : RasterIO_request)
| io_src (rq : RasterIO_request).

(** The body of the band loop for the tile [(x, y)] of the destination
    and the source offset computed for it: the reads and the write it
    issues, in order.  The statuses of the three calls are not looked
    at. *)
Definition patch_band_tile
    (RasterIO : GDALRasterBand -> RasterIO_request -> CPLErr)
    (src : GDALRasterBand) (x y src_offset_x src_offset_y tsz_x tsz_y : Z)
    (buffer : Z) (eDataType : GDALDataType) (pixel_size line_size : Z)
  : list tile_io :=
  let dst_rq :=
    {| rq_XOff := mul32 x tsz_x; rq_YOff := mul32 y tsz_y;
       rq_XSize := tsz_x; rq_YSize := tsz_y;
       rq_pData := buffer;
       rq_BufXSize := tsz_x; rq_BufYSize := tsz_y;
       rq_BufType := eDataType;
       rq_PixelSpace := pixel_size; rq_LineSpace := line_size |} in
  (* If input needs padding, initialize the buffer with destination
     content *)
  (if needs_padding src src_offset_x src_offset_y tsz_x tsz_y
   then [io_dst GF_Read dst_rq] else [])
  ++ map io_src
       (snd (ClippedRasterIO RasterIO src GF_Read
               src_offset_x src_offset_y tsz_x tsz_y
               buffer tsz_x tsz_y eDataType pixel_size line_size))
  ++ [io_dst GF_Write dst_rq].

End Insert.

(** * Part II: mrf_band.cpp *)

Module Band.

Abbreviation byte := Byte.byte.

(** Conversion of an integer to [unsigned char] / [char]: the low eight
    bits. *)
Definition byte_of_Z (z : Z) : byte :=
  match Byte.of_N (Z.to_N (z mod 256)) with
  | Some b => b
  | None => Byte.x00
  end.

(** ** Process memory

    Addresses are integers, [NULL] is address 0, and every address holds
    one byte. *)
Definition memory := Z -> byte.

Definition NULL : Z := 0.

(** The [n] bytes starting at [p]. *)
Definition load (m : memory) (p : Z) (n : nat) : list byte :=
  map (fun i => m (p + Z.of_nat i)) (seq 0 n).

(** Memory after the bytes [l] have been written at [p]. *)
Definition store (m : memory) (p : Z) (l : list byte) : memory :=
  fun a =>
    if (p <=? a) && (a <? p + Z.of_nat (length l))
    then nth (Z.to_nat (a - p)) l Byte.x00
    else m a.

Definition memcpy (m : memory) (dst src : Z) (n : Z) : memory :=
  store m dst (load m src (Z.to_nat n)).

Definition memset (m : memory) (p : Z) (c : Z) (n : Z) : memory :=
  store m p (repeat (byte_of_Z c) (Z.to_nat n)).

(** ** Structures of marfa.h used by the band code *)

Record buf_mgr := {
  buffer : Z;
  bsize : Z           (* the [size] member *)
}.

Record ILSize := {
  sz_x : Z; sz_y : Z; sz_z : Z; sz_c : Z; sz_l : Z
}.

Record ILIdx := {
  offset : Z;
  isize : Z           (* the [size] member *)
}.

(** A [double] is only converted and stored by this code, never computed
    with; it is represented by what those conversions yield. *)
Record double := {
  to_int : Z;                            (* converted to an integer type *)
  to_sample : GDALDataType -> list byte  (* the bytes of [T(v)] *)
}.

(** [0.0L]: zero as an integer, and all bytes zero as a sample of any
    type. *)
Definition double_zero : double :=
  {| to_int := 0;
     to_sample := fun t =>
       repeat Byte.x00 (Z.to_nat (Z.quot (GDALGetDataTypeSize t) 8)) |}.

Record ILImage := {
  pagesize : ILSize;
  pageSizeBytes : Z;
  dt : GDALDataType;
  comp : Z;            (* ILCompression, by its numeric value *)
  nbo : bool;
  hasNoData : bool;
  NoDataValue : double;
  quality : Z
}.

(** The members of [GDALMRFDataset] the band code reads or writes,
    together with the two files behind it: the tile index, keyed by byte
    position, and the data file. *)
Record GDALMRFDataset := {
  nBands : Z;
  vNoData : list double;
  eAccess : GDALAccess;
  source_empty : bool;            (* [source.empty()] *)
  IdxMode : GDALRWFlag;
  pbuffer : Z;
  pbsize : Z;
  tile : ILSize;
  bdirty : Z;
  idx_file : gmap Z ILIdx;
  data_file : list byte;
  data_open : bool;               (* [DataFP() != NULL] *)
  io_ok : bool                    (* the files accept writes *)
}.

(** The members of [GDALMRFRasterBand]. *)
Record GDALMRFRasterBand := {
  m_band : Z;
  m_l : Z;
  img : ILImage;
  eDataType : GDALDataType;
  nBlockXSize : Z;
  nBlockYSize : Z;
  deflate : bool;
  deflate_flags : Z;
  pam_NoData : double * bool      (* [GDALPamRasterBand::GetNoDataValue] *)
}.

(** What the engine does that is visible from outside; a trace lists
    these events most recent first. *)
Inductive event :=
| ev_CPLError (level : CPLErr) (msg : String.string)
| ev_CPLMalloc (n : Z) (p : Z)
| ev_CPLFree (p : Z)
| ev_swab (p : Z) (n : Z)
| ev_Compress (src : list byte)
| ev_Decompress (src : list byte)
| ev_ZPack (src : list byte) (dst : Z) (cap : Z)
| ev_ZUnPack (src : list byte)
| ev_WriteTile (buff : Z) (infooffset : Z) (n : Z).

Record world := {
  mem : memory;
  heap_plan : list Z;     (* what the next [CPLMalloc] calls return *)
  trace : list event;
  poDS : GDALMRFDataset
}.

(** The instrumented allocator: sizes and addresses of the [CPLMalloc]
    calls of a trace. *)
Fixpoint allocations (t : list event) : list (Z * Z) :=
  match t with
  | [] => []
  | ev_CPLMalloc n p :: t' => (n, p) :: allocations t'
  | _ :: t' => allocations t'
  end.

(** ** A state monad over [world] *)

Definition M (A : Type) : Type := world -> A * world.

Definition ret {A : Type} (a : A) : M A := fun w => (a, w).

Definition bind {A B : Type} (c : M A) (k : A -> M B) : M B :=
  fun w => let '(a, w') := c w in k a w'.

Local Notation "'let*' x ':=' c 'in' k" := (bind c (fun x => k))
  (at level 10, x pattern, c at level 100, k at level 200).
Local Notation "c ';;' k" := (bind c (fun _ => k))
  (at level 100, k at level 200, right associativity).

Definition get_mem : M memory := fun w => (mem w, w).

Definition set_mem (m : memory) : M unit :=
  fun w => (tt, {| mem := m; heap_plan := heap_plan w;
                   trace := trace w; poDS := poDS w |}).

Definition emit (e : event) : M unit :=
  fun w => (tt, {| mem := mem w; heap_plan := heap_plan w;
                   trace := e :: trace w; poDS := poDS w |}).

Definition get_DS : M GDALMRFDataset := fun w => (poDS w, w).

Definition set_DS (d : GDALMRFDataset) : M unit :=
  fun w => (tt, {| mem := mem w; heap_plan := heap_plan w;
                   trace := trace w; poDS := d |}).

Definition CPLError (level : CPLErr) (msg : String.string) : M unit :=
  emit (ev_CPLError level msg).
Arguments CPLError level msg%_string.

(** [CPLMalloc]: the address comes from the environment; [NULL] when the
    plan is exhausted. *)
Definition CPLMalloc (n : Z) : M Z :=
  fun w =>
    let p := hd NULL (heap_plan w) in
    (p, {| mem := mem w; heap_plan := tl (heap_plan w);
           trace := ev_CPLMalloc n p :: trace w; poDS := poDS w |}).

Definition CPLFree (p : Z) : M unit := emit (ev_CPLFree p).

(** ** Scanners and copies (mrf_band.cpp:57-94) *)

(** [cpy_stride_in<T>]: [c] items of [sizeT] bytes, the source advancing by
    [stride] items and the destination by one. *)
Fixpoint cpy_stride_in (sizeT : Z) (m : memory) (d s : Z) (c : nat)
    (stride : Z) : memory :=
  match c with
  | O => m
  | S c' =>
      cpy_stride_in sizeT (store m d (load m s (Z.to_nat sizeT)))
        (d + sizeT) (s + stride * sizeT) c' stride
  end.

(** [cpy_stride_out<T>]: the destination advances by [stride] items and
    the source by one. *)
Fixpoint cpy_stride_out (sizeT : Z) (m : memory) (d s : Z) (c : nat)
    (stride : Z) : memory :=
  match c with
  | O => m
  | S c' =>
      cpy_stride_out sizeT (store m d (load m s (Z.to_nat sizeT)))
        (d + stride * sizeT) (s + sizeT) c' stride
  end.

(** Is the buffer filled with zeros *)
Fixpoint is_zero (m : memory) (b : Z) (count : nat) : bool :=
  match count with
  | O => true
  | S c =>
      if negb (Byte.eqb (m b) Byte.x00) then false else is_zero m (b + 1) c
  end.

(** Does every byte in the buffer have the same value *)
Fixpoint is_empty (m : memory) (b : Z) (count : nat) (val : byte) : bool :=
  match count with
  | O => true
  | S c =>
      if negb (Byte.eqb (m b) val) then false else is_empty m (b + 1) c val
  end.

(** A loop [for (int i = n; i; i--)] or [while (c--)] over an [int]
    counter runs [n] times, counting a negative start through the
    wrap-around. *)
Definition int_count (n : Z) : nat := Z.to_nat (n mod 2 ^ 32).

(** A [size_t] count. *)
Definition size_count (n : Z) : nat := Z.to_nat (wrap64 n).

(** ** swab_buff (mrf_band.cpp:97-119) *)

(** [i] words of [k] bytes from [b] on, each replaced by its byte
    reversal, which is what [swab16], [swab32] and [swab64] do to a word
    in memory. *)
Fixpoint swab_loop (k : nat) (m : memory) (b : Z) (i : nat) : memory :=
  match i with
  | O => m
  | S i' => swab_loop k (store m b (rev (load m b k))) (b + Z.of_nat k) i'
  end.

Definition swab_buff (m : memory) (src : buf_mgr) (im : ILImage) : memory :=
  match GDALGetDataTypeSize (dt im) with
  | 16 => swab_loop 2 m (buffer src) (int_count (wrap64 (bsize src) / 2))
  | 32 => swab_loop 4 m (buffer src) (int_count (wrap64 (bsize src) / 4))
  | 64 => swab_loop 8 m (buffer src) (int_count (wrap64 (bsize src) / 8))
  | _ => m
  end.

(** ** The codecs and the host, which live in other translation units *)
Class Host := {
  (** [ZPack(src, dst, flags)] and [ZUnPack(src, dst, flags)]: from the
      input bytes, the capacity [dst.size] and the flags, whether the call
      succeeded and the bytes it left at [dst.buffer]; on success
      [dst.size] becomes their number. *)
  ZPack : list byte -> Z -> Z -> bool * list byte;
  ZUnPack : list byte -> Z -> Z -> bool * list byte;
  (** The band's virtual [Compress(dst, src)] and [Decompress(dst, src)]:
      status and the bytes left at [dst.buffer]; [Compress] reports their
      number in [dst.size]. *)
  Compress : GDALMRFRasterBand -> list byte -> Z -> CPLErr * list byte;
  Decompress : GDALMRFRasterBand -> list byte -> Z -> CPLErr * list byte;
  is_Endianess_Dependent : GDALDataType -> Z -> bool;
  NET_ORDER : bool;
  (** Byte position of a tile's entry in the index. *)
  IdxOffset : ILSize -> ILImage -> Z;
  (** A default-constructed [ILSize], used to mark the dataset tile
      corrupt. *)
  ILSize_default : ILSize;
  (** The host block cache: the data of the resident block of band [iBand]
      at level [m_l] ([GetDataRef] of the block), or nothing when
      [TryGetLockedBlockRef] returns [NULL]; [GetLockedBlockRef] always
      yields a block. *)
  TryGetLockedBlockRef : Z -> Z -> Z -> Z -> option Z;
  GetLockedBlockRef : Z -> Z -> Z -> Z -> Z;
  (** The cache-fill path (mrf_band.cpp:351-464) is entered only when a
      source is configured; the block read hands over to it as a whole. *)
  FetchBlock : GDALMRFRasterBand -> Z -> Z -> Z -> M CPLErr
}.

Section Engine.

Context {H : Host}.

Definition ZPack_call (src dst : buf_mgr) (flags : Z) : M (bool * buf_mgr) :=
  let* m := get_mem in
  let input := load m (buffer src) (size_count (bsize src)) in
  let '(ok, out) := ZPack input (bsize dst) flags in
  emit (ev_ZPack input (buffer dst) (bsize dst)) ;;
  set_mem (store m (buffer dst) out) ;;
  ret (ok, if ok then {| buffer := buffer dst;
                         bsize := Z.of_nat (length out) |}
           else dst).

Definition ZUnPack_call (src dst : buf_mgr) (flags : Z)
  : M (bool * buf_mgr) :=
  let* m := get_mem in
  let input := load m (buffer src) (size_count (bsize src)) in
  let '(ok, out) := ZUnPack input (bsize dst) flags in
  emit (ev_ZUnPack input) ;;
  set_mem (store m (buffer dst) out) ;;
  ret (ok, if ok then {| buffer := buffer dst;
                         bsize := Z.of_nat (length out) |}
           else dst).

Definition Compress_call (b : GDALMRFRasterBand) (dst src : buf_mgr)
  : M (CPLErr * buf_mgr) :=
  let* m := get_mem in
  let input := load m (buffer src) (size_count (bsize src)) in
  let '(err, out) := Compress b input (bsize dst) in
  emit (ev_Compress input) ;;
  set_mem (store m (buffer dst) out) ;;
  ret (err, {| buffer := buffer dst; bsize := Z.of_nat (length out) |}).

Definition Decompress_call (b : GDALMRFRasterBand) (dst src : buf_mgr)
  : M CPLErr :=
  let* m := get_mem in
  let input := load m (buffer src) (size_count (bsize src)) in
  let '(err, out) := Decompress b input (bsize dst) in
  emit (ev_Decompress input) ;;
  set_mem (store m (buffer dst) out) ;;
  ret err.

Definition swab_call (src : buf_mgr) (im : ILImage) : M unit :=
  let* m := get_mem in
  emit (ev_swab (buffer src) (bsize src)) ;;
  set_mem (swab_buff m src im).

(** ** DeflateBlock (mrf_band.cpp:126-160)

    The result is the returned pointer together with [src] as the caller
    finds it afterwards. *)
Definition DeflateBlock (src : buf_mgr) (extrasize : Z) (flags : Z)
  : M (Z * buf_mgr) :=
  let pack (dbuff : Z) (dst : buf_mgr) : M (Z * buf_mgr) :=
    let* (ok, dst) := ZPack_call src dst flags in
    if negb ok then
      CPLFree dbuff ;;
      ret (NULL, src)
    else
      (* source size is used to hold the output size *)
      let src := {| buffer := buffer src; bsize := bsize dst |} in
      if dbuff =? NULL then ret (buffer dst, src)
      else
        let* m := get_mem in
        set_mem (memcpy m (buffer src) dbuff (bsize src)) ;;
        CPLFree dbuff ;;
        ret (buffer src, src) in
  if extrasize <? wrap64 (bsize src + 64) then
    let n := wrap64 (bsize src + 64) in
    let* dbuff := CPLMalloc n in
    if dbuff =? NULL then ret (NULL, src)
    else pack dbuff {| buffer := dbuff; bsize := n |}
  else
    pack NULL {| buffer := buffer src + bsize src; bsize := extrasize |}.

(** ** Band helpers *)

Definition CPLErr_eqb (a b : CPLErr) : bool :=
  match a, b with
  | CE_None, CE_None | CE_Debug, CE_Debug | CE_Warning, CE_Warning
  | CE_Failure, CE_Failure | CE_Fatal, CE_Fatal => true
  | _, _ => false
  end.

Definition is_update (a : GDALAccess) : bool :=
  match a with GA_Update => true | GA_ReadOnly => false end.

(** [getBandValue] (mrf_band.cpp:222-227): the entry for the band, or the
    first entry. *)
Definition getBandValue (v : list double) (idx : Z) : double :=
  if idx <? wrap32 (Z.of_nat (length v))
  then nth (Z.to_nat idx) v double_zero
  else nth 0 v double_zero.

(** [GDALMRFRasterBand::GetNoDataValue] (mrf_band.cpp:229-236), with the
    success flag it reports. *)
Definition GetNoDataValue (ds : GDALMRFDataset) (b : GDALMRFRasterBand)
  : double * bool :=
  if (length (vNoData ds) =? 0)%nat then pam_NoData b
  else (getBandValue (vNoData ds) (m_band b), true).

(** [GetMinimum] and [GetMaximum] (mrf_band.cpp:238-254) are
    [GetNoDataValue] over the dataset's [vMin] and [vMax]; the list and
    what the base class would answer are passed in. *)
Definition GetMinimum (vMin : list double) (pam_Minimum : double * bool)
    (b : GDALMRFRasterBand) : double * bool :=
  if (length vMin =? 0)%nat then pam_Minimum
  else (getBandValue vMin (m_band b), true).

Definition GetMaximum (vMax : list double) (pam_Maximum : double * bool)
    (b : GDALMRFRasterBand) : double * bool :=
  if (length vMax =? 0)%nat then pam_Maximum
  else (getBandValue vMax (m_band b), true).

(** Modelled from the spec: [blockSizeBytes()] is an inline member declared
    in marfa.h, which is not among the sources; it is the size in bytes of
    one band of one tile, tile width times tile height times bytes per
    sample. *)
Definition blockSizeBytes (b : GDALMRFRasterBand) : Z :=
  mul32 (mul32 (nBlockXSize b) (nBlockYSize b))
        (Z.quot (GDALGetDataTypeSize (eDataType b)) 8).

(** Modelled from the spec: [bandbit] and [AllBandMask] are inline members
    declared in marfa.h, which is not among the sources; the emptiness
    bitmask has one bit per band, and the all-bands mask has the bits of
    every band of the dataset set. *)
Definition bandbit (i : Z) : Z := wrap64 (Z.shiftl 1 i).

Definition AllBandMask (ds : GDALMRFDataset) : Z :=
  wrap64 (bandbit (nBands ds) - 1).

Definition with_tile (d : GDALMRFDataset) (t : ILSize) : GDALMRFDataset :=
  {| nBands := nBands d; vNoData := vNoData d; eAccess := eAccess d;
     source_empty := source_empty d; IdxMode := IdxMode d;
     pbuffer := pbuffer d; pbsize := pbsize d;
     tile := t; bdirty := bdirty d;
     idx_file := idx_file d; data_file := data_file d;
     data_open := data_open d; io_ok := io_ok d |}.

Definition with_bdirty (d : GDALMRFDataset) (v : Z) : GDALMRFDataset :=
  {| nBands := nBands d; vNoData := vNoData d; eAccess := eAccess d;
     source_empty := source_empty d; IdxMode := IdxMode d;
     pbuffer := pbuffer d; pbsize := pbsize d;
     tile := tile d; bdirty := v;
     idx_file := idx_file d; data_file := data_file d;
     data_open := data_open d; io_ok := io_ok d |}.

Definition with_files (d : GDALMRFDataset) (ix : gmap Z ILIdx)
    (dat : list byte) : GDALMRFDataset :=
  {| nBands := nBands d; vNoData := vNoData d; eAccess := eAccess d;
     source_empty := source_empty d; IdxMode := IdxMode d;
     pbuffer := pbuffer d; pbsize := pbsize d;
     tile := tile d; bdirty := bdirty d;
     idx_file := ix; data_file := dat;
     data_open := data_open d; io_ok := io_ok d |}.

(** Modelled from the spec: [GDALMRFDataset::ReadTileIdx] is defined in the
    dataset source, which is not among the sources; it reads the index
    entry at the computed position and fails when the index cannot be read
    there. *)
Definition ReadTileIdx (ds : GDALMRFDataset) (req : ILSize) (im : ILImage)
  : option ILIdx :=
  idx_file ds !! IdxOffset req im.

(** Modelled from the spec: [GDALMRFDataset::WriteTile] is defined in the
    dataset source, which is not among the sources.  A size of zero records
    an entry of zero length at offset [buff] and stores no bytes; otherwise
    the [size] bytes at [buff] are appended to the data file and the entry
    records where they are.  A failed write leaves both files as they
    were. *)
Definition WriteTile (buff infooffset size : Z) : M CPLErr :=
  emit (ev_WriteTile buff infooffset size) ;;
  let* ds := get_DS in
  let* m := get_mem in
  if negb (io_ok ds) then ret CE_Failure
  else if size =? 0 then
    set_DS (with_files ds
              (<[infooffset := {| offset := buff; isize := 0 |}]>
                 (idx_file ds))
              (data_file ds)) ;;
    ret CE_None
  else
    set_DS (with_files ds
              (<[infooffset :=
                   {| offset := Z.of_nat (length (data_file ds));
                      isize := size |}]> (idx_file ds))
              (data_file ds ++ load m buff (size_count size))) ;;
    ret CE_None.

(** [VSIFSeekL] followed by [VSIFReadL] of one item of [n] bytes: the
    bytes, when the data file holds that many at [off]. *)
Definition read_data (ds : GDALMRFDataset) (off n : Z) : option (list byte) :=
  if Z.of_nat (length (data_file ds)) <? off + n then None
  else Some (firstn (Z.to_nat n) (skipn (Z.to_nat off) (data_file ds))).

(** What [VSIFReadL] finds when the data file holds fewer than [n] bytes
    at [off]: the bytes from [off] to the end of the file.  It leaves them
    in the caller's block and reports that no whole item was read. *)
Definition short_read (ds : GDALMRFDataset) (off n : Z) : list byte :=
  firstn (Z.to_nat n) (skipn (Z.to_nat off) (data_file ds)).

(** The emptiness test of the write path (mrf_band.cpp:672-676 and
    740-744) on [count] bytes at [p]: against the NoData byte for Byte data
    with a NoData list, against zero otherwise. *)
Definition block_empty (ds : GDALMRFDataset) (b : GDALMRFRasterBand)
    (m : memory) (p : Z) (count : Z) : bool :=
  if GDALDataType_eqb (eDataType b) GDT_Byte
     && negb (length (vNoData ds) =? 0)%nat
  then is_empty m p (size_count count)
         (byte_of_Z (to_int (fst (GetNoDataValue ds b))))
  else is_zero m p (size_count count).

(** [ILSize req(xblk, yblk, 0, m_band/cstride, m_l)], the coordinate of the
    tile of band [b] at block [(xblk, yblk)]. *)
Definition tile_req (b : GDALMRFRasterBand) (xblk yblk : Z) : ILSize :=
  {| sz_x := xblk; sz_y := yblk; sz_z := 0;
     sz_c := div32 (m_band b) (sz_c (pagesize (img b))); sz_l := m_l b |}.

Definition needs_swab (im : ILImage) : bool :=
  is_Endianess_Dependent (dt im) (comp im) && negb (eqb (nbo im) NET_ORDER).

(** ** FillBlock (mrf_band.cpp:257-295) *)

(** [buff_fill<T>]: [count] items, each the bytes [v], [sizeT] apart. *)
Fixpoint buff_fill (sizeT : Z) (m : memory) (b : Z) (count : nat)
    (v : list byte) : memory :=
  match count with
  | O => m
  | S c => buff_fill sizeT (store m b v) (b + sizeT) c v
  end.

Definition FillBlock (b : GDALMRFRasterBand) (buf : Z) : M CPLErr :=
  let ndv := NoDataValue (img b) in
  let bsb := wrap64 (blockSizeBytes b) in
  (* use 0 if NoData is not defined *)
  let ndv := if negb (hasNoData (img b)) then double_zero else ndv in
  if negb (hasNoData (img b)) || GDALDataType_eqb (eDataType b) GDT_Byte
  then
    let* m := get_mem in
    set_mem (memset m buf (to_int ndv) bsb) ;;
    ret CE_None
  else
    let bf (sizeT : Z) : M CPLErr :=
      let* m := get_mem in
      set_mem (buff_fill sizeT m buf (Z.to_nat (bsb / sizeT))
                 (to_sample ndv (eDataType b))) ;;
      ret CE_None in
    match eDataType b with
    | GDT_UInt16 => bf 2
    | GDT_Int16 => bf 2
    | GDT_UInt32 => bf 4
    | GDT_Int32 => bf 4
    | GDT_Float32 => bf 4
    | GDT_Float64 => bf 8
    | _ => ret CE_Failure
    end.

(** ** RB: de-interleave after a read (mrf_band.cpp:303-341)

    The page is in [poDS->pbuffer]; band [i] of it goes to the caller's
    buffer [buf] when [i] is this band ([b == this]) and to the block of
    band [i] otherwise.  Dropping the block locks leaves no trace here. *)
Fixpoint RB_loop (n : nat) (i : Z) (b : GDALMRFRasterBand)
    (xblk yblk buf : Z) : M unit :=
  match n with
  | O => ret tt
  | S n' =>
      let ob :=
        if i =? m_band b then buf
        else GetLockedBlockRef i (m_l b) xblk yblk in
      let* ds := get_DS in
      let* m := get_mem in
      let CpySI (sizeT : Z) : M unit :=
        set_mem (cpy_stride_in sizeT m ob (pbuffer ds + i * sizeT)
                   (int_count (wrap64 (blockSizeBytes b) / sizeT))
                   (sz_c (pagesize (img b)))) in
      match Z.quot (GDALGetDataTypeSize (eDataType b)) 8 with
      | 1 => CpySI 1
      | 2 => CpySI 2
      | 4 => CpySI 4
      | 8 => CpySI 8
      | _ => ret tt
      end ;;
      RB_loop n' (i + 1) b xblk yblk buf
  end.

Definition RB (b : GDALMRFRasterBand) (xblk yblk : Z) (src : buf_mgr)
    (buf : Z) : M CPLErr :=
  let* ds := get_DS in
  RB_loop (Z.to_nat (nBands ds)) 0 b xblk yblk buf ;;
  ret CE_None.

(** ** IReadBlock (mrf_band.cpp:556-647) *)
Definition IReadBlock (b : GDALMRFRasterBand) (xblk yblk buf : Z)
  : M CPLErr :=
  let cstride := sz_c (pagesize (img b)) in
  let req := tile_req b xblk yblk in
  let* ds := get_DS in
  match ReadTileIdx ds req (img b) with
  | None =>
      CPLError CE_Failure "MRF: Unable to read index at offset %lld" ;;
      ret CE_Failure
  | Some tinfo =>
      if isize tinfo =? 0 then
        (* Could be missing or it could be caching *)
        if negb (offset tinfo =? 0) || is_update (eAccess ds)
           || source_empty ds || GDALRWFlag_eqb (IdxMode ds) GF_Read
        then FillBlock b buf
        else FetchBlock b xblk yblk buf
      else
        let* data := CPLMalloc (isize tinfo) in
        if negb (data_open ds) then ret CE_Failure
        else
          match read_data ds (offset tinfo) (isize tinfo) with
          | None =>
              (* the bytes that were read are in the block *)
              let* m := get_mem in
              set_mem (store m data
                         (short_read ds (offset tinfo) (isize tinfo))) ;;
              CPLFree data ;;
              CPLError CE_Failure "Unable to read data page, %ld@%lx" ;;
              ret CE_Failure
          | Some page =>
              let* m := get_mem in
              set_mem (store m data page) ;;
              let src := {| buffer := data; bsize := isize tinfo |} in
              (* do we need to decompress it before decoding? *)
              let* (data, tsize) :=
                if deflate b then
                  let dsize := wrap64 (add32 (pageSizeBytes (img b)) 1440) in
                  let* dbuf := CPLMalloc dsize in
                  let* (ok, dst) :=
                    ZUnPack_call src {| buffer := dbuf; bsize := dsize |}
                      (deflate_flags b) in
                  if ok then
                    CPLFree data ;;
                    ret (buffer dst, bsize dst)
                  else
                    (* Warn and assume the data was not deflated *)
                    CPLError CE_Warning "Can't inflate page!" ;;
                    CPLFree dbuf ;;
                    ret (data, isize tinfo)
                else ret (data, isize tinfo) in
              let src := {| buffer := data; bsize := tsize |} in
              let dst :=
                {| buffer := if negb (cstride =? 1) then pbuffer ds
                             else buf;
                   bsize := pageSizeBytes (img b) |} in
              let* r := Decompress_call b dst src in
              CPLFree data ;;
              (if needs_swab (img b) then swab_call dst (img b)
               else ret tt) ;;
              if (cstride =? 1) || negb (CPLErr_eqb r CE_None) then ret r
              else RB b xblk yblk dst buf
          end
  end.

(** ** IWriteBlock (mrf_band.cpp:660-810) *)

(** The loop over the bands of an interleaved page ([n] bands still to
    visit): the emptiness mask gathered so far, or nothing when the sample
    width is not supported and the write is abandoned.  [MarkClean] and
    [DropLock] act on the host's block cache only. *)
Fixpoint gather_bands (n : nat) (iBand : Z) (b : GDALMRFRasterBand)
    (xblk yblk buf tbuffer : Z) (empties : Z) : M (option Z) :=
  match n with
  | O => ret (Some empties)
  | S n' =>
      let cstride := sz_c (pagesize (img b)) in
      let* ds := get_DS in
      let pabyThisImage :=
        if iBand =? m_band b then Some buf
        else TryGetLockedBlockRef iBand (m_l b) xblk yblk in
      match pabyThisImage with
      | None => gather_bands n' (iBand + 1) b xblk yblk buf tbuffer empties
      | Some paby =>
          set_DS (with_bdirty ds (Z.lor (bdirty ds) (bandbit iBand))) ;;
          let* m := get_mem in
          (* Keep track of empty bands, but encode them anyhow *)
          let empties :=
            if block_empty ds b m paby (blockSizeBytes b)
            then Z.lor empties (bandbit iBand) else empties in
          let CpySO (sizeT : Z) : M (option Z) :=
            set_mem (cpy_stride_out sizeT m (tbuffer + iBand * sizeT) paby
                       (int_count (wrap64 (blockSizeBytes b) / sizeT))
                       cstride) ;;
            gather_bands n' (iBand + 1) b xblk yblk buf tbuffer empties in
          match Z.quot (GDALGetDataTypeSize (eDataType b)) 8 with
          | 1 => CpySO 1
          | 2 => CpySO 2
          | 4 => CpySO 4
          | 8 => CpySO 8
          | _ =>
              CPLError CE_Failure
                "MRF: Write datatype of %d bytes not implemented" ;;
              ret None
          end
      end
  end.

Definition IWriteBlock (b : GDALMRFRasterBand) (xblk yblk buf : Z)
  : M CPLErr :=
  let cstride := sz_c (pagesize (img b)) in
  let req := tile_req b xblk yblk in
  let infooffset := IdxOffset req (img b) in
  let* ds := get_DS in
  let* m := get_mem in
  if cstride =? 1 then
    (* Separate bands, we can write it as is *)
    if block_empty ds b m buf (pageSizeBytes (img b))
    then WriteTile NULL infooffset 0
    else
      set_DS (with_tile ds ILSize_default) ;;
      let src := {| buffer := buf; bsize := pageSizeBytes (img b) |} in
      let dst := {| buffer := pbuffer ds; bsize := pbsize ds |} in
      (* Swab the source before encoding if we need to *)
      (if needs_swab (img b) then swab_call src (img b) else ret tt) ;;
      let* (_, dst) := Compress_call b dst src in
      if deflate b then
        let* (usebuff, dst) :=
          DeflateBlock dst (wrap64 (pbsize ds - bsize dst))
            (deflate_flags b) in
        if usebuff =? NULL then
          CPLError CE_Failure "MRF: Deflate error" ;;
          ret CE_Failure
        else WriteTile usebuff infooffset (bsize dst)
      else WriteTile (buffer dst) infooffset (bsize dst)
  else
    (* Multiple bands per page, use a temporary to assemble the page *)
    set_DS (with_bdirty (with_tile ds req) 0) ;;
    let* tbuffer :=
      CPLMalloc (wrap64 (pageSizeBytes (img b) + pbsize ds)) in
    if tbuffer =? NULL then
      CPLError CE_Failure "MRF: Can't allocate write buffer" ;;
      ret CE_Failure
    else
      let* gathered :=
        gather_bands (Z.to_nat (nBands ds)) 0 b xblk yblk buf tbuffer 0 in
      match gathered with
      | None => ret CE_Failure
      | Some empties =>
          if empties =? AllBandMask ds then
            CPLFree tbuffer ;;
            WriteTile NULL infooffset 0
          else
            let* ds1 := get_DS in
            (if negb (bdirty ds1 =? AllBandMask ds1)
             then CPLError CE_Warning
                    "MRF: IWrite, band dirty mask is %0llx instead of %lld"
             else ret tt) ;;
            let src :=
              {| buffer := tbuffer; bsize := pageSizeBytes (img b) |} in
            (* Use the space after pagesizebytes for compressed output *)
            let outbuff := tbuffer + pageSizeBytes (img b) in
            let dst := {| buffer := outbuff; bsize := pbsize ds |} in
            let* (_, dst) := Compress_call b dst src in
            let finish (usebuff : Z) (dst : buf_mgr) : M CPLErr :=
              let* r := WriteTile usebuff infooffset (bsize dst) in
              CPLFree tbuffer ;;
              let* ds2 := get_DS in
              set_DS (with_bdirty ds2 0) ;;
              ret r in
            if deflate b then
              (* Move the packed part at the start of tbuffer *)
              let* m1 := get_mem in
              set_mem (memcpy m1 tbuffer outbuff (bsize dst)) ;;
              let dst := {| buffer := tbuffer; bsize := bsize dst |} in
              let* (usebuff, dst) :=
                DeflateBlock dst
                  (wrap64 (pageSizeBytes (img b) + pbsize ds - bsize dst))
                  (deflate_flags b) in
              if usebuff =? NULL then
                CPLError CE_Failure "MRF: Deflate error" ;;
                CPLFree tbuffer ;;
                ret CE_Failure
              else finish usebuff dst
            else finish outbuff dst
      end.

(** ** Vocabulary of the properties *)

(** Every byte of the [n] bytes at [p] is [v]. *)
Definition filled_with (m : memory) (p n : Z) (v : byte) : Prop :=
  forall a : Z, p <= a < p + n -> m a = v.

(** The NoData value of the band as the write path compares it: narrowed
    to one byte. *)
Definition NoData_byte (ds : GDALMRFDataset) (b : GDALMRFRasterBand) : byte :=
  byte_of_Z (to_int (fst (GetNoDataValue ds b))).

(** The sample types [FillBlock] has a typed fill for. *)
Definition has_typed_fill (t : GDALDataType) : bool :=
  match t with
  | GDT_UInt16 | GDT_Int16 | GDT_UInt32 | GDT_Int32 | GDT_Float32
  | GDT_Float64 => true
  | _ => false
  end.

(** The block dimensions are not negative and the block size in bytes is
    an [int]. *)
Definition block_geometry_ok (b : GDALMRFRasterBand) : Prop :=
  0 <= nBlockXSize b /\ 0 <= nBlockYSize b
  /\ nBlockXSize b * nBlockYSize b <= INT_MAX
  /\ nBlockXSize b * nBlockYSize b
     * Z.quot (GDALGetDataTypeSize (eDataType b)) 8 <= INT_MAX.

(** ** Vocabulary of the interleaved write *)

(** Bytes per sample of the band. *)
Definition sample_size (b : GDALMRFRasterBand) : Z :=
  Z.quot (GDALGetDataTypeSize (eDataType b)) 8.

(** Samples per band in one tile. *)
Definition block_samples (b : GDALMRFRasterBand) : Z :=
  nBlockXSize b * nBlockYSize b.

(** Where the samples of band [i] are for the write of band [b]: the
    caller's buffer for the band itself, the resident block for another
    band, nothing when that block is not resident. *)
Definition band_data (b : GDALMRFRasterBand) (xblk yblk buf : Z) (i : Z)
  : option Z :=
  if i =? m_band b then Some buf
  else TryGetLockedBlockRef i (m_l b) xblk yblk.

(** The byte an empty block is made of. *)
Definition empty_byte (ds : GDALMRFDataset) (b : GDALMRFRasterBand) : byte :=
  if GDALDataType_eqb (eDataType b) GDT_Byte
     && negb (length (vNoData ds) =? 0)%nat
  then NoData_byte ds b else Byte.x00.

(** Band [i] is at hand and its block is empty. *)
Definition band_empty (b : GDALMRFRasterBand) (xblk yblk buf : Z)
    (w : world) (i : Z) : Prop :=
  exists p : Z,
    band_data b xblk yblk buf i = Some p
    /\ filled_with (mem w) p (blockSizeBytes b) (empty_byte (poDS w) b).

(** The emptiness mask after bands [i0 .. i0+n-1], [f] telling which of
    them are empty. *)
Fixpoint band_bits (f : Z -> bool) (i0 : Z) (n : nat) (e : Z) : Z :=
  match n with
  | O => e
  | S n' =>
      band_bits f (i0 + 1) n'
        (if f i0 then Z.lor e (bandbit i0) else e)
  end.

(** Address [a] lies in one of the [c] items written by a strided copy to
    [d]. *)
Definition in_stride (sizeT d stride : Z) (c : nat) (a : Z) : Prop :=
  exists k : nat,
    (k < c)%nat
    /\ d + Z.of_nat k * stride * sizeT <= a
       < d + Z.of_nat k * stride * sizeT + sizeT.

(** Which bands the loop of the interleaved write counts empty, read off
    the state the write starts in. *)
Definition counted_empty (b : GDALMRFRasterBand) (xblk yblk buf : Z)
    (w0 : world) (i : Z) : bool :=
  match band_data b xblk yblk buf i with
  | Some p => block_empty (poDS w0) b (mem w0) p (blockSizeBytes b)
  | None => false
  end.

(** How often a buffer was byte-swapped in a trace. *)
Fixpoint swab_count (tr : list event) : nat :=
  match tr with
  | [] => 0
  | ev_swab _ _ :: tr' => S (swab_count tr')
  | _ :: tr' => swab_count tr'
  end.

(** How often the tile codec ran in a trace. *)
Fixpoint compress_count (tr : list event) : nat :=
  match tr with
  | [] => 0
  | ev_Compress _ :: tr' => S (compress_count tr')
  | _ :: tr' => compress_count tr'
  end.

(** The geometry an interleaved page relies on: samples of 1, 2, 4 or 8
    bytes, at most 63 bands, none beyond the page's band count, a page of
    samples x bands x sample size bytes, and band buffers that do not
    overlap the page being assembled at [t]. *)
Definition interleave_ok (b : GDALMRFRasterBand) (xblk yblk buf t : Z)
    (w : world) : Prop :=
  let c := sz_c (pagesize (img b)) in
  let s := sample_size b in
  let n := block_samples b in
  block_geometry_ok b
  /\ (s = 1 \/ s = 2 \/ s = 4 \/ s = 8)
  /\ 0 <= nBands (poDS w) <= c /\ nBands (poDS w) < 64
  /\ pageSizeBytes (img b) = n * c * s
  /\ pageSizeBytes (img b) < 2 ^ 64
  /\ forall i p : Z,
       0 <= i < nBands (poDS w) ->
       band_data b xblk yblk buf i = Some p ->
       p + n * s <= t \/ t + n * c * s <= p.

(** ** Vocabulary of byte order, of the allocator and of the read path *)

(** The width in bytes of the words [swab_buff] reverses for the image's
    sample type; 1 when it leaves the buffer alone. *)
Definition swab_width (im : ILImage) : Z :=
  match GDALGetDataTypeSize (dt im) with
  | 16 => 2
  | 32 => 4
  | 64 => 8
  | _ => 1
  end.

(** The number of whole words the loops of [swab_buff] visit in a buffer
    of [n] bytes. *)
Definition swab_words (k n : Z) : nat := int_count (wrap64 n / k).

(** The mirror image of address [a] in its word of [k] bytes, the words
    starting at [b]. *)
Definition swab_addr (k b a : Z) : Z :=
  b + k * ((a - b) / k) + (k - 1 - (a - b) mod k).

(** The pointers other than [NULL] released in a trace. *)
Fixpoint frees (t : list event) : list Z :=
  match t with
  | [] => []
  | ev_CPLFree p :: t' => if p =? NULL then frees t' else p :: frees t'
  | _ :: t' => frees t'
  end.

(** The pointers other than [NULL] that [CPLMalloc] handed out in a
    trace. *)
Definition blocks (t : list event) : list Z :=
  List.filter (fun p => negb (p =? NULL)) (map snd (allocations t)).

(** The [WriteTile] calls of a trace: buffer, index position and size. *)
Fixpoint tile_writes (t : list event) : list (Z * Z * Z) :=
  match t with
  | [] => []
  | ev_WriteTile p o n :: t' => (p, o, n) :: tile_writes t'
  | _ :: t' => tile_writes t'
  end.

(** Where [RB] puts the samples of band [i] on behalf of band [b]: the
    caller's buffer for the band itself, the locked block of the other
    band otherwise. *)
Definition band_dest (b : GDALMRFRasterBand) (xblk yblk buf : Z) (i : Z)
  : Z :=
  if i =? m_band b then buf else GetLockedBlockRef i (m_l b) xblk yblk.

(** What a de-interleaving read relies on: samples of 1, 2, 4 or 8 bytes,
    no more bands than the page holds, and destination blocks that
    overlap neither the page in [pbuffer] nor each other. *)
Definition deinterleave_ok (b : GDALMRFRasterBand) (xblk yblk buf : Z)
    (w : world) : Prop :=
  let c := sz_c (pagesize (img b)) in
  let s := sample_size b in
  let n := block_samples b in
  let pb := pbuffer (poDS w) in
  block_geometry_ok b
  /\ (s = 1 \/ s = 2 \/ s = 4 \/ s = 8)
  /\ 0 <= nBands (poDS w) <= c
  /\ (forall i : Z,
        0 <= i < nBands (poDS w) ->
        band_dest b xblk yblk buf i + n * s <= pb
        \/ pb + n * c * s <= band_dest b xblk yblk buf i)
  /\ (forall i i' : Z,
        0 <= i < nBands (poDS w) -> 0 <= i' < nBands (poDS w) -> i <> i' ->
        band_dest b xblk yblk buf i + n * s <= band_dest b xblk yblk buf i'
        \/ band_dest b xblk yblk buf i' + n * s
           <= band_dest b xblk yblk buf i).

(** The read of tile [(xblk, yblk)] does not enter the cache-fill path:
    the index entry, when there is one of size zero, forbids the fetch. *)
Definition no_fetch (b : GDALMRFRasterBand) (xblk yblk : Z)
    (ds : GDALMRFDataset) : Prop :=
  forall tinfo : ILIdx,
    ReadTileIdx ds (tile_req b xblk yblk) (img b) = Some tinfo ->
    isize tinfo = 0 ->
    offset tinfo <> 0 \/ eAccess ds = GA_Update
    \/ source_empty ds = true \/ IdxMode ds = GF_Read.

(** The band's image descriptor carries the NoData value the band
    reports, as the constructor sets it (mrf_band.cpp:177). *)
Definition NoData_of_img (ds : GDALMRFDataset) (b : GDALMRFRasterBand)
  : Prop :=
  NoDataValue (img b) = fst (GetNoDataValue ds b)
  /\ hasNoData (img b) = snd (GetNoDataValue ds b).

End Engine.

(** ** A reference host

    The engine can be run on concrete tiles with the uncompressed codec
    ([Compress] and [Decompress] copy the page) and a stored-block packer
    that puts one marker byte in front of its input. *)

Definition stored_ZPack (s : list byte) (cap flags : Z) : bool * list byte :=
  let out := Byte.x78 :: s in
  if cap <? Z.of_nat (length out) then (false, firstn (Z.to_nat cap) out)
  else (true, out).

Definition stored_ZUnPack (s : list byte) (cap flags : Z)
  : bool * list byte :=
  match s with
  | Byte.x78 :: t =>
      if cap <? Z.of_nat (length t) then (false, firstn (Z.to_nat cap) t)
      else (true, t)
  | _ => (false, [])
  end.

Definition raw_host : Host :=
  {| ZPack := stored_ZPack;
     ZUnPack := stored_ZUnPack;
     Compress := fun _ s _ => (CE_None, s);
     Decompress := fun _ s cap => (CE_None, firstn (Z.to_nat cap) s);
     is_Endianess_Dependent := fun t _ => 8 <? GDALGetDataTypeSize t;
     NET_ORDER := false;
     IdxOffset := fun req _ => 16 * (sz_x req + 4 * sz_y req);
     ILSize_default :=
       {| sz_x := -1; sz_y := -1; sz_z := -1; sz_c := -1; sz_l := -1 |};
     TryGetLockedBlockRef := fun iBand _ _ _ => Some (3000 + 100 * iBand);
     GetLockedBlockRef := fun iBand _ _ _ => 3000 + 100 * iBand;
     FetchBlock := fun _ _ _ _ => ret CE_Failure |}.


(** A store opened for update, with nothing written yet and a page buffer
    of 256 bytes at address 2000. *)
Definition fresh_DS (bands : Z) (nodata : list double) : GDALMRFDataset :=
  {| nBands := bands; vNoData := nodata; eAccess := GA_Update;
     source_empty := true; IdxMode := GF_Write;
     pbuffer := 2000; pbsize := 256;
     tile := {| sz_x := -1; sz_y := -1; sz_z := -1; sz_c := -1;
                sz_l := -1 |};
     bdirty := 0; idx_file := ∅; data_file := [];
     data_open := true; io_ok := true |}.

(** A world whose memory is zero except for [bytes] at address [p], and
    whose allocator will hand out the addresses [plan]. *)
Definition world_with (p : Z) (bytes : list byte) (plan : list Z)
    (ds : GDALMRFDataset) : world :=
  {| mem := store (fun _ => Byte.x00) p bytes;
     heap_plan := plan; trace := []; poDS := ds |}.

(** A band of level 0 over tiles of [bx] by [by_] samples of type [t], [c]
    bands to a page. *)
Definition band_of (t : GDALDataType) (idx c bx by_ : Z) (swapped : bool)
    (use_deflate : bool) (nodata : option double) : GDALMRFRasterBand :=
  {| m_band := idx; m_l := 0;
     img := {| pagesize := {| sz_x := bx; sz_y := by_; sz_z := 1;
                              sz_c := c; sz_l := 0 |};
               pageSizeBytes :=
                 bx * by_ * c * Z.quot (GDALGetDataTypeSize t) 8;
               dt := t; comp := 0; nbo := swapped;
               hasNoData := match nodata with Some _ => true | None => false
                            end;
               NoDataValue := match nodata with Some v => v
                                           | None => double_zero end;
               quality := 85 |};
     eDataType := t; nBlockXSize := bx; nBlockYSize := by_;
     deflate := use_deflate; deflate_flags := 8;
     pam_NoData := (double_zero, false) |}.

(** The value 1 as a [double]: as a sample, the bytes of [T(1.0)] on a
    little-endian machine, which is the IEEE encoding for the floating
    types and one low byte set for the integer types. *)
Definition double_one : double :=
  {| to_int := 1;
     to_sample := fun t =>
       match t with
       | GDT_Unknown => []
       | GDT_Float32 => [Byte.x00; Byte.x00; Byte.x80; Byte.x3f]
       | GDT_Float64 =>
           [Byte.x00; Byte.x00; Byte.x00; Byte.x00;
            Byte.x00; Byte.x00; Byte.xf0; Byte.x3f]
       | GDT_CFloat32 =>
           [Byte.x00; Byte.x00; Byte.x80; Byte.x3f;
            Byte.x00; Byte.x00; Byte.x00; Byte.x00]
       | GDT_CFloat64 =>
           [Byte.x00; Byte.x00; Byte.x00; Byte.x00;
            Byte.x00; Byte.x00; Byte.xf0; Byte.x3f;
            Byte.x00; Byte.x00; Byte.x00; Byte.x00;
            Byte.x00; Byte.x00; Byte.x00; Byte.x00]
       | _ =>
           Byte.x01 ::
           repeat Byte.x00 (Z.to_nat (Z.quot (GDALGetDataTypeSize t) 8) - 1)
       end |}.

(** ** Concrete tiles *)

(** Four bytes at address 1000. *)
Definition four_bytes : buf_mgr := {| buffer := 1000; bsize := 4 |}.

Definition four_bytes_world (plan : list Z) : world :=
  world_with 1000 [Byte.x01; Byte.x02; Byte.x03; Byte.x04] plan
    (fresh_DS 1 []).

(** A tile of two Byte samples, both the NoData value 1. *)
Definition byte_band : GDALMRFRasterBand :=
  band_of GDT_Byte 0 1 2 1 false false (Some double_one).

Definition nodata_tile_world : world :=
  world_with 1000 [Byte.x01; Byte.x01] [] (fresh_DS 1 [double_one]).

(** A store whose index has one entry, for the tile at (0, 0). *)
Definition one_entry_DS (nodata : list double) (entry : ILIdx)
    (dat : list byte) : GDALMRFDataset :=
  with_files (fresh_DS 1 nodata) {[ 0 := entry ]} dat.

Definition empty_entry : ILIdx := {| offset := 0; isize := 0 |}.

Definition int16_band : GDALMRFRasterBand :=
  band_of GDT_Int16 0 1 2 1 false false (Some double_one).

Definition stale_buffer_world (ds : GDALMRFDataset) : world :=
  world_with 1000 [Byte.xff; Byte.xff; Byte.xff; Byte.xff] [] ds.

(** Two Byte bands to a page of one sample each; band 0 is being
    written from address 1000 and the block of band 1 is at 3100. *)
Definition pair_band : GDALMRFRasterBand :=
  band_of GDT_Byte 0 2 1 1 false false None.

Definition pair_world (sample0 : byte) : world :=
  world_with 1000 [sample0] [5000] (fresh_DS 2 []).

(** A stored tile of two bytes that was never deflated, in a store that
    has the deflate stage on. *)
Definition plain_tile_DS : GDALMRFDataset :=
  one_entry_DS [] {| offset := 0; isize := 2 |} [Byte.x01; Byte.x02].

Definition deflate_band : GDALMRFRasterBand :=
  band_of GDT_Byte 0 1 2 1 false true None.


(** One Int16 sample, bytes 01 02, in a store whose byte order differs
    from the network's; with and without the deflate stage. *)
Definition swapped_band (use_deflate : bool) : GDALMRFRasterBand :=
  band_of GDT_Int16 0 1 1 1 true use_deflate None.

Definition swapped_world : world :=
  world_with 1000 [Byte.x01; Byte.x02] [5000; 6000; 7000] (fresh_DS 1 []).

(** An interleaved page of two Byte bands, samples 0a and 0b, in the
    page buffer. *)
Definition page_world : world :=
  world_with 2000 [Byte.x0a; Byte.x0b] [] (fresh_DS 2 []).

End Band.

(** * Properties *)

(** ** Machine arithmetic *)

Lemma wrap32_id (z : Z) : is_int z -> wrap32 z = z.
Proof.
  unfold is_int, INT_MIN, INT_MAX, wrap32. intros H.
  rewrite Z.mod_small; lia.
Qed.

Lemma wrap32_is_int (z : Z) : is_int (wrap32 z).
Proof.
  unfold is_int, INT_MIN, INT_MAX, wrap32.
  pose proof (Z.mod_pos_bound (z + 2 ^ 31) (2 ^ 32)). lia.
Qed.

Lemma wrap32_add_r (a b : Z) : wrap32 (a + wrap32 b) = wrap32 (a + b).
Proof.
  unfold wrap32. f_equal.
  replace (a + ((b + 2 ^ 31) mod 2 ^ 32 - 2 ^ 31) + 2 ^ 31)
    with (a + (b + 2 ^ 31) mod 2 ^ 32) by lia.
  rewrite Zplus_mod_idemp_r. f_equal. lia.
Qed.

Lemma add32_sub32 (a x : Z) : is_int x -> add32 a (sub32 x a) = x.
Proof.
  intros H. unfold add32, sub32. rewrite wrap32_add_r.
  replace (a + (x - a)) with x by lia. now apply wrap32_id.
Qed.

Lemma land_1_mod (z : Z) : Z.land z 1 = z mod 2.
Proof. change 1 with (Z.ones 1) at 1. now rewrite Z.land_ones. Qed.

Lemma quot2_bounds (z : Z) : is_int z -> - 2 ^ 30 <= Z.quot z 2 <= 2 ^ 30.
Proof.
  unfold is_int, INT_MIN, INT_MAX. intros H.
  pose proof (Z.quot_rem' z 2) as E.
  assert (B : Z.abs (Z.rem z 2) < Z.abs 2) by (apply Z.rem_bound_abs; lia).
  lia.
Qed.

Lemma quot2_is_int (z : Z) : is_int z -> is_int (Z.quot z 2).
Proof.
  intros H. pose proof (quot2_bounds z H).
  unfold is_int, INT_MIN, INT_MAX. lia.
Qed.

(** ** The overview loop of [state::patch] *)

Module InsertFacts.
Import Insert.

Lemma level_step_is_int (r : region) : region_is_int (level_step r).
Proof.
  unfold region_is_int, level_step, add32, div32; simpl.
  repeat split; apply wrap32_is_int.
Qed.

(** The half-and-round expression never leaves the [int] range. *)
Lemma half_round_exact (w bx : Z) :
  is_int w -> is_int bx ->
  add32 (add32 (div32 w 2) (Z.land w 1)) (Z.land bx 1)
  = Z.quot w 2 + w mod 2 + bx mod 2.
Proof.
  intros Hw Hb. rewrite !land_1_mod.
  pose proof (quot2_is_int w Hw) as Hq.
  pose proof (Z.mod_pos_bound w 2) as Hm1.
  pose proof (Z.mod_pos_bound bx 2) as Hm2.
  pose proof (quot2_bounds w Hw) as Hq'.
  unfold add32, div32.
  rewrite (wrap32_id (Z.quot w 2)) by exact Hq.
  rewrite (wrap32_id (Z.quot w 2 + w mod 2))
    by (unfold is_int, INT_MIN, INT_MAX; lia).
  apply wrap32_id. unfold is_int, INT_MIN, INT_MAX. lia.
Qed.

(** C1: one level step of the overview loop sets the width to
    width/2 + (width mod 2) + (blockX mod 2), the height to
    height/2 + (height mod 2) + (blockY mod 2), and halves blockX and
    blockY, the divisions truncating.  For values that are not negative
    the remainder of the truncating division is the same [mod 2]. *)
Theorem C1_level_step_rule (r : region) :
  region_is_int r ->
  WidthOut (level_step r)
    = Z.quot (WidthOut r) 2 + WidthOut r mod 2 + BlockXOut r mod 2
  /\ HeightOut (level_step r)
    = Z.quot (HeightOut r) 2 + HeightOut r mod 2 + BlockYOut r mod 2
  /\ BlockXOut (level_step r) = Z.quot (BlockXOut r) 2
  /\ BlockYOut (level_step r) = Z.quot (BlockYOut r) 2
  /\ (0 <= WidthOut r -> 0 <= BlockXOut r ->
      WidthOut (level_step r)
      = Z.quot (WidthOut r) 2 + Z.rem (WidthOut r) 2
        + Z.rem (BlockXOut r) 2)
  /\ (0 <= HeightOut r -> 0 <= BlockYOut r ->
      HeightOut (level_step r)
      = Z.quot (HeightOut r) 2 + Z.rem (HeightOut r) 2
        + Z.rem (BlockYOut r) 2).
Proof.
  intros (Hbx & Hby & Hw & Hh).
  assert (HW := half_round_exact _ _ Hw Hbx).
  assert (HH := half_round_exact _ _ Hh Hby).
  unfold level_step; simpl.
  repeat split.
  - exact HW.
  - exact HH.
  - unfold div32. apply wrap32_id. now apply quot2_is_int.
  - unfold div32. apply wrap32_id. now apply quot2_is_int.
  - intros H1 H2. rewrite HW. rewrite !Z.rem_mod_nonneg by lia. reflexivity.
  - intros H1 H2. rewrite HH. rewrite !Z.rem_mod_nonneg by lia. reflexivity.
Qed.

Lemma C1_level_step_rule_witness :
  region_is_int {| BlockXOut := 3; BlockYOut := 5;
                   WidthOut := 4; HeightOut := 3 |}
  /\ WidthOut (level_step {| BlockXOut := 3; BlockYOut := 5;
                             WidthOut := 4; HeightOut := 3 |}) = 3.
Proof.
  assert (H : region_is_int {| BlockXOut := 3; BlockYOut := 5;
                               WidthOut := 4; HeightOut := 3 |}).
  { unfold region_is_int, is_int, INT_MIN, INT_MAX; simpl. lia. }
  split; [exact H |].
  destruct (C1_level_step_rule _ H) as (E & _). rewrite E. reflexivity.
Defined.

(** The loop leaves in its variables the base region stepped once per
    iteration, whatever the level bounds are. *)
Lemma overview_loop_final (n : nat) (sl a b : Z) (r : region) :
  snd (overview_loop n sl a b r) = Nat.iter n level_step r.
Proof.
  revert sl r. induction n as [| n IH]; intros sl r; simpl; [reflexivity |].
  specialize (IH (sl + 1) (level_step r)).
  destruct (overview_loop n (sl + 1) a b (level_step r)) as [rest r'].
  simpl in *. rewrite IH. symmetry.
  exact (Nat.iter_succ_r n level_step r).
Qed.

(** Every [PatchOverview] call carries the base region stepped once per
    source level below it. *)
Lemma overview_loop_calls (n : nat) (sl a b : Z) (r : region)
    (c : PatchOverview_call) :
  In c (fst (overview_loop n sl a b r)) ->
  exists k : nat,
    (k < n)%nat /\ po_srcLevel c = sl + Z.of_nat k
    /\ po_region c = Nat.iter k level_step r
    /\ a <= po_srcLevel c < b.
Proof.
  revert sl r. induction n as [| n IH]; intros sl r; simpl; [tauto |].
  specialize (IH (sl + 1) (level_step r)).
  destruct (overview_loop n (sl + 1) a b (level_step r)) as [rest r'].
  simpl in *. rewrite in_app_iff. intros [Hc | Hc].
  - destruct ((a <=? sl) && (sl <? b)) eqn:E; simpl in Hc; [| tauto].
    destruct Hc as [<- | []]. exists 0%nat. simpl.
    apply andb_true_iff in E. repeat split; lia.
  - destruct (IH Hc) as (k & Hk & Hl & Hr & Hab).
    exists (S k). repeat split; try lia.
    rewrite Hr. symmetry. exact (Nat.iter_succ_r k level_step r).
Qed.

(** C8, as the code computes it: the base region (3, 5, 4, 3) steps to
    blockX 1, blockY 2, width 3 and height 3. *)
Theorem C8_level1_region :
  level_step {| BlockXOut := 3; BlockYOut := 5;
                WidthOut := 4; HeightOut := 3 |}
  = {| BlockXOut := 1; BlockYOut := 2; WidthOut := 3; HeightOut := 3 |}.
Proof. reflexivity. Qed.

(** C8, as stated: the level-1 region is not (1, 2, 3, 2). *)
Lemma C8_level1_region_not_height_2 :
  level_step {| BlockXOut := 3; BlockYOut := 5;
                WidthOut := 4; HeightOut := 3 |}
  <> {| BlockXOut := 1; BlockYOut := 2; WidthOut := 3; HeightOut := 2 |}.
Proof. intros H. vm_compute in H. discriminate H. Qed.

(** ** ClippedRasterIO *)

(** Clipping the end of a line: the window then ends inside the band. *)
Lemma clip_len_inside (extent off len : Z) :
  is_int extent ->
  add32 off (if extent <? add32 off len then sub32 extent off else len)
  <= extent.
Proof.
  intros He. destruct (Z.ltb_spec extent (add32 off len)).
  - rewrite add32_sub32 by exact He. lia.
  - assumption.
Qed.

Lemma clip_len_exact (extent off len : Z) :
  0 <= extent <= INT_MAX -> 0 <= off -> is_int off -> is_int (off + len) ->
  off + (if extent <? add32 off len then sub32 extent off else len)
  <= extent.
Proof.
  intros He H0 Ho Hs. unfold add32. rewrite (wrap32_id _ Hs).
  destruct (Z.ltb_spec extent (off + len)); [| lia].
  unfold sub32. rewrite wrap32_id; [lia |].
  unfold is_int, INT_MIN, INT_MAX in *. lia.
Qed.

Lemma add32_comm_exact (off len : Z) :
  is_int (off + len) -> add32 len off = off + len.
Proof. intros H. unfold add32. rewrite Z.add_comm. now apply wrap32_id. Qed.

Lemma is_int_0 : is_int 0.
Proof. unfold is_int, INT_MIN, INT_MAX. lia. Qed.

(** C10: for a read request whose offset plus size is an [int] in both
    directions, however far the window reaches below zero or beyond the
    band, the window handed to the band's own read starts at or after 0
    and ends at or before the band's extent in both directions; exactly
    one such read is issued.  For every request the same holds of the
    sums as the machine computes them, which wrap. *)
Theorem C10_clipped_window_inside
    (RasterIO : GDALRasterBand -> RasterIO_request -> CPLErr)
    (band : GDALRasterBand) (nXOff nYOff nXSize nYSize : Z)
    (pData nBufXSize nBufYSize : Z) (eBufType : GDALDataType)
    (nPixelSpace nLineSpace : Z) :
  is_int nXOff -> is_int nYOff -> is_int nXSize -> is_int nYSize ->
  0 <= GetXSize band <= INT_MAX -> 0 <= GetYSize band <= INT_MAX ->
  exists rq : RasterIO_request,
    ClippedRasterIO RasterIO band GF_Read nXOff nYOff nXSize nYSize pData
      nBufXSize nBufYSize eBufType nPixelSpace nLineSpace
    = (RasterIO band rq, [rq])
    /\ 0 <= rq_XOff rq /\ 0 <= rq_YOff rq
    /\ add32 (rq_XOff rq) (rq_XSize rq) <= GetXSize band
    /\ add32 (rq_YOff rq) (rq_YSize rq) <= GetYSize band
    /\ (is_int (nXOff + nXSize) ->
        rq_XOff rq + rq_XSize rq <= GetXSize band)
    /\ (is_int (nYOff + nYSize) ->
        rq_YOff rq + rq_YSize rq <= GetYSize band).
Proof.
  intros HxO HyO HxS HyS HX HY.
  assert (HXi : is_int (GetXSize band))
    by (unfold is_int, INT_MIN, INT_MAX in *; lia).
  assert (HYi : is_int (GetYSize band))
    by (unfold is_int, INT_MIN, INT_MAX in *; lia).
  unfold ClippedRasterIO. simpl.
  destruct ((0 <=? nXOff) && (add32 nXOff nXSize <=? GetXSize band)
            && (0 <=? nYOff) && (add32 nYOff nYSize <=? GetYSize band))
    eqn:Hfit.
  - (* no need to clip *)
    apply andb_true_iff in Hfit as [Hfit H4].
    apply andb_true_iff in Hfit as [Hfit H3].
    apply andb_true_iff in Hfit as [H1 H2].
    apply Z.leb_le in H1, H2, H3, H4.
    eexists. split; [reflexivity |]. simpl.
    repeat split; try lia.
    + intros Hs. unfold add32 in H2. rewrite wrap32_id in H2; [lia | exact Hs].
    + intros Hs. unfold add32 in H4. rewrite wrap32_id in H4; [lia | exact Hs].
  - assert (Hfit' : ((nXOff <? 0) || (GetXSize band <? add32 nXOff nXSize))
                    || ((nYOff <? 0)
                        || (GetYSize band <? add32 nYOff nYSize)) = true).
    { apply not_false_iff_true. intros Hc.
      apply orb_false_iff in Hc as [A B].
      apply orb_false_iff in A as [A1 A2].
      apply orb_false_iff in B as [B1 B2].
      apply Z.ltb_ge in A1, A2, B1, B2.
      apply Z.leb_le in A1, A2, B1, B2.
      rewrite A1, A2, B1, B2 in Hfit. discriminate Hfit. }
    destruct ((nXOff <? 0) || (GetXSize band <? add32 nXOff nXSize)) eqn:HcX;
    destruct ((nYOff <? 0) || (GetYSize band <? add32 nYOff nYSize)) eqn:HcY;
    try discriminate Hfit'; clear Hfit';
    try (apply orb_false_iff in HcX as [X1 X2]; apply Z.ltb_ge in X1, X2);
    try (apply orb_false_iff in HcY as [Y1 Y2]; apply Z.ltb_ge in Y1, Y2);
    destruct (Z.ltb_spec nXOff 0) as [Xn | Xp];
    destruct (Z.ltb_spec nYOff 0) as [Yn | Yp];
    try lia;
    (eexists; split; [reflexivity |]; simpl;
     repeat split;
     try lia;
     try (apply clip_len_inside; assumption);
     try assumption;
     try (intros Hs; rewrite (add32_comm_exact _ _ Hs);
          apply clip_len_exact;
          [assumption | lia | exact is_int_0 | exact Hs]);
     try (intros Hs; apply clip_len_exact; [assumption | lia | assumption
                                            | exact Hs]);
     try (intros Hs; unfold add32 in X2; rewrite wrap32_id in X2;
          [lia | exact Hs]);
     try (intros Hs; unfold add32 in Y2; rewrite wrap32_id in Y2;
          [lia | exact Hs])).
Qed.

Lemma C10_clipped_window_inside_witness :
  let band := {| GetXSize := 10; GetYSize := 10 |} in
  exists rq : RasterIO_request,
    ClippedRasterIO (fun _ _ => CE_None) band GF_Read (-5) (-3) 20 20 1000
      20 20 GDT_Byte 1 20
    = (CE_None, [rq])
    /\ 0 <= rq_XOff rq /\ 0 <= rq_YOff rq
    /\ add32 (rq_XOff rq) (rq_XSize rq) <= 10
    /\ add32 (rq_YOff rq) (rq_YSize rq) <= 10
    /\ (is_int (-5 + 20) -> rq_XOff rq + rq_XSize rq <= 10)
    /\ (is_int (-3 + 20) -> rq_YOff rq + rq_YSize rq <= 10).
Proof.
  intros band.
  apply (C10_clipped_window_inside (fun _ _ => CE_None) band
           (-5) (-3) 20 20 1000 20 20 GDT_Byte 1 20);
    unfold is_int, INT_MIN, INT_MAX; simpl; lia.
Defined.

(** A request whose offset plus size leaves the [int] range is not cut:
    one column at offset 2147483647 of a band of 10 by 10 passes the test
    for a window that needs no clipping, and goes to the band as it is,
    ending 2147483638 columns beyond the band. *)
Lemma C10_overflowing_window_is_not_clipped :
  let band := {| GetXSize := 10; GetYSize := 10 |} in
  let rq := {| rq_XOff := 2147483647; rq_YOff := 0;
               rq_XSize := 1; rq_YSize := 1; rq_pData := 1000;
               rq_BufXSize := 1; rq_BufYSize := 1; rq_BufType := GDT_Byte;
               rq_PixelSpace := 1; rq_LineSpace := 1 |} in
  is_int 2147483647 /\ is_int 1
  /\ ClippedRasterIO (fun _ _ => CE_None) band GF_Read 2147483647 0 1 1
       1000 1 1 GDT_Byte 1 1
     = (CE_None, [rq])
  /\ GetXSize band < rq_XOff rq + rq_XSize rq.
Proof. vm_compute. repeat split; discriminate. Qed.

End InsertFacts.

(** ** Memory and scanners *)

Module BandFacts.
Import Band.

Lemma wrap64_id (z : Z) : 0 <= z < 2 ^ 64 -> wrap64 z = z.
Proof. intros Hz. unfold wrap64. now apply Z.mod_small. Qed.

Lemma size_count_id (z : Z) :
  0 <= z < 2 ^ 64 -> size_count z = Z.to_nat z.
Proof. intros Hz. unfold size_count. now rewrite wrap64_id. Qed.

Lemma length_load (m : memory) (p : Z) (n : nat) : length (load m p n) = n.
Proof. unfold load. now rewrite length_map, length_seq. Qed.

Lemma nth_load (m : memory) (p : Z) (n i : nat) (d : byte) :
  (i < n)%nat -> nth i (load m p n) d = m (p + Z.of_nat i).
Proof.
  intros Hi. unfold load.
  rewrite (nth_indep _ d (m (p + Z.of_nat 0)))
    by (rewrite length_map, length_seq; exact Hi).
  rewrite (map_nth (fun i => m (p + Z.of_nat i))).
  now rewrite seq_nth.
Qed.

Lemma load_ext (m m' : memory) (p : Z) (n : nat) :
  (forall a, p <= a < p + Z.of_nat n -> m' a = m a) ->
  load m' p n = load m p n.
Proof.
  intros Hm. unfold load. apply map_ext_in. intros i Hi.
  apply in_seq in Hi. apply Hm. lia.
Qed.

Lemma store_inside (m : memory) (p : Z) (l : list byte) (a : Z) :
  p <= a < p + Z.of_nat (length l) ->
  store m p l a = nth (Z.to_nat (a - p)) l Byte.x00.
Proof.
  intros Ha. unfold store.
  destruct (Z.leb_spec p a); destruct (Z.ltb_spec a (p + Z.of_nat (length l)));
    simpl; try reflexivity; lia.
Qed.

Lemma store_outside (m : memory) (p : Z) (l : list byte) (a : Z) :
  a < p \/ p + Z.of_nat (length l) <= a -> store m p l a = m a.
Proof.
  intros Ha. unfold store.
  destruct (Z.leb_spec p a); destruct (Z.ltb_spec a (p + Z.of_nat (length l)));
    simpl; try reflexivity; lia.
Qed.

Lemma load_store_same (m : memory) (p : Z) (l : list byte) :
  load (store m p l) p (length l) = l.
Proof.
  apply (nth_ext _ _ Byte.x00 Byte.x00).
  - apply length_load.
  - rewrite length_load. intros i Hi. rewrite nth_load by exact Hi.
    rewrite store_inside by lia. f_equal. lia.
Qed.

Lemma load_store_disjoint (m : memory) (p q : Z) (l : list byte) (n : nat) :
  q + Z.of_nat n <= p \/ p + Z.of_nat (length l) <= q ->
  load (store m p l) q n = load m q n.
Proof.
  intros Hd. apply load_ext. intros a Ha. apply store_outside. lia.
Qed.

Lemma Byte_eqb_eq (a b : byte) : Byte.eqb a b = true <-> a = b.
Proof.
  split.
  - apply Byte.byte_dec_bl.
  - apply Byte.byte_dec_lb.
Qed.

(** [is_empty] answers [TRUE] exactly when every byte of the range is
    [val]. *)
Lemma is_empty_spec (m : memory) (b : Z) (count : nat) (val : byte) :
  is_empty m b count val = true
  <-> forall i : nat, (i < count)%nat -> m (b + Z.of_nat i) = val.
Proof.
  revert b. induction count as [| c IH]; intros b; simpl.
  - split; [intros _ i Hi; lia | reflexivity].
  - destruct (Byte.eqb (m b) val) eqn:E; simpl.
    + apply Byte_eqb_eq in E. rewrite IH. split.
      * intros Hall i Hi. destruct i as [| i].
        -- now rewrite Z.add_0_r.
        -- replace (b + Z.of_nat (S i)) with (b + 1 + Z.of_nat i) by lia.
           apply Hall. lia.
      * intros Hall i Hi.
        replace (b + 1 + Z.of_nat i) with (b + Z.of_nat (S i)) by lia.
        apply Hall. lia.
    + split; [discriminate |]. intros Hall.
      specialize (Hall 0%nat ltac:(lia)). rewrite Z.add_0_r in Hall.
      apply Byte_eqb_eq in Hall. congruence.
Qed.

Lemma is_zero_is_empty (m : memory) (b : Z) (count : nat) :
  is_zero m b count = is_empty m b count Byte.x00.
Proof.
  revert b. induction count as [| c IH]; intros b; simpl; [reflexivity |].
  now rewrite IH.
Qed.

Lemma is_zero_spec (m : memory) (b : Z) (count : nat) :
  is_zero m b count = true
  <-> forall i : nat, (i < count)%nat -> m (b + Z.of_nat i) = Byte.x00.
Proof. rewrite is_zero_is_empty. apply is_empty_spec. Qed.

(** ** Strided copies *)

Lemma cpy_stride_out_outside (sizeT : Z) (m : memory) (d s : Z) (c : nat)
    (stride : Z) (a : Z) :
  0 <= sizeT -> ~ in_stride sizeT d stride c a ->
  cpy_stride_out sizeT m d s c stride a = m a.
Proof.
  intros Hs. revert m d s. induction c as [| c IH]; intros m d s Hout; simpl.
  - reflexivity.
  - rewrite IH.
    + apply store_outside. rewrite length_load, Z2Nat.id by exact Hs.
      destruct (Z_lt_dec a d) as [| Hge]; [now left |].
      destruct (Z_le_dec (d + sizeT) a) as [| Hlt]; [now right |].
      exfalso. apply Hout. exists 0%nat. split; [lia |]. simpl. lia.
    + intros (k & Hk & Ha). apply Hout. exists (S k). split; [lia |].
      rewrite Nat2Z.inj_succ. lia.
Qed.

Lemma cpy_stride_out_inside (sizeT : Z) (m : memory) (d s : Z) (c : nat)
    (stride : Z) (k : nat) (j : Z) :
  0 < sizeT -> 1 <= stride ->
  (* the source is clear of every item written *)
  (forall k' : nat, (k' < c)%nat ->
     s + Z.of_nat c * sizeT <= d + Z.of_nat k' * stride * sizeT
     \/ d + Z.of_nat k' * stride * sizeT + sizeT <= s) ->
  (k < c)%nat -> 0 <= j < sizeT ->
  cpy_stride_out sizeT m d s c stride (d + Z.of_nat k * stride * sizeT + j)
  = m (s + Z.of_nat k * sizeT + j).
Proof.
  intros Hs Hst. revert m d s k.
  induction c as [| c IH]; intros m d s k Hclear Hk Hj; [lia |].
  simpl. destruct k as [| k].
  - rewrite cpy_stride_out_outside; [| lia |].
    + rewrite store_inside by (rewrite length_load; lia).
      rewrite nth_load by lia. f_equal; lia.
    + intros (k' & Hk' & Ha). nia.
  - replace (d + Z.of_nat (S k) * stride * sizeT + j)
      with (d + stride * sizeT + Z.of_nat k * stride * sizeT + j) by lia.
    rewrite IH; try lia.
    + rewrite store_outside.
      * f_equal. lia.
      * rewrite length_load, Z2Nat.id by lia.
        specialize (Hclear 0%nat ltac:(lia)). simpl in Hclear. nia.
    + intros k' Hk'. specialize (Hclear (S k') ltac:(lia)).
      rewrite Nat2Z.inj_succ in Hclear. nia.
Qed.

(** ** The emptiness bitmask *)

Lemma bandbit_pow (i : Z) : 0 <= i < 64 -> bandbit i = 2 ^ i.
Proof.
  intros Hi. unfold bandbit. rewrite Z.shiftl_1_l. apply wrap64_id.
  split; [apply Z.pow_nonneg; lia | apply Z.pow_lt_mono_r; lia].
Qed.

Lemma AllBandMask_ones (ds : GDALMRFDataset) :
  0 <= nBands ds < 64 -> AllBandMask ds = Z.ones (nBands ds).
Proof.
  intros Hn. unfold AllBandMask. rewrite bandbit_pow by exact Hn.
  rewrite Z.ones_equiv. unfold Z.pred.
  assert (0 < 2 ^ nBands ds < 2 ^ 64).
  { split; [apply Z.pow_pos_nonneg; lia | apply Z.pow_lt_mono_r; lia]. }
  replace (2 ^ nBands ds + -1) with (2 ^ nBands ds - 1) by lia.
  apply wrap64_id. lia.
Qed.

(** Case analysis on every integer comparison in the goal. *)
Ltac split_on cmp spec :=
  match goal with
  | |- context [cmp ?x ?y] => destruct (spec x y)
  end.

Ltac Zbool_cases :=
  repeat first [ split_on Z.eqb Z.eqb_spec
               | split_on Z.ltb Z.ltb_spec
               | split_on Z.leb Z.leb_spec ].

Lemma band_bits_testbit (f : Z -> bool) (n : nat) (i0 e j : Z) :
  0 <= i0 -> i0 + Z.of_nat n <= 64 -> 0 <= j ->
  Z.testbit (band_bits f i0 n e) j
  = Z.testbit e j || ((i0 <=? j) && (j <? i0 + Z.of_nat n) && f j).
Proof.
  revert i0 e. induction n as [| n IH]; intros i0 e H0 Hn Hj.
  - simpl band_bits. Zbool_cases; simpl; try lia;
      now rewrite orb_false_r.
  - simpl band_bits. rewrite IH by lia.
    assert (Hbit : Z.testbit (if f i0 then Z.lor e (bandbit i0) else e) j
                   = Z.testbit e j || ((i0 =? j) && f i0)).
    { destruct (f i0).
      - rewrite Z.lor_spec, bandbit_pow by lia.
        rewrite Z.pow2_bits_eqb by lia. now rewrite andb_true_r.
      - now rewrite andb_false_r, orb_false_r. }
    rewrite Hbit.
    Zbool_cases; simpl; try lia; subst;
      destruct (Z.testbit e j); destruct (f j); reflexivity.
Qed.

(** The mask reaches the all-bands mask exactly when every band is
    counted empty. *)
Lemma band_bits_all (f : Z -> bool) (ds : GDALMRFDataset) :
  0 <= nBands ds < 64 ->
  band_bits f 0 (Z.to_nat (nBands ds)) 0 = AllBandMask ds
  <-> forall j : Z, 0 <= j < nBands ds -> f j = true.
Proof.
  intros Hn. rewrite AllBandMask_ones by exact Hn. split.
  - intros E j Hj.
    assert (Hb : Z.testbit (band_bits f 0 (Z.to_nat (nBands ds)) 0) j = true).
    { rewrite E. apply Z.ones_spec_low. lia. }
    rewrite band_bits_testbit in Hb by lia.
    rewrite Z.testbit_0_l in Hb. simpl in Hb.
    apply andb_true_iff in Hb. tauto.
  - intros Hall. apply Z.bits_inj'. intros j Hj.
    rewrite band_bits_testbit by lia. rewrite Z.testbit_0_l. simpl.
    rewrite Z2Nat.id by lia.
    destruct (Z.ltb_spec j (nBands ds)) as [Hlt | Hge].
    + rewrite Z.ones_spec_low by lia. rewrite Hall by lia.
      Zbool_cases; simpl; try lia; reflexivity.
    + rewrite Z.ones_spec_high by lia.
      Zbool_cases; simpl; try lia; reflexivity.
Qed.

(** ** DeflateBlock *)

Section Deflate.
Context {H : Host}.

Ltac run :=
  unfold bind, ret, get_mem, set_mem, emit, CPLFree, CPLMalloc; simpl.

(** C2: with at least input size + 64 bytes of trailing free space
    [DeflateBlock] allocates nothing and packs into the space right after
    the input; with less it allocates one temporary buffer of input size
    + 64 bytes, packs there, and on success copies the packed bytes to the
    start of the input and returns that address. *)
Theorem C2_deflate_growth_policy (src : buf_mgr) (extrasize flags : Z)
    (w : world) :
  0 <= bsize src -> bsize src + 64 < 2 ^ 64 ->
  let input := load (mem w) (buffer src) (Z.to_nat (bsize src)) in
  let r := DeflateBlock src extrasize flags w in
  let ptr := fst (fst r) in
  let src' := snd (fst r) in
  let w' := snd r in
  (bsize src + 64 <= extrasize ->
     let out := snd (ZPack input extrasize flags) in
     allocations (trace w') = allocations (trace w)
     /\ In (ev_ZPack input (buffer src + bsize src) extrasize) (trace w')
     /\ (fst (ZPack input extrasize flags) = true ->
         ptr = buffer src + bsize src
         /\ bsize src' = Z.of_nat (length out)
         /\ load (mem w') ptr (length out) = out))
  /\ (extrasize < bsize src + 64 ->
     let tmp := hd NULL (heap_plan w) in
     let out := snd (ZPack input (bsize src + 64) flags) in
     allocations (trace w') = (bsize src + 64, tmp) :: allocations (trace w)
     /\ (tmp <> NULL ->
         In (ev_ZPack input tmp (bsize src + 64)) (trace w')
         /\ (fst (ZPack input (bsize src + 64) flags) = true ->
             ptr = buffer src
             /\ bsize src' = Z.of_nat (length out)
             /\ load (mem w') (buffer src) (length out) = out
             /\ In (ev_CPLFree tmp) (trace w')))).
Proof.
  intros H0 H64. cbv zeta.
  unfold DeflateBlock, ZPack_call.
  rewrite (wrap64_id (bsize src + 64)) by lia.
  rewrite (size_count_id (bsize src)) by lia.
  split.
  - intros Hfit.
    destruct (Z.ltb_spec extrasize (bsize src + 64)) as [Hlt | _]; [lia |].
    run.
    destruct (ZPack (load (mem w) (buffer src) (Z.to_nat (bsize src)))
                extrasize flags) as [ok out] eqn:E.
    run. destruct ok; run.
    + split; [reflexivity | split; [now left |]].
      intros _. split; [reflexivity | split; [reflexivity |]].
      apply load_store_same.
    + split; [reflexivity | split; [right; now left | discriminate]].
  - intros Hlt.
    destruct (Z.ltb_spec extrasize (bsize src + 64)) as [_ | Hge]; [| lia].
    run.
    destruct (Z.eqb_spec (hd NULL (heap_plan w)) NULL) as [En | Hn]; run.
    + split; [reflexivity |]. intros Hc. contradiction.
    + destruct (ZPack (load (mem w) (buffer src) (Z.to_nat (bsize src)))
                  (bsize src + 64) flags) as [ok out] eqn:E.
      run. destruct ok; run.
      * destruct (Z.eqb_spec (hd NULL (heap_plan w)) NULL) as [En | _];
          [contradiction |].
        run. split; [reflexivity |]. intros _.
        split; [right; now left |].
        intros _. split; [reflexivity | split; [reflexivity |]].
        split; [| now left].
        unfold memcpy. rewrite Nat2Z.id, load_store_same.
        apply load_store_same.
      * split; [reflexivity |]. intros _.
        split; [right; now left | discriminate].
Qed.

(** C9: when the temporary buffer cannot be allocated or the packer
    fails, [DeflateBlock] returns [NULL], the recorded input size is what
    it was, and so are the input bytes. *)
Theorem C9_deflate_failure_leaves_input (src : buf_mgr)
    (extrasize flags : Z) (w : world) :
  0 <= bsize src -> bsize src + 64 < 2 ^ 64 ->
  let input := load (mem w) (buffer src) (Z.to_nat (bsize src)) in
  let tmp := hd NULL (heap_plan w) in
  let cap :=
    if extrasize <? bsize src + 64 then bsize src + 64 else extrasize in
  let r := DeflateBlock src extrasize flags w in
  (* the packer keeps to the capacity it is given *)
  Z.of_nat (length (snd (ZPack input cap flags))) <= cap ->
  (* the temporary buffer does not overlap the input *)
  (tmp + (bsize src + 64) <= buffer src \/ buffer src + bsize src <= tmp) ->
  (* the call fails *)
  (extrasize < bsize src + 64 /\ tmp = NULL)
  \/ fst (ZPack input cap flags) = false ->
  fst (fst r) = NULL
  /\ snd (fst r) = src
  /\ load (mem (snd r)) (buffer src) (Z.to_nat (bsize src)) = input.
Proof.
  intros H0 H64. cbv zeta.
  unfold DeflateBlock, ZPack_call.
  rewrite (wrap64_id (bsize src + 64)) by lia.
  rewrite (size_count_id (bsize src)) by lia.
  destruct (Z.ltb_spec extrasize (bsize src + 64)) as [Hlt | Hge];
    intros Hcap Hfresh Hfail; run.
  - destruct (Z.eqb_spec (hd NULL (heap_plan w)) NULL) as [En | Hn]; run.
    + split; [reflexivity | split; reflexivity].
    + destruct Hfail as [[_ Hnull] | Hfail]; [contradiction |].
      destruct (ZPack (load (mem w) (buffer src) (Z.to_nat (bsize src)))
                  (bsize src + 64) flags) as [ok out] eqn:E.
      simpl in Hfail, Hcap. subst ok. run.
      split; [reflexivity | split; [reflexivity |]].
      apply load_store_disjoint. lia.
  - destruct Hfail as [[Hlt _] | Hfail]; [lia |].
    destruct (ZPack (load (mem w) (buffer src) (Z.to_nat (bsize src)))
                extrasize flags) as [ok out] eqn:E.
    simpl in Hfail. subst ok. run.
    split; [reflexivity | split; [reflexivity |]].
    apply load_store_disjoint. lia.
Qed.

End Deflate.

(** ** Sparse tiles on the write path *)

Section Blocks.
Context {H : Host}.

Ltac run :=
  unfold bind, ret, get_mem, set_mem, get_DS, set_DS, emit, CPLFree,
    CPLMalloc, CPLError; simpl.

Lemma filled_with_is_empty (m : memory) (p n : Z) (v : byte) :
  0 <= n -> filled_with m p n v -> is_empty m p (Z.to_nat n) v = true.
Proof.
  intros Hn Hf. apply is_empty_spec. intros i Hi. apply Hf. lia.
Qed.

Lemma WriteTile_empty (buff infooffset : Z) (w : world) :
  let r := WriteTile buff infooffset 0 w in
  trace (snd r) = ev_WriteTile buff infooffset 0 :: trace w
  /\ data_file (poDS (snd r)) = data_file (poDS w)
  /\ mem (snd r) = mem w
  /\ (io_ok (poDS w) = true ->
      fst r = CE_None
      /\ idx_file (poDS (snd r)) !! infooffset
         = Some {| offset := buff; isize := 0 |}).
Proof.
  unfold WriteTile. run. destruct (io_ok (poDS w)); run.
  - repeat split; try reflexivity. apply lookup_insert_eq.
  - repeat split; try reflexivity; discriminate.
Qed.

(** C3, as the code has it: a band-separate write records a zero-length
    index entry and stores no bytes when the tile is Byte data with a
    NoData list and every byte is the band's NoData value, and when the
    tile is of another type or has no NoData list and every byte is
    zero. *)
Theorem C3_band_separate_elision (b : GDALMRFRasterBand)
    (xblk yblk buf : Z) (w : world) :
  sz_c (pagesize (img b)) = 1 ->
  0 <= pageSizeBytes (img b) < 2 ^ 64 ->
  let ds := poDS w in
  let infooffset := IdxOffset (tile_req b xblk yblk) (img b) in
  (eDataType b = GDT_Byte /\ vNoData ds <> []
   /\ filled_with (mem w) buf (pageSizeBytes (img b)) (NoData_byte ds b))
  \/ ((eDataType b <> GDT_Byte \/ vNoData ds = [])
      /\ filled_with (mem w) buf (pageSizeBytes (img b)) Byte.x00) ->
  let r := IWriteBlock b xblk yblk buf w in
  r = WriteTile NULL infooffset 0 w
  /\ trace (snd r) = ev_WriteTile NULL infooffset 0 :: trace w
  /\ data_file (poDS (snd r)) = data_file ds
  /\ (io_ok ds = true ->
      fst r = CE_None
      /\ idx_file (poDS (snd r)) !! infooffset
         = Some {| offset := 0; isize := 0 |}).
Proof.
  intros Hc Hsz ds infooffset Hempty r.
  assert (Hr : r = WriteTile NULL infooffset 0 w).
  { subst r. unfold IWriteBlock. rewrite Hc. run.
    replace (block_empty (poDS w) b (mem w) buf (pageSizeBytes (img b)))
      with true; [reflexivity |].
    symmetry. unfold block_empty. rewrite size_count_id by exact Hsz.
    destruct Hempty as [(Ht & Hv & Hf) | (Hcase & Hf)].
    - rewrite Ht. simpl.
      destruct (vNoData (poDS w)) as [| v vs] eqn:Ev; [contradiction |].
      simpl. apply filled_with_is_empty; [lia |]. exact Hf.
    - assert (Hz : is_zero (mem w) buf (Z.to_nat (pageSizeBytes (img b)))
                   = true).
      { rewrite is_zero_is_empty. apply filled_with_is_empty; [lia | auto]. }
      destruct Hcase as [Ht | Hv].
      + destruct (eDataType b); simpl; try exact Hz. contradiction.
      + subst ds. rewrite Hv. simpl. rewrite andb_false_r. exact Hz. }
  split; [exact Hr |]. rewrite Hr.
  destruct (WriteTile_empty NULL infooffset w) as (Ht & Hd & _ & Hi).
  auto.
Qed.

(** ** FillBlock and the read of an empty tile *)

Lemma load_cons (m : memory) (p : Z) (n : nat) :
  load m p (S n) = m p :: load m (p + 1) n.
Proof.
  unfold load. simpl. rewrite Z.add_0_r. f_equal.
  rewrite <- seq_shift, map_map. apply map_ext. intros i. f_equal. lia.
Qed.

Lemma load_app (m : memory) (p : Z) (n1 n2 : nat) :
  load m p (n1 + n2) = load m p n1 ++ load m (p + Z.of_nat n1) n2.
Proof.
  revert p. induction n1 as [| k IH]; intros p.
  - simpl. now rewrite Z.add_0_r.
  - change (S k + n2)%nat with (S (k + n2)).
    rewrite !load_cons, IH. simpl. do 3 f_equal. lia.
Qed.

Lemma buff_fill_below (sizeT : Z) (m : memory) (b : Z) (c : nat)
    (v : list byte) (a : Z) :
  0 <= sizeT -> a < b -> buff_fill sizeT m b c v a = m a.
Proof.
  intros Hs. revert m b. induction c as [| c IH]; intros m b Ha; simpl.
  - reflexivity.
  - rewrite IH by lia. apply store_outside. lia.
Qed.

Lemma buff_fill_load (sizeT : Z) (m : memory) (b : Z) (c : nat)
    (v : list byte) :
  0 <= sizeT -> length v = Z.to_nat sizeT ->
  load (buff_fill sizeT m b c v) b (c * Z.to_nat sizeT)
  = concat (repeat v c).
Proof.
  intros Hs Hv. revert m b. induction c as [| c IH]; intros m b; simpl.
  - reflexivity.
  - rewrite load_app. f_equal.
    + rewrite <- Hv.
      transitivity (load (store m b v) b (length v));
        [| apply load_store_same].
      apply load_ext. intros a Ha. apply buff_fill_below; lia.
    + rewrite Z2Nat.id by exact Hs. apply IH.
Qed.

Lemma blockSizeBytes_exact (b : GDALMRFRasterBand) :
  block_geometry_ok b ->
  blockSizeBytes b
  = nBlockXSize b * nBlockYSize b
    * Z.quot (GDALGetDataTypeSize (eDataType b)) 8
  /\ 0 <= blockSizeBytes b <= INT_MAX.
Proof.
  intros (Hx & Hy & Hxy & Hall).
  assert (Hq : 0 <= Z.quot (GDALGetDataTypeSize (eDataType b)) 8)
    by (destruct (eDataType b); vm_compute; discriminate).
  unfold blockSizeBytes, mul32.
  rewrite (wrap32_id (nBlockXSize b * nBlockYSize b))
    by (unfold is_int, INT_MIN, INT_MAX in *; nia).
  rewrite wrap32_id by (unfold is_int, INT_MIN, INT_MAX in *; nia).
  split; [reflexivity | nia].
Qed.

Lemma typed_fill_load (b : GDALMRFRasterBand) (buf : Z) (m : memory)
    (s : Z) (v : list byte) :
  block_geometry_ok b ->
  Z.quot (GDALGetDataTypeSize (eDataType b)) 8 = s -> 0 < s ->
  length v = Z.to_nat s ->
  load (buff_fill s m buf (Z.to_nat (blockSizeBytes b / s)) v) buf
    (Z.to_nat (blockSizeBytes b))
  = concat (repeat v (Z.to_nat (nBlockXSize b * nBlockYSize b))).
Proof.
  intros Hg Es Hs Hv. destruct (blockSizeBytes_exact b Hg) as [Hbsb _].
  destruct Hg as (Hx & Hy & _ & _).
  rewrite Hbsb, Es. rewrite Z.div_mul by lia.
  rewrite (Z2Nat.inj_mul (nBlockXSize b * nBlockYSize b) s) by nia.
  apply buff_fill_load; [lia | exact Hv].
Qed.

(** What [FillBlock] leaves in the caller's buffer. *)
Lemma FillBlock_spec (b : GDALMRFRasterBand) (buf : Z) (w : world) :
  block_geometry_ok b ->
  let r := FillBlock b buf w in
  let n := Z.to_nat (blockSizeBytes b) in
  let ndv := NoDataValue (img b) in
  (hasNoData (img b) = false ->
     fst r = CE_None /\ load (mem (snd r)) buf n = repeat Byte.x00 n)
  /\ (hasNoData (img b) = true -> eDataType b = GDT_Byte ->
      fst r = CE_None
      /\ load (mem (snd r)) buf n = repeat (byte_of_Z (to_int ndv)) n)
  /\ (hasNoData (img b) = true -> has_typed_fill (eDataType b) = true ->
      length (to_sample ndv (eDataType b))
      = Z.to_nat (Z.quot (GDALGetDataTypeSize (eDataType b)) 8) ->
      fst r = CE_None
      /\ load (mem (snd r)) buf n
         = concat (repeat (to_sample ndv (eDataType b))
                     (Z.to_nat (nBlockXSize b * nBlockYSize b))))
  /\ (hasNoData (img b) = true -> eDataType b <> GDT_Byte ->
      has_typed_fill (eDataType b) = false ->
      r = (CE_Failure, w)).
Proof.
  intros Hg. destruct (blockSizeBytes_exact b Hg) as [Hbsb Hrange].
  assert (H64 : 0 <= blockSizeBytes b < 2 ^ 64)
    by (unfold INT_MAX in Hrange; lia).
  cbv zeta. unfold FillBlock. rewrite (wrap64_id _ H64).
  assert (Hset : forall c : Z,
             load (memset (mem w) buf c (blockSizeBytes b)) buf
               (Z.to_nat (blockSizeBytes b))
             = repeat (byte_of_Z c) (Z.to_nat (blockSizeBytes b))).
  { intros c. unfold memset.
    set (l := repeat (byte_of_Z c) (Z.to_nat (blockSizeBytes b))).
    replace (Z.to_nat (blockSizeBytes b)) with (length l)
      by apply repeat_length.
    apply load_store_same. }
  split; [| split; [| split]].
  - intros Hn. rewrite Hn. run. split; [reflexivity | apply (Hset 0)].
  - intros Hn Ht. rewrite Hn, Ht. run. split; [reflexivity | apply Hset].
  - intros Hn Ht Hlen. rewrite Hn.
    destruct (eDataType b) eqn:Et; try discriminate Ht; run;
      (split; [reflexivity |]);
      match goal with
      | |- context [buff_fill ?s _ _ _ _] =>
          apply (typed_fill_load b buf (mem w) s);
            [exact Hg | rewrite Et; reflexivity | lia | exact Hlen]
      end.
  - intros Hn Hb Ht. rewrite Hn.
    destruct (eDataType b); try discriminate Ht; try reflexivity.
    contradiction.
Qed.

(** C4, as the code has it: a read that finds a zero-length index entry
    and may not fetch (a nonzero offset, update access, no source, or a
    read-only index) is [FillBlock]: zeros when NoData is undeclared, the
    NoData byte for Byte data, the NoData sample for the six sample types
    with a typed fill, and a failure that writes nothing for any other
    type. *)
Theorem C4_empty_tile_reads_fill (b : GDALMRFRasterBand)
    (xblk yblk buf : Z) (w : world) (tinfo : ILIdx) :
  ReadTileIdx (poDS w) (tile_req b xblk yblk) (img b) = Some tinfo ->
  isize tinfo = 0 ->
  (offset tinfo <> 0 \/ eAccess (poDS w) = GA_Update
   \/ source_empty (poDS w) = true \/ IdxMode (poDS w) = GF_Read) ->
  block_geometry_ok b ->
  let r := IReadBlock b xblk yblk buf w in
  let n := Z.to_nat (blockSizeBytes b) in
  let ndv := NoDataValue (img b) in
  (hasNoData (img b) = false ->
     fst r = CE_None /\ load (mem (snd r)) buf n = repeat Byte.x00 n)
  /\ (hasNoData (img b) = true -> eDataType b = GDT_Byte ->
      fst r = CE_None
      /\ load (mem (snd r)) buf n = repeat (byte_of_Z (to_int ndv)) n)
  /\ (hasNoData (img b) = true -> has_typed_fill (eDataType b) = true ->
      length (to_sample ndv (eDataType b))
      = Z.to_nat (Z.quot (GDALGetDataTypeSize (eDataType b)) 8) ->
      fst r = CE_None
      /\ load (mem (snd r)) buf n
         = concat (repeat (to_sample ndv (eDataType b))
                     (Z.to_nat (nBlockXSize b * nBlockYSize b))))
  /\ (hasNoData (img b) = true -> eDataType b <> GDT_Byte ->
      has_typed_fill (eDataType b) = false ->
      r = (CE_Failure, w)).
Proof.
  intros Hidx Hz Hmode Hg r.
  assert (Hr : r = FillBlock b buf w).
  { subst r. unfold IReadBlock. run. rewrite Hidx, Hz. simpl.
    replace (negb (offset tinfo =? 0) || is_update (eAccess (poDS w))
             || source_empty (poDS w)
             || GDALRWFlag_eqb (IdxMode (poDS w)) GF_Read)
      with true; [reflexivity |].
    symmetry. destruct Hmode as [Ho | [Ha | [Hs | Hm]]].
    - destruct (Z.eqb_spec (offset tinfo) 0); [contradiction | reflexivity].
    - rewrite Ha. simpl. now rewrite orb_true_r.
    - rewrite Hs. now rewrite orb_true_r.
    - rewrite Hm. simpl. now rewrite orb_true_r. }
  rewrite Hr. exact (FillBlock_spec b buf w Hg).
Qed.

(** ** Reading a stored tile *)

Lemma RB_loop_trace (n : nat) (i : Z) (b : GDALMRFRasterBand)
    (xblk yblk buf : Z) (w : world) :
  trace (snd (RB_loop n i b xblk yblk buf w)) = trace w.
Proof.
  revert i w. induction n as [| n IH]; intros i w; simpl; [reflexivity |].
  run.
  destruct (Z.quot (GDALGetDataTypeSize (eDataType b)) 8) as [| q | q];
    try (run; now rewrite IH).
  do 4 (destruct q as [q | q |]; try (run; now rewrite IH)).
Qed.

Lemma RB_result (b : GDALMRFRasterBand) (xblk yblk : Z) (src : buf_mgr)
    (buf : Z) (w : world) :
  fst (RB b xblk yblk src buf w) = CE_None
  /\ trace (snd (RB b xblk yblk src buf w)) = trace w.
Proof.
  unfold RB. run.
  pose proof (RB_loop_trace (Z.to_nat (nBands (poDS w))) 0 b xblk yblk buf w)
    as Ht.
  destruct (RB_loop (Z.to_nat (nBands (poDS w))) 0 b xblk yblk buf w)
    as [u w1].
  simpl in *. auto.
Qed.

Lemma read_data_length (ds : GDALMRFDataset) (off n : Z) (page : list byte) :
  0 <= off -> 0 <= n -> read_data ds off n = Some page ->
  length page = Z.to_nat n.
Proof.
  intros Ho Hn. unfold read_data.
  destruct (Z.ltb_spec (Z.of_nat (length (data_file ds))) (off + n));
    [discriminate |].
  intros E. injection E as <-.
  rewrite length_firstn, length_skipn. lia.
Qed.

(** C6: when the stored bytes of a tile do not inflate, the read logs the
    warning, then runs the tile decoder on the stored bytes as they are,
    and reports the decoder's status. *)
Theorem C6_inflate_failure_falls_through (b : GDALMRFRasterBand)
    (xblk yblk buf : Z) (w : world) (tinfo : ILIdx) (page : list byte) :
  ReadTileIdx (poDS w) (tile_req b xblk yblk) (img b) = Some tinfo ->
  0 < isize tinfo < 2 ^ 64 -> 0 <= offset tinfo ->
  data_open (poDS w) = true ->
  read_data (poDS w) (offset tinfo) (isize tinfo) = Some page ->
  deflate b = true ->
  let data := hd NULL (heap_plan w) in
  let dbuf := hd NULL (tl (heap_plan w)) in
  let cap := wrap64 (add32 (pageSizeBytes (img b)) 1440) in
  (* inflation fails, having written no more than its capacity *)
  fst (ZUnPack page cap (deflate_flags b)) = false ->
  Z.of_nat (length (snd (ZUnPack page cap (deflate_flags b)))) <= cap ->
  (* the inflate buffer does not overlap the stored bytes *)
  (dbuf + cap <= data \/ data + isize tinfo <= dbuf) ->
  let r := IReadBlock b xblk yblk buf w in
  exists before after : list event,
    trace (snd r) = after ++ ev_Decompress page :: before
    /\ In (ev_CPLError CE_Warning "Can't inflate page!") before
    /\ fst r = fst (Decompress b page (pageSizeBytes (img b))).
Proof.
  intros Hidx Hsz Hoff Hopen Hread Hdefl data dbuf cap Hfail Hcap Hfresh r.
  assert (Hlen : length page = Z.to_nat (isize tinfo)).
  { apply (read_data_length (poDS w) (offset tinfo));
      [lia | lia | exact Hread]. }
  subst r. unfold IReadBlock. run. rewrite Hidx.
  destruct (Z.eqb_spec (isize tinfo) 0) as [E0 | _]; [lia |].
  run. rewrite Hopen. simpl. rewrite Hread. run. rewrite Hdefl.
  unfold ZUnPack_call. run.
  rewrite (size_count_id (isize tinfo)) by lia.
  fold data. 
  assert (Hin : load (store (mem w) data page) data (Z.to_nat (isize tinfo))
                = page).
  { rewrite <- Hlen. apply load_store_same. }
  rewrite Hin. fold dbuf cap.
  destruct (ZUnPack page cap (deflate_flags b)) as [ok out] eqn:EU.
  simpl in Hfail, Hcap. subst ok. run.
  unfold Decompress_call. run.
  rewrite (size_count_id (isize tinfo)) by lia.
  assert (Hin2 : load (store (store (mem w) data page) dbuf out) data
                   (Z.to_nat (isize tinfo)) = page).
  { rewrite load_store_disjoint by lia. exact Hin. }
  rewrite Hin2.
  destruct (Decompress b page (pageSizeBytes (img b))) as [err dec] eqn:ED.
  run.
  exists (ev_CPLFree dbuf
          :: ev_CPLError CE_Warning "Can't inflate page!"
          :: ev_ZUnPack page :: ev_CPLMalloc cap dbuf
          :: ev_CPLMalloc (isize tinfo) data :: trace w).
  destruct (needs_swab (img b)); unfold swab_call; run;
    destruct ((sz_c (pagesize (img b)) =? 1)
              || negb (CPLErr_eqb err CE_None)) eqn:Edone;
    run;
    try match goal with
        | |- context [RB b xblk yblk ?s buf ?w0] =>
            destruct (RB_result b xblk yblk s buf w0) as [Hr1 Hr2];
            rewrite Hr1, Hr2; simpl
        end;
    match goal with
    | |- exists after, ?a :: ?c :: ev_Decompress _ :: _ = _ /\ _ =>
        exists [a; c]
    | |- exists after, ?a :: ev_Decompress _ :: _ = _ /\ _ =>
        exists [a]
    end;
    (split; [reflexivity | split; [right; now left |]]);
    try reflexivity;
    apply orb_false_iff in Edone as [_ Ee];
    destruct err; try discriminate Ee; reflexivity.
Qed.

End Blocks.

(** ** Assembling an interleaved page *)

Lemma floor_unique (s x x' y : Z) :
  0 < s -> x * s <= y < x * s + s -> x' * s <= y < x' * s + s -> x = x'.
Proof.
  intros Hs H1 H2.
  destruct (Z.lt_trichotomy x x') as [L | [-> | G]]; [| lia |].
  - assert ((x + 1) * s <= x' * s) by (apply Z.mul_le_mono_nonneg_r; lia).
    lia.
  - assert ((x' + 1) * s <= x * s) by (apply Z.mul_le_mono_nonneg_r; lia).
    lia.
Qed.

Lemma residue_unique (c i i' k k' : Z) :
  0 <= i < c -> 0 <= i' < c -> i + k * c = i' + k' * c -> i = i'.
Proof.
  intros H1 H2 E.
  destruct (Z.lt_trichotomy k k') as [L | [-> | G]]; [| lia |].
  - assert ((k + 1) * c <= k' * c) by (apply Z.mul_le_mono_nonneg_r; lia).
    lia.
  - assert ((k' + 1) * c <= k * c) by (apply Z.mul_le_mono_nonneg_r; lia).
    lia.
Qed.

(** Items of different bands never share an address. *)
Lemma band_items_apart (s c t i i' a : Z) (cnt : nat) :
  0 < s -> 0 <= i < c -> 0 <= i' < c ->
  in_stride s (t + i * s) c cnt a -> in_stride s (t + i' * s) c cnt a ->
  i = i'.
Proof.
  intros Hs Hi Hi' (k & _ & Hk) (k' & _ & Hk').
  apply (residue_unique c i i' (Z.of_nat k) (Z.of_nat k')); try assumption.
  apply (floor_unique s _ _ (a - t)); [exact Hs | lia | lia].
Qed.

(** The items of a band lie inside the page. *)
Lemma band_items_in_page (s c t i n a : Z) :
  0 < s -> 0 <= i < c -> 0 <= n ->
  in_stride s (t + i * s) c (Z.to_nat n) a ->
  t <= a < t + n * c * s.
Proof.
  intros Hs Hi Hn (k & Hk & Ha).
  assert (Hk' : Z.of_nat k + 1 <= n) by lia.
  assert (H0k : 0 <= Z.of_nat k) by lia.
  assert (H1 : 0 <= i * s) by (apply Z.mul_nonneg_nonneg; lia).
  assert (H2 : 0 <= Z.of_nat k * c * s)
    by (repeat apply Z.mul_nonneg_nonneg; lia).
  split; [lia |].
  assert (H3 : (Z.of_nat k + 1) * c <= n * c)
    by (apply Z.mul_le_mono_nonneg_r; lia).
  assert ((i + Z.of_nat k * c + 1) * s <= n * c * s); [| lia].
  apply Z.mul_le_mono_nonneg_r; lia.
Qed.

Lemma block_empty_ext `{Host} (ds ds' : GDALMRFDataset)
    (b : GDALMRFRasterBand) (m m' : memory) (p count : Z) :
  vNoData ds' = vNoData ds ->
  (forall a, p <= a < p + Z.of_nat (size_count count) -> m' a = m a) ->
  block_empty ds' b m' p count = block_empty ds b m p count.
Proof.
  intros Hv Hm.
  assert (He : forall v, is_empty m' p (size_count count) v
                         = is_empty m p (size_count count) v).
  { intros v. apply eq_true_iff_eq. rewrite !is_empty_spec.
    split; intros Hall i Hi.
    - rewrite <- Hm by lia. now apply Hall.
    - rewrite Hm by lia. now apply Hall. }
  unfold block_empty, GetNoDataValue. rewrite Hv, !is_zero_is_empty, !He.
  reflexivity.
Qed.

Section Interleaved.
Context {H : Host}.
Variables (b : GDALMRFRasterBand) (xblk yblk buf t : Z) (w0 : world).
Hypothesis Hok : interleave_ok b xblk yblk buf t w0.

Ltac run :=
  unfold bind, ret, get_mem, set_mem, get_DS, set_DS, emit, CPLFree,
    CPLMalloc, CPLError; simpl.

Lemma interleave_count :
  int_count (wrap64 (blockSizeBytes b) / sample_size b)
  = Z.to_nat (block_samples b)
  /\ blockSizeBytes b = block_samples b * sample_size b
  /\ 0 < sample_size b /\ 0 <= block_samples b
  /\ 0 <= blockSizeBytes b < 2 ^ 64.
Proof using Hok.
  destruct Hok as (Hg & Hs & _).
  destruct (blockSizeBytes_exact b Hg) as [Hb Hr].
  fold (sample_size b) in Hb. fold (block_samples b) in Hb.
  assert (Hpos : 0 < sample_size b) by lia.
  destruct Hg as (Hx & Hy & Hxy & _).
  assert (Hn : 0 <= block_samples b <= INT_MAX).
  { unfold block_samples. split; [apply Z.mul_nonneg_nonneg; lia | lia]. }
  assert (H64 : 0 <= blockSizeBytes b < 2 ^ 64)
    by (unfold INT_MAX in Hr; lia).
  repeat split; try lia.
  unfold int_count. rewrite wrap64_id by exact H64.
  rewrite Hb, Z.div_mul by lia.
  rewrite Z.mod_small; [reflexivity |]. unfold INT_MAX in Hn. lia.
Qed.

(** One turn of the loop. *)
Lemma gather_bands_step (n' : nat) (i0 e0 : Z) (w1 : world) :
  gather_bands (S n') i0 b xblk yblk buf t e0 w1
  = match band_data b xblk yblk buf i0 with
    | None => gather_bands n' (i0 + 1) b xblk yblk buf t e0 w1
    | Some p =>
        gather_bands n' (i0 + 1) b xblk yblk buf t
          (if block_empty (poDS w1) b (mem w1) p (blockSizeBytes b)
           then Z.lor e0 (bandbit i0) else e0)
          {| mem := cpy_stride_out (sample_size b) (mem w1)
                      (t + i0 * sample_size b) p
                      (int_count (wrap64 (blockSizeBytes b) / sample_size b))
                      (sz_c (pagesize (img b)));
             heap_plan := heap_plan w1;
             trace := trace w1;
             poDS := with_bdirty (poDS w1)
                       (Z.lor (bdirty (poDS w1)) (bandbit i0)) |}
    end.
Proof using Hok.
  destruct Hok as (_ & Hs & _). unfold sample_size in *.
  unfold band_data. simpl gather_bands. run.
  destruct (if i0 =? m_band b then Some buf
            else TryGetLockedBlockRef i0 (m_l b) xblk yblk) as [p |];
    [| reflexivity].
  destruct Hs as [Es | [Es | [Es | Es]]]; rewrite Es; reflexivity.
Qed.

Lemma gather_bands_spec (n' : nat) :
  forall (i0 e0 : Z) (w1 : world),
    0 <= i0 -> i0 + Z.of_nat n' <= nBands (poDS w0) ->
    vNoData (poDS w1) = vNoData (poDS w0) ->
    (forall a, a < t
               \/ t + block_samples b * sz_c (pagesize (img b))
                      * sample_size b <= a ->
               mem w1 a = mem w0 a) ->
    exists w2 : world,
      gather_bands n' i0 b xblk yblk buf t e0 w1
      = (Some (band_bits (counted_empty b xblk yblk buf w0) i0 n' e0), w2)
      /\ trace w2 = trace w1 /\ heap_plan w2 = heap_plan w1
      /\ with_bdirty (poDS w2) 0 = with_bdirty (poDS w1) 0
      /\ (forall a, a < t
                    \/ t + block_samples b * sz_c (pagesize (img b))
                           * sample_size b <= a ->
                    mem w2 a = mem w0 a)
      /\ (forall a,
            (forall i, i0 <= i < i0 + Z.of_nat n' ->
               ~ in_stride (sample_size b) (t + i * sample_size b)
                   (sz_c (pagesize (img b)))
                   (Z.to_nat (block_samples b)) a) ->
            mem w2 a = mem w1 a)
      /\ (forall (i p : Z) (k : nat) (j : Z),
            i0 <= i < i0 + Z.of_nat n' ->
            band_data b xblk yblk buf i = Some p ->
            (k < Z.to_nat (block_samples b))%nat ->
            0 <= j < sample_size b ->
            mem w2 (t + i * sample_size b
                    + Z.of_nat k * sz_c (pagesize (img b)) * sample_size b
                    + j)
            = mem w0 (p + Z.of_nat k * sample_size b + j)).
Proof using Hok.
  destruct interleave_count as (Hcnt & Hbsb & Hs & Hn & H64).
  pose proof Hok as (_ & _ & Hbands & _ & _ & _ & Hapart).
  cbv zeta in Hapart. fold (sample_size b) (block_samples b) in Hapart.
  set (c := sz_c (pagesize (img b))) in *.
  set (s := sample_size b) in *.
  set (n := block_samples b) in *.
  induction n' as [| n' IH]; intros i0 e0 w1 Hi0 Hend Hds Hmem.
  - exists w1. simpl. repeat split; auto. intros i p k j Hi. lia.
  - rewrite gather_bands_step. fold s c. rewrite Hcnt. fold n.
    destruct (band_data b xblk yblk buf i0) as [p |] eqn:Ep.
    + (* the band is at hand *)
      assert (Hic : 0 <= i0 < c) by lia.
      assert (Hp := Hapart i0 p ltac:(lia) Ep).
      set (m1 := cpy_stride_out s (mem w1) (t + i0 * s) p (Z.to_nat n) c).
      assert (Hm1out : forall a, a < t \/ t + n * c * s <= a ->
                                 m1 a = mem w1 a).
      { intros a Ha. apply cpy_stride_out_outside; [lia |].
        intros Hin. apply band_items_in_page in Hin; lia. }
      assert (Hm1in : forall (k : nat) (j : Z),
                 (k < Z.to_nat n)%nat -> 0 <= j < s ->
                 m1 (t + i0 * s + Z.of_nat k * c * s + j)
                 = mem w0 (p + Z.of_nat k * s + j)).
      { intros k j Hk Hj. unfold m1.
        rewrite cpy_stride_out_inside; try lia.
        - apply Hmem.
          assert (0 <= Z.of_nat k * s) by (apply Z.mul_nonneg_nonneg; lia).
          assert ((Z.of_nat k + 1) * s <= n * s)
            by (apply Z.mul_le_mono_nonneg_r; lia).
          lia.
        - intros k' Hk'. rewrite Z2Nat.id by lia.
          assert (Hin : in_stride s (t + i0 * s) c (Z.to_nat n)
                          (t + i0 * s + Z.of_nat k' * c * s)).
          { exists k'. split; [exact Hk' | lia]. }
          apply band_items_in_page in Hin; try lia.
          assert (Hin' : in_stride s (t + i0 * s) c (Z.to_nat n)
                           (t + i0 * s + Z.of_nat k' * c * s + s - 1)).
          { exists k'. split; [exact Hk' | lia]. }
          apply band_items_in_page in Hin'; lia. }
      match goal with
      | |- context [gather_bands n' (i0 + 1) b xblk yblk buf t ?e ?w] =>
          destruct (IH (i0 + 1) e w) as (w2 & Hg & Ht & Hh & Hd & Ho & Hk & Hc)
      end; try lia.
      { simpl. exact Hds. }
      { simpl. intros a Ha. fold m1. rewrite Hm1out by exact Ha.
        now apply Hmem. }
      exists w2. simpl in *. fold m1 in Hk.
      assert (He : block_empty (poDS w1) b (mem w1) p (blockSizeBytes b)
                   = counted_empty b xblk yblk buf w0 i0).
      { unfold counted_empty. rewrite Ep.
        apply block_empty_ext; [exact Hds |].
        intros a Ha. apply Hmem.
        rewrite size_count_id in Ha by exact H64.
        rewrite Z2Nat.id in Ha by lia. lia. }
      rewrite <- He. repeat split; auto.
      * intros a Ha. rewrite Hk.
        -- apply cpy_stride_out_outside; [lia |]. apply Ha. lia.
        -- intros i Hi. apply Ha. lia.
      * intros i q k j Hi Eq Hkn Hj.
        destruct (Z.eq_dec i i0) as [-> | Hne].
        -- rewrite Ep in Eq. injection Eq as <-.
           rewrite Hk; [now apply Hm1in |].
           intros i Hi' Hin.
           assert (Hself : in_stride s (t + i0 * s) c (Z.to_nat n)
                             (t + i0 * s + Z.of_nat k * c * s + j)).
           { exists k. split; [exact Hkn | lia]. }
           assert (i = i0); [| lia].
           apply (band_items_apart s c t i i0
                    (t + i0 * s + Z.of_nat k * c * s + j) (Z.to_nat n));
             try lia; auto.
        -- apply Hc; auto. lia.
    + (* the block is not resident: the band is skipped *)
      destruct (IH (i0 + 1) e0 w1) as (w2 & Hg & Ht & Hh & Hd & Ho & Hk & Hc);
        try lia; auto.
      exists w2. simpl.
      assert (He : counted_empty b xblk yblk buf w0 i0 = false)
        by (unfold counted_empty; now rewrite Ep).
      rewrite He. repeat split; auto.
      * intros a Ha. apply Hk. intros i Hi. apply Ha. lia.
      * intros i q k j Hi Eq Hkn Hj.
        destruct (Z.eq_dec i i0) as [-> | Hne]; [congruence |].
        apply Hc; auto. lia.
Qed.

End Interleaved.

Lemma compress_count_app (t1 t2 : list event) :
  compress_count (t1 ++ t2) = (compress_count t1 + compress_count t2)%nat.
Proof.
  induction t1 as [| e t1 IH]; simpl; [reflexivity |].
  destruct e; simpl; rewrite IH; reflexivity.
Qed.

Lemma tile_writes_app (t1 t2 : list event) :
  tile_writes (t1 ++ t2) = tile_writes t1 ++ tile_writes t2.
Proof.
  induction t1 as [| e t1 IH]; simpl; [reflexivity |].
  destruct e; simpl; rewrite IH; reflexivity.
Qed.

Lemma app_self_nil {A : Type} (l1 l : list A) : l1 ++ l = l -> l1 = [].
Proof. intros E. apply (app_inv_tail l l1 []). exact E. Qed.

Section InterleavedWrite.
Context {H : Host}.

Ltac run :=
  unfold bind, ret, get_mem, set_mem, get_DS, set_DS, emit, CPLFree,
    CPLMalloc, CPLError; simpl.

Lemma block_empty_spec (ds : GDALMRFDataset) (b : GDALMRFRasterBand)
    (m : memory) (p count : Z) :
  0 <= count < 2 ^ 64 ->
  block_empty ds b m p count = true
  <-> filled_with m p count (empty_byte ds b).
Proof.
  intros Hc. unfold block_empty, empty_byte, NoData_byte, filled_with.
  rewrite size_count_id by exact Hc. rewrite is_zero_is_empty.
  destruct (GDALDataType_eqb (eDataType b) GDT_Byte
            && negb (length (vNoData ds) =? 0)%nat);
    rewrite is_empty_spec; split; intros Hall.
  - intros a Ha. replace a with (p + Z.of_nat (Z.to_nat (a - p))) by lia.
    apply Hall. lia.
  - intros i Hi. apply Hall. lia.
  - intros a Ha. replace a with (p + Z.of_nat (Z.to_nat (a - p))) by lia.
    apply Hall. lia.
  - intros i Hi. apply Hall. lia.
Qed.

Lemma WriteTile_trace (buff infooffset n : Z) (w : world) :
  trace (snd (WriteTile buff infooffset n w))
  = ev_WriteTile buff infooffset n :: trace w.
Proof.
  unfold WriteTile. run. destruct (io_ok (poDS w)); run; [| reflexivity].
  destruct (n =? 0); reflexivity.
Qed.

Lemma DeflateBlock_trace (src : buf_mgr) (extrasize flags : Z) (w : world) :
  exists evs : list event,
    trace (snd (DeflateBlock src extrasize flags w)) = evs ++ trace w
    /\ compress_count evs = 0%nat.
Proof.
  unfold DeflateBlock, ZPack_call.
  destruct (extrasize <? wrap64 (bsize src + 64)); run.
  - destruct (Z.eqb_spec (hd NULL (heap_plan w)) NULL) as [En | Hn]; run.
    + eexists [_]. split; reflexivity.
    + destruct (ZPack _ _ _) as [ok out]. run. destruct ok; run.
      * destruct (Z.eqb_spec (hd NULL (heap_plan w)) NULL) as [En | _];
          [contradiction |].
        run. eexists [_; _; _]. split; reflexivity.
      * eexists [_; _; _]. split; reflexivity.
  - destruct (ZPack _ _ _) as [ok out]. run. destruct ok; run.
    + eexists [_]. split; reflexivity.
    + eexists [_; _]. split; reflexivity.
Qed.

(** What a [WriteTile] that succeeds leaves in the two files. *)
Lemma WriteTile_stores (buff infooffset n : Z) (w : world) :
  io_ok (poDS w) = true -> 0 <= n < 2 ^ 64 ->
  let r := WriteTile buff infooffset n w in
  fst r = CE_None
  /\ data_file (poDS (snd r))
     = data_file (poDS w) ++ load (mem w) buff (Z.to_nat n)
  /\ (n <> 0 ->
      idx_file (poDS (snd r)) !! infooffset
      = Some {| offset := Z.of_nat (length (data_file (poDS w)));
                isize := n |}).
Proof.
  intros Hio Hn. cbv zeta. unfold WriteTile. run. rewrite Hio. simpl.
  destruct (Z.eqb_spec n 0) as [-> | Hnz]; run.
  - split; [reflexivity |]. split; [now rewrite app_nil_r | intros Hc; lia].
  - rewrite (size_count_id _ Hn).
    split; [reflexivity |]. split; [reflexivity |].
    intros _. apply lookup_insert_eq.
Qed.

(** A successful [DeflateBlock]: where the packed bytes are. *)
Lemma DeflateBlock_packs (src : buf_mgr) (extrasize flags : Z) (w : world)
    (packed : list byte) :
  0 <= bsize src -> bsize src + 64 < 2 ^ 64 ->
  let input := load (mem w) (buffer src) (Z.to_nat (bsize src)) in
  let need := bsize src + 64 in
  let cap := if extrasize <? need then need else extrasize in
  ZPack input cap flags = (true, packed) ->
  (extrasize < need -> hd NULL (heap_plan w) <> NULL) ->
  exists (ptr : Z) (w' : world),
    DeflateBlock src extrasize flags w
    = (ptr, {| buffer := buffer src; bsize := Z.of_nat (length packed) |}, w')
    /\ ptr = (if extrasize <? need then buffer src
              else buffer src + bsize src)
    /\ load (mem w') ptr (length packed) = packed
    /\ poDS w' = poDS w
    /\ heap_plan w' = (if extrasize <? need then tl (heap_plan w)
                       else heap_plan w)
    /\ tile_writes (trace w') = tile_writes (trace w).
Proof.
  intros H0 H64. cbv zeta. intros Hpack Htmp.
  unfold DeflateBlock, ZPack_call.
  rewrite (wrap64_id (bsize src + 64)) by lia.
  rewrite (size_count_id (bsize src)) by lia.
  destruct (Z.ltb_spec extrasize (bsize src + 64)) as [Hlt | Hge]; run.
  - destruct (Z.eqb_spec (hd NULL (heap_plan w)) NULL) as [En | Hn];
      [now apply Htmp in En |].
    run. rewrite Hpack. run.
    destruct (Z.eqb_spec (hd NULL (heap_plan w)) NULL) as [En | _];
      [contradiction |].
    run. do 2 eexists. split; [reflexivity |].
    split; [reflexivity |]. simpl.
    split; [| auto].
    unfold memcpy. rewrite Nat2Z.id, load_store_same.
    apply load_store_same.
  - rewrite Hpack. run. do 2 eexists. split; [reflexivity |].
    split; [reflexivity |]. simpl.
    split; [apply load_store_same | auto].
Qed.

(** C5: an interleaved write, once its scratch page is allocated, writes
    the zero-length entry and nothing else exactly when every band of the
    dataset is at hand and every byte of its block is the byte the band
    being written counts as empty (its own NoData value narrowed to a
    byte for Byte data with a NoData list, zero otherwise; the same byte
    for every band), which is when the emptiness mask reaches the
    all-bands mask.  Otherwise the tile codec runs once, on one page in
    which the samples of every band at hand are interleaved, and one tile
    is written for that page: the codec's output from behind the page
    when the deflate stage is off, and when it is on and the packer
    succeeds the packed codec output, from where [DeflateBlock] left it.
    With working I/O the data file grows by exactly those bytes and the
    tile's index entry points at them. *)
Theorem C5_interleaved_elision (b : GDALMRFRasterBand)
    (xblk yblk buf : Z) (w : world) :
  let c := sz_c (pagesize (img b)) in
  let ds := poDS w in
  let t := hd NULL (heap_plan w) in
  let infooffset := IdxOffset (tile_req b xblk yblk) (img b) in
  let P := pageSizeBytes (img b) in
  c <> 1 -> t <> NULL -> interleave_ok b xblk yblk buf t w ->
  let r := IWriteBlock b xblk yblk buf w in
  let all_empty :=
    forall i : Z, 0 <= i < nBands ds -> band_empty b xblk yblk buf w i in
  let elided :=
    trace (snd r)
    = ev_WriteTile NULL infooffset 0 :: ev_CPLFree t
      :: ev_CPLMalloc (wrap64 (P + pbsize ds)) t :: trace w in
  (all_empty <-> elided)
  /\ (all_empty -> data_file (poDS (snd r)) = data_file ds)
  /\ (~ all_empty ->
      exists (page : list byte) (pre after : list event),
        trace (snd r) = after ++ ev_Compress page :: pre ++ trace w
        /\ compress_count pre = 0%nat /\ compress_count after = 0%nat
        /\ length page = Z.to_nat P
        /\ (forall i p k j : Z,
              0 <= i < nBands ds ->
              band_data b xblk yblk buf i = Some p ->
              0 <= k < block_samples b -> 0 <= j < sample_size b ->
              nth (Z.to_nat ((i + k * c) * sample_size b + j)) page Byte.x00
              = mem w (p + k * sample_size b + j))
        /\ (deflate b = false ->
            after
            = [ev_CPLFree t;
               ev_WriteTile (t + P) infooffset
                 (Z.of_nat (length (snd (Compress b page (pbsize ds)))))])
        /\ (let out := snd (Compress b page (pbsize ds)) in
            let n := Z.of_nat (length out) in
            let extrasize := wrap64 (P + pbsize ds - n) in
            let cap := if extrasize <? n + 64 then n + 64 else extrasize in
            forall stored : list byte,
              (if deflate b
               then ZPack out cap (deflate_flags b) = (true, stored)
                    /\ 0 < t /\ n + 64 < 2 ^ 64
                    /\ (extrasize < n + 64 ->
                        hd NULL (tl (heap_plan w)) <> NULL)
               else stored = out) ->
              Z.of_nat (length stored) < 2 ^ 64 ->
              tile_writes (trace (snd r))
              = ((if deflate b
                  then if extrasize <? n + 64 then t else t + n
                  else t + P),
                 infooffset, Z.of_nat (length stored))
                :: tile_writes (trace w)
              /\ (io_ok ds = true ->
                  fst r = CE_None
                  /\ data_file (poDS (snd r)) = data_file ds ++ stored
                  /\ (stored <> [] ->
                      idx_file (poDS (snd r)) !! infooffset
                      = Some {| offset := Z.of_nat (length (data_file ds));
                                isize := Z.of_nat (length stored) |})))).
Proof.
  cbv zeta. intros Hc Ht Hok.
  pose proof Hok as (Hgeo & Hss & Hbands & H63 & HP & HP64 & Hapart).
  destruct (interleave_count b xblk yblk buf _ w Hok)
    as (Hcnt & Hbsb & Hs & Hn & H64).
  (* the test on the mask *)
  assert (Hmask : band_bits (counted_empty b xblk yblk buf w) 0
                    (Z.to_nat (nBands (poDS w))) 0 = AllBandMask (poDS w)
                  <-> (forall i : Z, 0 <= i < nBands (poDS w) ->
                         band_empty b xblk yblk buf w i)).
  { rewrite band_bits_all by lia.
    split; intros Hall i Hi; specialize (Hall i Hi).
    - unfold counted_empty in Hall. unfold band_empty.
      destruct (band_data b xblk yblk buf i) as [p |]; [| discriminate].
      exists p. split; [reflexivity |]. now apply block_empty_spec.
    - destruct Hall as (p & Ep & Hf). unfold counted_empty. rewrite Ep.
      now apply block_empty_spec. }
  unfold IWriteBlock. run.
  destruct (Z.eqb_spec (sz_c (pagesize (img b))) 1) as [E1 | _];
    [contradiction |].
  destruct (Z.eqb_spec (hd NULL (heap_plan w)) NULL) as [En | _];
    [contradiction |].
  (* the loop over the bands *)
  match goal with
  | |- context [gather_bands ?n ?i b xblk yblk buf ?t ?e ?wA] =>
      destruct (gather_bands_spec b xblk yblk buf t w Hok n i e wA)
        as (w2 & Hg & Htr & Hhp & Hds & Hout & _ & Hslots);
        [lia | lia | reflexivity | reflexivity | rewrite Hg; clear Hg]
  end.
  simpl in Htr, Hhp, Hds.
  destruct (Z.eqb_spec
              (band_bits (counted_empty b xblk yblk buf w) 0
                 (Z.to_nat (nBands (poDS w))) 0)
              (AllBandMask (poDS w))) as [Eall | Hnall].
  - (* every band is empty *)
    destruct Hmask as [Hm1 _]. pose proof (Hm1 Eall) as Hall.
    match goal with
    | |- context [WriteTile ?a ?o 0 ?w1] =>
        destruct (WriteTile_empty a o w1) as (Hwt & Hwd & _ & _)
    end.
    simpl in Hwt, Hwd.
    split; [split; [intros _; rewrite Hwt, Htr; reflexivity
                   | intros _; exact Hall] |].
    split; [| intros Hn'; contradiction].
    intros _. rewrite Hwd.
    pose proof (f_equal data_file Hds) as Hdf. exact Hdf.
  - (* some band is not *)
    assert (Hnot : ~ (forall i : Z, 0 <= i < nBands (poDS w) ->
                        band_empty b xblk yblk buf w i))
      by (intros Hall; apply Hnall; now apply Hmask).
    set (t := hd NULL (heap_plan w)) in *.
    set (P := pageSizeBytes (img b)) in *.
    set (page := load (mem w2) t (Z.to_nat P)).
    assert (HP0 : 0 <= P).
    { rewrite HP.
      apply Z.mul_nonneg_nonneg; [apply Z.mul_nonneg_nonneg |]; lia. }
    assert (Hpage : forall i p k j : Z,
               0 <= i < nBands (poDS w) ->
               band_data b xblk yblk buf i = Some p ->
               0 <= k < block_samples b -> 0 <= j < sample_size b ->
               nth (Z.to_nat ((i + k * sz_c (pagesize (img b)))
                              * sample_size b + j)) page Byte.x00
               = mem w (p + k * sample_size b + j)).
    { intros i p k j Hi Ep Hk Hj.
      assert (Hin : in_stride (sample_size b) (t + i * sample_size b)
                      (sz_c (pagesize (img b)))
                      (Z.to_nat (block_samples b))
                      (t + (i + k * sz_c (pagesize (img b)))
                           * sample_size b + j)).
      { exists (Z.to_nat k). split; [lia |]. rewrite Z2Nat.id by lia. lia. }
      apply band_items_in_page in Hin; try lia.
      assert (Hik : 0 <= (i + k * sz_c (pagesize (img b)))
                         * sample_size b + j) by lia.
      unfold page. rewrite nth_load by lia.
      rewrite Z2Nat.id by lia.
      specialize (Hslots i p (Z.to_nat k) j ltac:(lia) Ep ltac:(lia) Hj).
      rewrite Z2Nat.id in Hslots by lia.
      rewrite <- Hslots. f_equal. lia. }
    assert (Hlen : length page = Z.to_nat P) by apply length_load.
    pose proof (f_equal io_ok Hds) as Eio.
    pose proof (f_equal idx_file Hds) as Eidx.
    pose proof (f_equal data_file Hds) as Edat.
    simpl in Eio, Eidx, Edat.
    unfold Compress_call. run.
    rewrite (size_count_id P) by lia.
    destruct (negb (bdirty (poDS w2) =? AllBandMask (poDS w2))); run;
      fold page;
      destruct (Compress b page (pbsize (poDS w))) as [err out] eqn:Ecomp;
      run.
    all: destruct (deflate b) eqn:Ed.
    all: try match goal with
      | |- context [DeflateBlock ?s0 ?e0 ?f0 ?w3] =>
          destruct (DeflateBlock_trace s0 e0 f0 w3) as (evs & Hevs & Hcz);
          remember (DeflateBlock s0 e0 f0 w3) as dres eqn:Edres;
          destruct dres as [[usebuff dst'] w4];
          simpl in Hevs; simpl;
          destruct (Z.eqb_spec usebuff NULL) as [Enull | Hnn]; simpl
      end.
    all: try match goal with
      | |- context [WriteTile ?a0 ?o0 ?n0 ?w5] =>
          pose proof (WriteTile_trace a0 o0 n0 w5) as Hwt;
          pose proof (WriteTile_stores a0 o0 n0 w5) as Hst;
          destruct (WriteTile a0 o0 n0 w5) as [rw w6];
          simpl in Hwt; simpl; rewrite Hwt
      end.
    all: try rewrite Hevs.
    all: rewrite Htr.
    all: (split; [split; [intros Hall; contradiction
                        | intros Hel; discriminate Hel] |]).
    all: (split; [intros Hall; contradiction |]).
    all: intros _; exists page.
    all: match goal with
      | |- exists pre after,
             ?a1 :: ?a2 :: ?evs ++ ev_Compress _ :: ?p1 :: ?p2 :: trace _ = _
             /\ _ =>
          exists [p1; p2], (a1 :: a2 :: evs)
      | |- exists pre after,
             ?a1 :: ?a2 :: ?evs ++ ev_Compress _ :: ?p1 :: trace _ = _
             /\ _ =>
          exists [p1], (a1 :: a2 :: evs)
      | |- exists pre after,
             ?a1 :: ?a2 :: ev_Compress _ :: ?p1 :: ?p2 :: trace _ = _
             /\ _ =>
          exists [p1; p2], [a1; a2]
      | |- exists pre after,
             ?a1 :: ?a2 :: ev_Compress _ :: ?p1 :: trace _ = _ /\ _ =>
          exists [p1], [a1; a2]
      end.
    all: (split; [reflexivity |]).
    all: (split; [reflexivity |]).
    all: (split; [simpl; try exact Hcz; reflexivity |]).
    all: (split; [exact Hlen |]).
    all: (split; [exact Hpage |]).
    all: rewrite Ecomp; simpl snd.
    all: (split; [intros Hd; try discriminate Hd; reflexivity |]).
    (* what is stored *)
    all: intros stored Hstored Hslen.
    all: try match type of Edres with
      | _ = DeflateBlock ?s0 ?e0 ?f0 ?w3 =>
          destruct Hstored as (Hpack & Htpos & Hn64 & Htmp);
          destruct (DeflateBlock_packs s0 e0 f0 w3 stored)
            as (ptr & w' & Heq & Hptr & Hload & Hpds & _ & Htw);
          [ simpl; lia | simpl; lia
          | simpl; unfold memcpy; rewrite Nat2Z.id, !load_store_same;
            exact Hpack
          | simpl; rewrite Hhp; exact Htmp
          | rewrite Heq in Edres; injection Edres as -> -> ->;
            simpl in Hptr, Hpds, Htw ]
      end.
    all: try (exfalso; rewrite Hptr in Enull; unfold NULL in Enull;
              match type of Enull with
              | context [if ?c then _ else _] => destruct c
              end; lia).
    all: try (rewrite Hevs, tile_writes_app in Htw; simpl in Htw;
              apply app_self_nil in Htw;
              rewrite Hpds in Hst).
    all: try subst stored.
    all: simpl in Hst; simpl; rewrite ?tile_writes_app, ?Htw; simpl.
    all: rewrite ?Hptr.
    all: (split; [reflexivity |]).
    all: intros Hio; rewrite Eio in Hst.
    all: destruct (Hst Hio ltac:(lia)) as (Hrw & Hdat & Hidx).
    all: rewrite Nat2Z.id, ?load_store_same, ?Hload, Edat in Hdat.
    all: rewrite Edat in Hidx.
    all: (split; [exact Hrw |]).
    all: (split; [exact Hdat |]).
    all: intros Hne; apply Hidx.
    all: intros E0; apply Hne, length_zero_iff_nil; lia.
Qed.

End InterleavedWrite.

(** ** Byte order on the write path *)

Section Swab.
Context {H : Host}.

Ltac run :=
  unfold bind, ret, get_mem, set_mem, get_DS, set_DS, emit, CPLFree,
    CPLMalloc, CPLError; simpl.

Lemma swab_count_app (t1 t2 : list event) :
  swab_count (t1 ++ t2) = (swab_count t1 + swab_count t2)%nat.
Proof.
  induction t1 as [| e t1 IH]; simpl; [reflexivity |].
  destruct e; simpl; rewrite IH; reflexivity.
Qed.

Lemma DeflateBlock_no_swab (src : buf_mgr) (extrasize flags : Z) (w : world) :
  swab_count (trace (snd (DeflateBlock src extrasize flags w)))
  = swab_count (trace w).
Proof.
  unfold DeflateBlock, ZPack_call.
  destruct (extrasize <? wrap64 (bsize src + 64)); run.
  - destruct (Z.eqb_spec (hd NULL (heap_plan w)) NULL) as [En | Hn]; run.
    + reflexivity.
    + destruct (ZPack _ _ _) as [ok out]. run. destruct ok; run.
      * destruct (Z.eqb_spec (hd NULL (heap_plan w)) NULL) as [En | _];
          [contradiction |].
        reflexivity.
      * reflexivity.
  - destruct (ZPack _ _ _) as [ok out]. run. destruct ok; reflexivity.
Qed.

Lemma gather_bands_no_swab (n : nat) :
  forall (i e : Z) (b : GDALMRFRasterBand) (xblk yblk buf t : Z) (w : world),
    swab_count (trace (snd (gather_bands n i b xblk yblk buf t e w)))
    = swab_count (trace w).
Proof.
  induction n as [| n IH]; intros i e b xblk yblk buf t w; simpl;
    [reflexivity |].
  run.
  destruct (if i =? m_band b then Some buf
            else TryGetLockedBlockRef i (m_l b) xblk yblk) as [p |];
    [| apply IH].
  run.
  destruct (Z.quot (GDALGetDataTypeSize (eDataType b)) 8) as [| q | q];
    try reflexivity.
  do 4 (destruct q as [q | q |]; try reflexivity; try (run; now rewrite IH)).
Qed.

(** The interleaved write path never swaps the page it assembles. *)
Lemma interleaved_write_never_swabs (b : GDALMRFRasterBand)
    (xblk yblk buf : Z) (w : world) :
  sz_c (pagesize (img b)) <> 1 ->
  swab_count (trace (snd (IWriteBlock b xblk yblk buf w)))
  = swab_count (trace w).
Proof.
  intros Hc. unfold IWriteBlock. run.
  destruct (Z.eqb_spec (sz_c (pagesize (img b))) 1) as [E1 | _];
    [contradiction |].
  destruct (Z.eqb_spec (hd NULL (heap_plan w)) NULL) as [En | _];
    [reflexivity |].
  match goal with
  | |- context [gather_bands ?n ?i b xblk yblk buf ?t ?e ?wA] =>
      pose proof (gather_bands_no_swab n i e b xblk yblk buf t wA) as Hg;
      destruct (gather_bands n i b xblk yblk buf t e wA) as [[emp |] w2]
  end; simpl in Hg; [| exact Hg].
  destruct (emp =? AllBandMask (poDS w)).
  - run. rewrite WriteTile_trace. simpl. exact Hg.
  - unfold Compress_call.
    destruct (negb (bdirty (poDS w2) =? AllBandMask (poDS w2))); run;
      destruct (Compress _ _ _) as [err out]; run;
      destruct (deflate b);
      try match goal with
        | |- context [DeflateBlock ?s0 ?e0 ?f0 ?w3] =>
            pose proof (DeflateBlock_no_swab s0 e0 f0 w3) as Hd;
            destruct (DeflateBlock s0 e0 f0 w3) as [[usebuff dst'] w4];
            simpl in Hd; simpl;
            destruct (usebuff =? NULL); simpl
        end;
      try match goal with
        | |- context [WriteTile ?a0 ?o0 ?n0 ?w5] =>
            pose proof (WriteTile_trace a0 o0 n0 w5) as Hwt;
            destruct (WriteTile a0 o0 n0 w5) as [rw w6];
            simpl in Hwt; simpl; rewrite Hwt; simpl
        end;
      try rewrite Hd; exact Hg.
Qed.

(** The band-separate write path swaps the tile before the codec sees
    it. *)
Lemma band_separate_write_swabs_first (b : GDALMRFRasterBand)
    (xblk yblk buf : Z) (w : world) :
  sz_c (pagesize (img b)) = 1 ->
  0 <= pageSizeBytes (img b) < 2 ^ 64 ->
  needs_swab (img b) = true ->
  block_empty (poDS w) b (mem w) buf (pageSizeBytes (img b)) = false ->
  let src := {| buffer := buf; bsize := pageSizeBytes (img b) |} in
  exists after : list event,
    trace (snd (IWriteBlock b xblk yblk buf w))
    = after
      ++ ev_Compress (load (swab_buff (mem w) src (img b)) buf
                        (Z.to_nat (pageSizeBytes (img b))))
      :: ev_swab buf (pageSizeBytes (img b)) :: trace w.
Proof.
  intros Hc Hsz Hsw He. cbv zeta. unfold IWriteBlock. run.
  rewrite Hc, He, Hsw. simpl. unfold swab_call, Compress_call. run.
  rewrite size_count_id by exact Hsz.
  destruct (Compress _ _ _) as [err out]. run.
  destruct (deflate b).
  - match goal with
    | |- context [DeflateBlock ?s0 ?e0 ?f0 ?w3] =>
        destruct (DeflateBlock_trace s0 e0 f0 w3) as (evs & Hevs & _);
        destruct (DeflateBlock s0 e0 f0 w3) as [[usebuff dst'] w4]
    end.
    simpl in Hevs. simpl. destruct (usebuff =? NULL); run.
    + rewrite Hevs. eexists (_ :: evs). reflexivity.
    + rewrite WriteTile_trace, Hevs. eexists (_ :: evs). reflexivity.
  - rewrite WriteTile_trace. simpl. eexists [_]. reflexivity.
Qed.

End Swab.

(** ** The theorems at concrete tiles *)

#[local] Existing Instance raw_host.

Lemma C2_deflate_growth_policy_witness :
  fst (fst (DeflateBlock four_bytes 100 0
              (four_bytes_world [])))
  = 1004.
Proof.
  destruct (C2_deflate_growth_policy four_bytes 100 0
              (four_bytes_world [])
              ltac:(simpl; lia) ltac:(simpl; lia)) as [Hfit _].
  destruct (Hfit ltac:(simpl; lia)) as (_ & _ & Hok).
  destruct (Hok eq_refl) as (Hptr & _).
  exact Hptr.
Defined.

Lemma C9_deflate_failure_leaves_input_witness :
  let r := DeflateBlock four_bytes 0 0 (four_bytes_world [])
  in
  fst (fst r) = NULL
  /\ snd (fst r) = four_bytes
  /\ load (mem (snd r)) 1000 4 = [Byte.x01; Byte.x02; Byte.x03; Byte.x04].
Proof.
  pose proof (C9_deflate_failure_leaves_input four_bytes 0 0
                (four_bytes_world []) ltac:(simpl; lia) ltac:(simpl; lia))
    as Hthm.
  cbv zeta in Hthm. apply Hthm.
  - vm_compute. discriminate.
  - unfold NULL. simpl. lia.
  - left. simpl. split; [lia | reflexivity].
Defined.

Lemma C3_band_separate_elision_witness :
  let r := IWriteBlock byte_band 0 0 1000 nodata_tile_world
  in
  data_file (poDS (snd r)) = []
  /\ idx_file (poDS (snd r)) !! 0 = Some {| offset := 0; isize := 0 |}.
Proof.
  destruct (C3_band_separate_elision byte_band 0 0 1000
              nodata_tile_world) as (_ & _ & Hdata & Hidx).
  - reflexivity.
  - vm_compute. split; [discriminate | reflexivity].
  - left. split; [reflexivity | split; [discriminate |]].
    intros a Ha. change (1000 <= a < 1000 + 2) in Ha.
    assert (Ea : a = 1000 \/ a = 1001) by lia.
    destruct Ea as [-> | ->]; reflexivity.
  - destruct (Hidx eq_refl) as [_ Hentry]. split; [exact Hdata | exact Hentry].
Defined.

(** One Int16 sample equal to the NoData value 1: the tile is stored. *)
Lemma C3_int16_nodata_tile_is_stored :
  let b := band_of GDT_Int16 0 1 1 1 false false (Some double_one) in
  let w := world_with 1000 (to_sample double_one GDT_Int16) []
             (fresh_DS 1 [double_one]) in
  let r := IWriteBlock b 0 0 1000 w in
  load (mem w) 1000 2 = to_sample (fst (GetNoDataValue (poDS w) b)) GDT_Int16
  /\ sz_c (pagesize (img b)) = 1
  /\ fst r = CE_None
  /\ data_file (poDS (snd r)) = [Byte.x01; Byte.x00]
  /\ idx_file (poDS (snd r)) !! IdxOffset (tile_req b 0 0) (img b)
     = Some {| offset := 0; isize := 2 |}.
Proof. vm_compute. repeat split. Qed.

Lemma C4_empty_tile_reads_fill_witness :
  let r := IReadBlock int16_band 0 0 1000
             (stale_buffer_world (one_entry_DS [double_one] empty_entry []))
  in
  fst r = CE_None
  /\ load (mem (snd r)) 1000 4 = [Byte.x01; Byte.x00; Byte.x01; Byte.x00].
Proof.
  destruct (C4_empty_tile_reads_fill int16_band 0 0 1000
              (stale_buffer_world (one_entry_DS [double_one] empty_entry []))
              empty_entry) as (_ & _ & Htyped & _).
  - reflexivity.
  - reflexivity.
  - right. left. reflexivity.
  - vm_compute. repeat split; discriminate.
  - exact (Htyped eq_refl eq_refl eq_refl).
Defined.

(** A complex sample type has no typed fill: the read of an empty tile
    fails and the caller's buffer keeps what it held. *)
Lemma C4_complex_type_is_not_filled :
  let b := band_of GDT_CInt16 0 1 1 1 false false (Some double_one) in
  let w := stale_buffer_world (one_entry_DS [double_one] empty_entry []) in
  let r := IReadBlock b 0 0 1000 w in
  ReadTileIdx (poDS w) (tile_req b 0 0) (img b) = Some empty_entry
  /\ eAccess (poDS w) = GA_Update
  /\ hasNoData (img b) = true
  /\ fst r = CE_Failure
  /\ load (mem (snd r)) 1000 4 = [Byte.xff; Byte.xff; Byte.xff; Byte.xff]
  /\ load (mem (snd r)) 1000 4 <> to_sample (NoDataValue (img b)) GDT_CInt16.
Proof. vm_compute. repeat split. discriminate. Qed.

Lemma pair_interleave_ok (sample0 : byte) :
  interleave_ok pair_band 0 0 1000 5000 (pair_world sample0).
Proof.
  unfold interleave_ok. cbv zeta.
  split; [vm_compute; repeat split; discriminate |].
  split; [left; reflexivity |].
  split; [vm_compute; split; discriminate |].
  split; [reflexivity |].
  split; [reflexivity |].
  split; [reflexivity |].
  intros i p Hi Hp. change (0 <= i < 2) in Hi.
  assert (Ei : i = 0 \/ i = 1) by lia.
  destruct Ei as [-> | ->]; vm_compute in Hp; injection Hp as <-;
    left; vm_compute; discriminate.
Qed.

Lemma C5_interleaved_elision_witness :
  trace (snd (IWriteBlock pair_band 0 0 1000 (pair_world Byte.x00)))
  = [ev_WriteTile NULL 0 0; ev_CPLFree 5000; ev_CPLMalloc 258 5000].
Proof.
  destruct (C5_interleaved_elision pair_band 0 0 1000 (pair_world Byte.x00))
    as ([Helide _] & _).
  - discriminate.
  - discriminate.
  - apply pair_interleave_ok.
  - apply Helide. intros i Hi. change (0 <= i < 2) in Hi.
    assert (Ei : i = 0 \/ i = 1) by lia.
    destruct Ei as [-> | ->].
    + exists 1000. split; [reflexivity |].
      intros a Ha. change (1000 <= a < 1000 + 1) in Ha.
      assert (a = 1000) as -> by lia. reflexivity.
    + exists 3100. split; [reflexivity |].
      intros a Ha. change (3100 <= a < 3100 + 1) in Ha.
      assert (a = 3100) as -> by lia. reflexivity.
Defined.

(** Samples of sixteen bytes: both bands are at hand and all zero, and the
    write is abandoned without an index entry. *)
Lemma C5_wide_samples_write_nothing :
  let b := band_of GDT_CFloat64 0 2 1 1 false false None in
  let w := world_with 1000 (repeat Byte.x00 16) [5000] (fresh_DS 2 []) in
  let r := IWriteBlock b 0 0 1000 w in
  sz_c (pagesize (img b)) = 2
  /\ counted_empty b 0 0 1000 w 0 = true
  /\ counted_empty b 0 0 1000 w 1 = true
  /\ fst r = CE_Failure
  /\ trace (snd r)
     = [ev_CPLError CE_Failure
          "MRF: Write datatype of %d bytes not implemented";
        ev_CPLMalloc 288 5000]
  /\ idx_file (poDS (snd r)) = idx_file (poDS w).
Proof. vm_compute. repeat split. Qed.

(** Whether a band is empty is judged by the NoData value of the band
    being written.  Two Byte bands with NoData values 1 and 0, band 0
    written: a page whose bands each hold their own NoData value is
    stored, and a page in which band 1 holds the value 1, which is data
    for it, is elided. *)
Lemma interleaved_emptiness_is_by_the_written_band :
  let ds := fresh_DS 2 [double_one; double_zero] in
  let own := world_with 1000 [Byte.x01] [5000] ds in
  let other := {| mem := store (mem own) 3100 [Byte.x01];
                  heap_plan := [5000]; trace := []; poDS := ds |} in
  data_file (poDS (snd (IWriteBlock pair_band 0 0 1000 own)))
  = [Byte.x01; Byte.x00]
  /\ tile_writes (trace (snd (IWriteBlock pair_band 0 0 1000 other)))
     = [(NULL, 0, 0)]
  /\ data_file (poDS (snd (IWriteBlock pair_band 0 0 1000 other))) = [].
Proof. vm_compute. repeat split. Qed.

(** With the deflate stage on, the tile written is the packed codec
    output, from behind the codec output that was moved to the start of
    the scratch page. *)
Lemma interleaved_deflated_write_stores_packed :
  let b := band_of GDT_Byte 0 2 1 1 false true None in
  let w := world_with 1000 [Byte.x07] [5000; 6000] (fresh_DS 2 []) in
  let r := IWriteBlock b 0 0 1000 w in
  fst r = CE_None
  /\ tile_writes (trace (snd r)) = [(5002, 0, 3)]
  /\ data_file (poDS (snd r)) = [Byte.x78; Byte.x07; Byte.x00].
Proof. vm_compute. repeat split. Qed.

Lemma C6_inflate_failure_falls_through_witness :
  let r := IReadBlock deflate_band 0 0 1000
             (world_with 1000 [] [5000; 6000] plain_tile_DS) in
  exists before after : list event,
    trace (snd r) = after ++ ev_Decompress [Byte.x01; Byte.x02] :: before
    /\ In (ev_CPLError CE_Warning "Can't inflate page!") before
    /\ fst r = CE_None.
Proof.
  exact (C6_inflate_failure_falls_through deflate_band 0 0 1000
           (world_with 1000 [] [5000; 6000] plain_tile_DS)
           {| offset := 0; isize := 2 |} [Byte.x01; Byte.x02]
           eq_refl
           ltac:(vm_compute; split; reflexivity)
           ltac:(vm_compute; discriminate)
           eq_refl eq_refl eq_refl eq_refl
           ltac:(vm_compute; discriminate)
           ltac:(right; vm_compute; discriminate)).
Defined.

(** C7, on the interleaved path: two Int16 bands to a page, in a store
    whose byte order differs from network order.  The page goes to the
    codec as assembled, low byte first, and is stored that way; no swap
    is made. *)
Theorem C7_interleaved_write_is_not_swapped :
  let b := band_of GDT_Int16 0 2 1 1 true false None in
  let w := world_with 1000 [Byte.x01; Byte.x02] [5000] (fresh_DS 2 []) in
  let r := IWriteBlock b 0 0 1000 w in
  needs_swab (img b) = true
  /\ fst r = CE_None
  /\ trace (snd r)
     = [ev_CPLFree 5000; ev_WriteTile 5004 0 4;
        ev_Compress [Byte.x01; Byte.x02; Byte.x00; Byte.x00];
        ev_CPLMalloc 260 5000]
  /\ data_file (poDS (snd r)) = [Byte.x01; Byte.x02; Byte.x00; Byte.x00].
Proof. vm_compute. repeat split. Qed.

(** The same samples written band-separate are swapped first. *)
Lemma band_separate_write_is_swapped :
  let b := band_of GDT_Int16 0 1 1 1 true false None in
  let w := world_with 1000 [Byte.x01; Byte.x02] [] (fresh_DS 1 []) in
  let r := IWriteBlock b 0 0 1000 w in
  trace (snd r)
  = [ev_WriteTile 2000 0 2; ev_Compress [Byte.x02; Byte.x01];
     ev_swab 1000 2]
  /\ data_file (poDS (snd r)) = [Byte.x02; Byte.x01].
Proof. vm_compute. repeat split. Qed.

End BandFacts.

(** * Further properties of mrf_insert.cpp *)

Module InsertLaws.
Import Insert InsertFacts.

Lemma add32_exact (a b : Z) : is_int (a + b) -> add32 a b = a + b.
Proof. intros Hs. unfold add32. now apply wrap32_id. Qed.

Lemma sub32_exact (a b : Z) : is_int (a - b) -> sub32 a b = a - b.
Proof. intros Hs. unfold sub32. now apply wrap32_id. Qed.

(** ** The window of [ClippedRasterIO] *)

(** When the requested offset+size is an [int] in both directions, the
    one request of a read is [clipped_request]. *)
Lemma ClippedRasterIO_request
    (RasterIO : GDALRasterBand -> RasterIO_request -> CPLErr)
    (band : GDALRasterBand) (nXOff nYOff nXSize nYSize : Z)
    (pData nBufXSize nBufYSize : Z) (eBufType : GDALDataType)
    (nPixelSpace nLineSpace : Z) :
  is_int nXOff -> is_int nYOff -> is_int nXSize -> is_int nYSize ->
  is_int (nXOff + nXSize) -> is_int (nYOff + nYSize) ->
  0 <= GetXSize band <= INT_MAX -> 0 <= GetYSize band <= INT_MAX ->
  let rq := clipped_request band nXOff nYOff nXSize nYSize pData
              nBufXSize nBufYSize eBufType nPixelSpace nLineSpace in
  ClippedRasterIO RasterIO band GF_Read nXOff nYOff nXSize nYSize pData
    nBufXSize nBufYSize eBufType nPixelSpace nLineSpace
  = (RasterIO band rq, [rq]).
Proof.
  intros HxO HyO HxS HyS HxE HyE HX HY rq. subst rq.
  assert (Ex : add32 nXSize nXOff = nXOff + nXSize)
    by (rewrite <- (add32_exact nXOff nXSize HxE); unfold add32; f_equal; lia).
  assert (Ey : add32 nYSize nYOff = nYOff + nYSize)
    by (rewrite <- (add32_exact nYOff nYSize HyE); unfold add32; f_equal; lia).
  assert (Zx : add32 0 (nXOff + nXSize) = nXOff + nXSize)
    by (unfold add32; simpl; apply wrap32_id; exact HxE).
  assert (Zy : add32 0 (nYOff + nYSize) = nYOff + nYSize)
    by (unfold add32; simpl; apply wrap32_id; exact HyE).
  assert (Sx0 : sub32 (GetXSize band) 0 = GetXSize band)
    by (rewrite sub32_exact; [lia | unfold is_int, INT_MIN, INT_MAX in *; lia]).
  assert (Sy0 : sub32 (GetYSize band) 0 = GetYSize band)
    by (rewrite sub32_exact; [lia | unfold is_int, INT_MIN, INT_MAX in *; lia]).
  assert (Sx : 0 <= nXOff ->
               sub32 (GetXSize band) nXOff = GetXSize band - nXOff)
    by (intros; apply sub32_exact; unfold is_int, INT_MIN, INT_MAX in *; lia).
  assert (Sy : 0 <= nYOff ->
               sub32 (GetYSize band) nYOff = GetYSize band - nYOff)
    by (intros; apply sub32_exact; unfold is_int, INT_MIN, INT_MAX in *; lia).
  unfold clipped_request, ClippedRasterIO.
  repeat (simpl;
          first [ rewrite (add32_exact nXOff nXSize HxE)
                | rewrite (add32_exact nYOff nYSize HyE)
                | rewrite Ex | rewrite Ey | rewrite Zx | rewrite Zy
                | rewrite Sx0 | rewrite Sy0
                | rewrite Sx by lia | rewrite Sy by lia
                | BandFacts.split_on Z.ltb Z.ltb_spec
                | BandFacts.split_on Z.leb Z.leb_spec ]);
    try lia;
    (f_equal; [f_equal | f_equal]; f_equal; lia).
Qed.

(** X1: for a read whose offset+size is an [int] in both directions, the
    window handed to the band starts at max(0, offset) and ends at
    min(extent, offset+size): it is the requested window cut to the
    band, also when that leaves nothing. *)
Theorem clipped_window_is_intersection
    (RasterIO : GDALRasterBand -> RasterIO_request -> CPLErr)
    (band : GDALRasterBand) (nXOff nYOff nXSize nYSize : Z)
    (pData nBufXSize nBufYSize : Z) (eBufType : GDALDataType)
    (nPixelSpace nLineSpace : Z) :
  is_int nXOff -> is_int nYOff -> is_int nXSize -> is_int nYSize ->
  is_int (nXOff + nXSize) -> is_int (nYOff + nYSize) ->
  0 <= GetXSize band <= INT_MAX -> 0 <= GetYSize band <= INT_MAX ->
  exists rq : RasterIO_request,
    ClippedRasterIO RasterIO band GF_Read nXOff nYOff nXSize nYSize pData
      nBufXSize nBufYSize eBufType nPixelSpace nLineSpace
    = (RasterIO band rq, [rq])
    /\ rq_XOff rq = Z.max 0 nXOff
    /\ rq_XOff rq + rq_XSize rq = Z.min (GetXSize band) (nXOff + nXSize)
    /\ rq_YOff rq = Z.max 0 nYOff
    /\ rq_YOff rq + rq_YSize rq = Z.min (GetYSize band) (nYOff + nYSize).
Proof.
  intros HxO HyO HxS HyS HxE HyE HX HY.
  eexists. split.
  - apply ClippedRasterIO_request; assumption.
  - simpl. lia.
Qed.

Lemma clipped_window_is_intersection_witness :
  exists rq : RasterIO_request,
    ClippedRasterIO (fun _ _ => CE_None) {| GetXSize := 10; GetYSize := 10 |}
      GF_Read (-5) 4 20 20 1000 20 20 GDT_Byte 1 20
    = (CE_None, [rq])
    /\ rq_XOff rq = Z.max 0 (-5)
    /\ rq_XOff rq + rq_XSize rq = Z.min 10 (-5 + 20)
    /\ rq_YOff rq = Z.max 0 4
    /\ rq_YOff rq + rq_YSize rq = Z.min 10 (4 + 20).
Proof.
  apply (clipped_window_is_intersection (fun _ _ => CE_None)
           {| GetXSize := 10; GetYSize := 10 |}
           (-5) 4 20 20 1000 20 20 GDT_Byte 1 20);
    unfold is_int, INT_MIN, INT_MAX; simpl; lia.
Defined.

(** X2: clipping is idempotent.  The request a read issues, handed to
    [ClippedRasterIO] again, passes through unchanged. *)
Theorem clipping_is_idempotent
    (RasterIO : GDALRasterBand -> RasterIO_request -> CPLErr)
    (band : GDALRasterBand) (nXOff nYOff nXSize nYSize : Z)
    (pData nBufXSize nBufYSize : Z) (eBufType : GDALDataType)
    (nPixelSpace nLineSpace : Z) (rq : RasterIO_request) :
  is_int nXOff -> is_int nYOff -> is_int nXSize -> is_int nYSize ->
  is_int (nXOff + nXSize) -> is_int (nYOff + nYSize) ->
  0 <= GetXSize band <= INT_MAX -> 0 <= GetYSize band <= INT_MAX ->
  In rq (snd (ClippedRasterIO RasterIO band GF_Read nXOff nYOff nXSize
                nYSize pData nBufXSize nBufYSize eBufType nPixelSpace
                nLineSpace)) ->
  ClippedRasterIO RasterIO band GF_Read (rq_XOff rq) (rq_YOff rq)
    (rq_XSize rq) (rq_YSize rq) (rq_pData rq) (rq_BufXSize rq)
    (rq_BufYSize rq) (rq_BufType rq) (rq_PixelSpace rq) (rq_LineSpace rq)
  = (RasterIO band rq, [rq]).
Proof.
  intros HxO HyO HxS HyS HxE HyE HX HY.
  rewrite ClippedRasterIO_request by assumption.
  simpl. intros [<- | []].
  unfold ClippedRasterIO, clipped_request. simpl.
  assert (Ex : add32 (Z.max 0 nXOff)
                 (Z.min (GetXSize band) (nXOff + nXSize) - Z.max 0 nXOff)
               = Z.min (GetXSize band) (nXOff + nXSize)).
  { unfold add32. rewrite wrap32_id; [lia |].
    unfold is_int, INT_MIN, INT_MAX in *. lia. }
  assert (Ey : add32 (Z.max 0 nYOff)
                 (Z.min (GetYSize band) (nYOff + nYSize) - Z.max 0 nYOff)
               = Z.min (GetYSize band) (nYOff + nYSize)).
  { unfold add32. rewrite wrap32_id; [lia |].
    unfold is_int, INT_MIN, INT_MAX in *. lia. }
  rewrite Ex, Ey.
  replace (0 <=? Z.max 0 nXOff) with true by (symmetry; apply Z.leb_le; lia).
  replace (0 <=? Z.max 0 nYOff) with true by (symmetry; apply Z.leb_le; lia).
  replace (Z.min (GetXSize band) (nXOff + nXSize) <=? GetXSize band)
    with true by (symmetry; apply Z.leb_le; lia).
  replace (Z.min (GetYSize band) (nYOff + nYSize) <=? GetYSize band)
    with true by (symmetry; apply Z.leb_le; lia).
  reflexivity.
Qed.

Lemma clipping_is_idempotent_witness :
  let rq := {| rq_XOff := 0; rq_YOff := 4; rq_XSize := 10; rq_YSize := 6;
               rq_pData := 995; rq_BufXSize := 20; rq_BufYSize := 20;
               rq_BufType := GDT_Byte; rq_PixelSpace := 1;
               rq_LineSpace := 20 |} in
  ClippedRasterIO (fun _ _ => CE_None) {| GetXSize := 10; GetYSize := 10 |}
    GF_Read 0 4 10 6 995 20 20 GDT_Byte 1 20
  = (CE_None, [rq]).
Proof.
  intros rq.
  apply (clipping_is_idempotent (fun _ _ => CE_None)
           {| GetXSize := 10; GetYSize := 10 |}
           (-5) 4 20 20 1000 20 20 GDT_Byte 1 20 rq);
    try (unfold is_int, INT_MIN, INT_MAX; simpl; lia).
  left. reflexivity.
Defined.

(** X3: whatever a read is clipped to, the buffer description goes to
    the band as the caller gave it (buffer width and height, sample type,
    pixel and line spacing), and the data pointer is the caller's, plus
    nXOff * nPixelSpace when nXOff is negative, plus nLineSpace once when
    nYOff is negative. *)
Theorem clipped_read_buffer_and_pointer
    (RasterIO : GDALRasterBand -> RasterIO_request -> CPLErr)
    (band : GDALRasterBand) (nXOff nYOff nXSize nYSize : Z)
    (pData nBufXSize nBufYSize : Z) (eBufType : GDALDataType)
    (nPixelSpace nLineSpace : Z) :
  exists rq : RasterIO_request,
    ClippedRasterIO RasterIO band GF_Read nXOff nYOff nXSize nYSize pData
      nBufXSize nBufYSize eBufType nPixelSpace nLineSpace
    = (RasterIO band rq, [rq])
    /\ rq_BufXSize rq = nBufXSize /\ rq_BufYSize rq = nBufYSize
    /\ rq_BufType rq = eBufType
    /\ rq_PixelSpace rq = nPixelSpace /\ rq_LineSpace rq = nLineSpace
    /\ rq_pData rq
       = pData + (if nXOff <? 0 then mul32 nXOff nPixelSpace else 0)
         + (if nYOff <? 0 then nLineSpace else 0).
Proof.
  unfold ClippedRasterIO. simpl.
  destruct (Z.leb_spec 0 nXOff) as [Xp | Xn];
    destruct (Z.ltb_spec nXOff 0) as [Xn' | Xp']; try lia;
    destruct (Z.leb_spec 0 nYOff) as [Yp | Yn];
    destruct (Z.ltb_spec nYOff 0) as [Yn' | Yp']; try lia;
    simpl;
    repeat (first [ BandFacts.split_on Z.ltb Z.ltb_spec
                  | BandFacts.split_on Z.leb Z.leb_spec ]; simpl);
    (eexists; split; [reflexivity |]; simpl; repeat split; lia).
Qed.

(** ** The regions of the overview loop *)

(** One level step, for a region whose origin is not negative, in terms
    of the flooring division. *)
Lemma level_step_nonneg (r : region) :
  region_is_int r -> 0 <= BlockXOut r -> 0 <= BlockYOut r ->
  BlockXOut (level_step r) = BlockXOut r / 2
  /\ BlockYOut (level_step r) = BlockYOut r / 2
  /\ WidthOut (level_step r)
     = Z.quot (WidthOut r) 2 + WidthOut r mod 2 + BlockXOut r mod 2
  /\ HeightOut (level_step r)
     = Z.quot (HeightOut r) 2 + HeightOut r mod 2 + BlockYOut r mod 2.
Proof.
  intros (Hbx & Hby & Hw & Hh) Hx Hy.
  pose proof (half_round_exact _ _ Hw Hbx) as HW.
  pose proof (half_round_exact _ _ Hh Hby) as HH.
  unfold level_step; simpl.
  split; [| split; [| split; [exact HW | exact HH]]].
  - unfold div32. rewrite wrap32_id by (apply quot2_is_int; assumption).
    apply Z.quot_div_nonneg; lia.
  - unfold div32. rewrite wrap32_id by (apply quot2_is_int; assumption).
    apply Z.quot_div_nonneg; lia.
Qed.

(** Quotient and remainder of [x] by two, named for [lia]. *)
Ltac halves x :=
  let q := fresh "q" in
  let m := fresh "m" in
  pose proof (Z.div_mod x 2 ltac:(lia));
  pose proof (Z.mod_pos_bound x 2 ltac:(lia));
  set (q := x / 2) in *; set (m := x mod 2) in *.

Lemma half_covers (X W x : Z) :
  0 <= X -> X <= x < X + W ->
  X / 2 <= x / 2 < X / 2 + (Z.quot W 2 + W mod 2 + X mod 2).
Proof.
  intros HX Hx.
  rewrite (Z.quot_div_nonneg W 2) by lia.
  halves X. halves W. halves x. lia.
Qed.

Lemma level_step_covers (r : region) (x y : Z) :
  region_is_int r -> 0 <= BlockXOut r -> 0 <= BlockYOut r ->
  in_region r x y ->
  in_region (level_step r) (x / 2) (y / 2).
Proof.
  intros Hr HX HY [Hx Hy].
  destruct (level_step_nonneg r Hr HX HY) as (EX & EY & EW & EH).
  unfold in_region. rewrite EX, EY, EW, EH.
  split; apply half_covers; assumption.
Qed.

(** After [k] steps the origin is the base origin divided by 2^k. *)
Lemma iter_level_step_inv (r : region) (k : nat) :
  region_is_int r -> 0 <= BlockXOut r -> 0 <= BlockYOut r ->
  region_is_int (Nat.iter k level_step r)
  /\ BlockXOut (Nat.iter k level_step r) = BlockXOut r / 2 ^ Z.of_nat k
  /\ BlockYOut (Nat.iter k level_step r) = BlockYOut r / 2 ^ Z.of_nat k.
Proof.
  intros Hr HX HY. induction k as [| k (IHr & IHX & IHY)].
  - simpl. rewrite !Z.div_1_r. auto.
  - simpl Nat.iter.
    assert (Hp : 0 < 2 ^ Z.of_nat k) by (apply Z.pow_pos_nonneg; lia).
    assert (HX' : 0 <= BlockXOut (Nat.iter k level_step r))
      by (rewrite IHX; apply Z.div_pos; lia).
    assert (HY' : 0 <= BlockYOut (Nat.iter k level_step r))
      by (rewrite IHY; apply Z.div_pos; lia).
    destruct (level_step_nonneg _ IHr HX' HY') as (EX & EY & _).
    split; [apply level_step_is_int |].
    rewrite EX, EY, IHX, IHY, Nat2Z.inj_succ, Z.pow_succ_r by lia.
    rewrite !Z.div_div by lia. rewrite (Z.mul_comm 2). auto.
Qed.

Lemma iter_level_step_covers (r : region) (k : nat) (x y : Z) :
  region_is_int r -> 0 <= BlockXOut r -> 0 <= BlockYOut r ->
  in_region r x y ->
  in_region (Nat.iter k level_step r) (x / 2 ^ Z.of_nat k)
    (y / 2 ^ Z.of_nat k).
Proof.
  intros Hr HX HY Hin. induction k as [| k IH].
  - simpl. now rewrite !Z.div_1_r.
  - destruct (iter_level_step_inv r k Hr HX HY) as (Ir & IX & IY).
    assert (Hp : 0 < 2 ^ Z.of_nat k) by (apply Z.pow_pos_nonneg; lia).
    simpl Nat.iter.
    rewrite Nat2Z.inj_succ, Z.pow_succ_r, (Z.mul_comm 2) by lia.
    rewrite <- !Z.div_div by lia.
    apply level_step_covers; try assumption.
    + rewrite IX. apply Z.div_pos; lia.
    + rewrite IY. apply Z.div_pos; lia.
Qed.

(** X4: every region the loop hands to [PatchOverview] covers, at its
    source level sl, the footprint of every tile of the base region: tile
    (x, y) of the base lies over tile (x / 2^sl, y / 2^sl), and that tile
    is in the region; the region's origin is the base origin shifted
    right by sl bits. *)
Theorem patched_regions_cover_base
    (overview_count start_level stop_level : Z) (r : region)
    (c : PatchOverview_call) (x y : Z) :
  region_is_int r -> 0 <= BlockXOut r -> 0 <= BlockYOut r ->
  In c (fst (patch_overviews overview_count start_level stop_level r)) ->
  in_region r x y ->
  0 <= po_srcLevel c < overview_count
  /\ in_region (po_region c) (x / 2 ^ po_srcLevel c) (y / 2 ^ po_srcLevel c)
  /\ BlockXOut (po_region c) = Z.shiftr (BlockXOut r) (po_srcLevel c)
  /\ BlockYOut (po_region c) = Z.shiftr (BlockYOut r) (po_srcLevel c).
Proof.
  intros Hr HX HY Hc Hin. unfold patch_overviews in Hc.
  apply overview_loop_calls in Hc as (k & Hk & Hl & Hreg & _).
  simpl in Hl. rewrite Hl, Hreg. split; [lia |].
  split; [now apply iter_level_step_covers |].
  destruct (iter_level_step_inv r k Hr HX HY) as (_ & EX & EY).
  rewrite !Z.shiftr_div_pow2 by lia. auto.
Qed.

Lemma patched_regions_cover_base_witness :
  let r := {| BlockXOut := 3; BlockYOut := 5; WidthOut := 4; HeightOut := 3 |}
  in
  let c := {| po_region := level_step r; po_srcLevel := 1 |} in
  0 <= po_srcLevel c < 3
  /\ in_region (po_region c) (6 / 2 ^ po_srcLevel c) (7 / 2 ^ po_srcLevel c)
  /\ BlockXOut (po_region c) = Z.shiftr 3 (po_srcLevel c)
  /\ BlockYOut (po_region c) = Z.shiftr 5 (po_srcLevel c).
Proof.
  intros r c.
  apply (patched_regions_cover_base 3 0 (-1) r c 6 7).
  - unfold region_is_int, is_int, INT_MIN, INT_MAX; simpl; lia.
  - simpl; lia.
  - simpl; lia.
  - simpl. right. left. reflexivity.
  - unfold in_region; simpl; lia.
Defined.

Lemma half_tight (X W : Z) :
  0 <= X -> 1 <= W ->
  let needed := (X + W - 1) / 2 - X / 2 + 1 in
  let W' := Z.quot W 2 + W mod 2 + X mod 2 in
  needed <= W' <= needed + 1
  /\ (W' = needed + 1 <-> X mod 2 = 1 /\ W mod 2 = 1).
Proof.
  intros HX HW. cbv zeta.
  rewrite (Z.quot_div_nonneg W 2) by lia.
  halves X. halves W. halves (X + W - 1). lia.
Qed.

(** X5: one level step never loses a tile and adds at most one.  In
    each direction the stepped extent is the number of tiles needed to
    reach from the halved origin to the half of the last tile, or one
    more; it is one more exactly when origin and extent are both odd. *)
Theorem level_step_extra_tile (r : region) :
  region_is_int r ->
  0 <= BlockXOut r -> 0 <= BlockYOut r ->
  1 <= WidthOut r -> 1 <= HeightOut r ->
  let last_x := (BlockXOut r + WidthOut r - 1) / 2 in
  let last_y := (BlockYOut r + HeightOut r - 1) / 2 in
  let need_x := last_x - BlockXOut (level_step r) + 1 in
  let need_y := last_y - BlockYOut (level_step r) + 1 in
  need_x <= WidthOut (level_step r) <= need_x + 1
  /\ (WidthOut (level_step r) = need_x + 1
      <-> BlockXOut r mod 2 = 1 /\ WidthOut r mod 2 = 1)
  /\ need_y <= HeightOut (level_step r) <= need_y + 1
  /\ (HeightOut (level_step r) = need_y + 1
      <-> BlockYOut r mod 2 = 1 /\ HeightOut r mod 2 = 1).
Proof.
  intros Hr HX HY HW HH. cbv zeta.
  destruct (level_step_nonneg r Hr HX HY) as (EX & EY & EW & EH).
  rewrite EX, EY, EW, EH.
  destruct (half_tight (BlockXOut r) (WidthOut r) HX HW) as [A B].
  destruct (half_tight (BlockYOut r) (HeightOut r) HY HH) as [C D].
  tauto.
Qed.

Lemma level_step_extra_tile_witness :
  let r := {| BlockXOut := 3; BlockYOut := 5; WidthOut := 4; HeightOut := 3 |}
  in
  3 <= WidthOut (level_step r) <= 3 + 1
  /\ (WidthOut (level_step r) = 3 + 1 <-> 3 mod 2 = 1 /\ 4 mod 2 = 1)
  /\ 2 <= HeightOut (level_step r) <= 2 + 1
  /\ (HeightOut (level_step r) = 2 + 1 <-> 5 mod 2 = 1 /\ 3 mod 2 = 1).
Proof.
  intros r.
  apply (level_step_extra_tile r);
    unfold region_is_int, is_int, INT_MIN, INT_MAX; simpl; lia.
Defined.

(** ** The calls of the overview loop *)

Lemma overview_loop_calls_exact (n : nat) (sl a b : Z) (r : region) :
  fst (overview_loop n sl a b r)
  = map (level_call r sl)
      (List.filter (fun k : nat =>
                      (a <=? sl + Z.of_nat k) && (sl + Z.of_nat k <? b))
         (seq 0 n)).
Proof.
  revert sl r. induction n as [| n IH]; intros sl r; [reflexivity |].
  simpl overview_loop.
  specialize (IH (sl + 1) (level_step r)).
  destruct (overview_loop n (sl + 1) a b (level_step r)) as [rest r'].
  simpl fst in *. rewrite IH. clear IH.
  rewrite <- cons_seq, <- seq_shift. cbn [List.filter].
  change (Z.of_nat 0) with 0. rewrite Z.add_0_r.
  assert (Etail :
    map (level_call (level_step r) (sl + 1))
      (List.filter (fun k : nat =>
                      (a <=? sl + 1 + Z.of_nat k)
                      && (sl + 1 + Z.of_nat k <? b))
         (seq 0 n))
    = map (level_call r sl)
        (List.filter (fun k : nat =>
                        (a <=? sl + Z.of_nat k) && (sl + Z.of_nat k <? b))
           (map S (seq 0 n)))).
  { induction (seq 0 n) as [| k l IHl]; [reflexivity |].
    cbn [map List.filter].
    replace (sl + Z.of_nat (S k)) with (sl + 1 + Z.of_nat k) by lia.
    destruct ((a <=? sl + 1 + Z.of_nat k) && (sl + 1 + Z.of_nat k <? b));
      cbn [map]; rewrite IHl; [| reflexivity].
    f_equal. unfold level_call. f_equal.
    - symmetry. exact (Nat.iter_succ_r k level_step r).
    - lia. }
  rewrite Etail.
  destruct ((a <=? sl) && (sl <? b)); simpl; [| reflexivity].
  f_equal. unfold level_call. simpl. f_equal. lia.
Qed.

(** X6: the [PatchOverview] calls of the overlay block are, in rising
    order, one for each source level k below the overview count with
    start_level - 1 <= k < stop, where stop is the overview count when
    stop_level is -1 and stop_level otherwise; the call for level k
    carries the base region stepped k times. *)
Theorem patch_overviews_calls
    (overview_count start_level stop_level : Z) (r : region) :
  is_int (start_level - 1) ->
  let last := if stop_level =? -1 then overview_count else stop_level in
  fst (patch_overviews overview_count start_level stop_level r)
  = map (level_call r 0)
      (List.filter (fun k : nat =>
                      (start_level - 1 <=? Z.of_nat k)
                      && (Z.of_nat k <? last))
         (seq 0 (Z.to_nat overview_count))).
Proof.
  intros Hs. cbv zeta. unfold patch_overviews.
  rewrite overview_loop_calls_exact.
  unfold sub32. rewrite wrap32_id by exact Hs. reflexivity.
Qed.

Lemma patch_overviews_calls_witness :
  let r := {| BlockXOut := 3; BlockYOut := 5; WidthOut := 4; HeightOut := 3 |}
  in
  fst (patch_overviews 3 2 (-1) r)
  = [ {| po_region := level_step r; po_srcLevel := 1 |};
      {| po_region := level_step (level_step r); po_srcLevel := 2 |} ].
Proof.
  intros r.
  rewrite (patch_overviews_calls 3 2 (-1) r);
    [reflexivity | unfold is_int, INT_MIN, INT_MAX; simpl; lia].
Defined.

Lemma overview_loop_start_0 (n : nat) (sl b : Z) (r : region) :
  0 <= sl ->
  overview_loop n sl (-1) b r = overview_loop n sl 0 b r.
Proof.
  revert sl r. induction n as [| n IH]; intros sl r Hsl; [reflexivity |].
  simpl. rewrite IH by lia.
  replace (-1 <=? sl) with true by (symmetry; apply Z.leb_le; lia).
  replace (0 <=? sl) with true by (symmetry; apply Z.leb_le; lia).
  reflexivity.
Qed.

(** X7: a start level of 0 and a start level of 1 give the same
    overview calls and leave the same region: the loop runs from source
    level 0 either way. *)
Theorem start_level_0_is_1 (overview_count stop_level : Z) (r : region) :
  patch_overviews overview_count 0 stop_level r
  = patch_overviews overview_count 1 stop_level r.
Proof.
  unfold patch_overviews.
  change (sub32 0 1) with (-1). change (sub32 1 1) with 0.
  apply overview_loop_start_0. lia.
Qed.

(** ** One tile of the base level loop *)

(** X8: a source window that overruns the source band only on its right
    edge is not first read from the destination: the pass issues the
    clipped source read, narrower than the tile but into the tile's full
    buffer, and then the write of the whole tile. *)
Theorem right_overrun_is_not_padded
    (RasterIO : GDALRasterBand -> RasterIO_request -> CPLErr)
    (src : GDALRasterBand) (x y sx sy tsz_x tsz_y : Z)
    (buffer : Z) (eDataType : GDALDataType) (pixel_size line_size : Z) :
  0 <= GetXSize src <= INT_MAX -> 0 <= GetYSize src <= INT_MAX ->
  is_int sx -> is_int sy -> is_int tsz_x -> is_int tsz_y ->
  is_int (sx + tsz_x) -> is_int (sy + tsz_y) ->
  0 <= sx -> 0 <= sy ->
  GetXSize src < sx + tsz_x -> sy + tsz_y <= GetYSize src ->
  exists (rq wr : RasterIO_request),
    patch_band_tile RasterIO src x y sx sy tsz_x tsz_y buffer eDataType
      pixel_size line_size
    = [io_src rq; io_dst GF_Write wr]
    /\ rq_XOff rq = sx /\ rq_XSize rq = GetXSize src - sx
    /\ rq_XSize rq < tsz_x
    /\ rq_BufXSize rq = tsz_x /\ rq_pData rq = buffer
    /\ rq_XSize wr = tsz_x /\ rq_YSize wr = tsz_y /\ rq_pData wr = buffer.
Proof.
  intros HX HY Isx Isy Htx Hty Hex Hey Hsx Hsy Hover Hfit.
  unfold patch_band_tile.
  rewrite ClippedRasterIO_request by assumption.
  unfold needs_padding.
  rewrite (add32_exact sx tsz_x Hex), (add32_exact sy tsz_y Hey).
  replace (sx <? 0) with false by (symmetry; apply Z.ltb_ge; lia).
  replace (sy <? 0) with false by (symmetry; apply Z.ltb_ge; lia).
  replace (GetYSize src <? sy + tsz_y) with false
    by (symmetry; apply Z.ltb_ge; lia).
  rewrite andb_false_r. simpl.
  do 2 eexists. split; [reflexivity |]. simpl.
  replace (sx <? 0) with false by (symmetry; apply Z.ltb_ge; lia).
  replace (sy <? 0) with false by (symmetry; apply Z.ltb_ge; lia).
  repeat split; lia.
Qed.

Lemma right_overrun_is_not_padded_witness :
  exists (rq wr : RasterIO_request),
    patch_band_tile (fun _ _ => CE_None) {| GetXSize := 10; GetYSize := 10 |}
      2 0 8 0 4 4 1000 GDT_Byte 1 4
    = [io_src rq; io_dst GF_Write wr]
    /\ rq_XOff rq = 8 /\ rq_XSize rq = 10 - 8
    /\ rq_XSize rq < 4
    /\ rq_BufXSize rq = 4 /\ rq_pData rq = 1000
    /\ rq_XSize wr = 4 /\ rq_YSize wr = 4 /\ rq_pData wr = 1000.
Proof.
  apply (right_overrun_is_not_padded (fun _ _ => CE_None)
           {| GetXSize := 10; GetYSize := 10 |} 2 0 8 0 4 4 1000 GDT_Byte
           1 4);
    unfold is_int, INT_MIN, INT_MAX; simpl; lia.
Defined.

End InsertLaws.

(** * Further properties of mrf_band.cpp *)

Module BandLaws.
Import Band BandFacts.

(** ** The scanners *)

Lemma load_eq_repeat (m : memory) (b : Z) (n : nat) (v : byte) :
  load m b n = repeat v n
  <-> forall i : nat, (i < n)%nat -> m (b + Z.of_nat i) = v.
Proof.
  split.
  - intros E i Hi. rewrite <- (nth_load m b n i v) by exact Hi.
    rewrite E. apply nth_repeat.
  - intros Hall. apply (nth_ext _ _ v v).
    + now rewrite length_load, repeat_length.
    + rewrite length_load. intros i Hi.
      rewrite nth_load by exact Hi. rewrite nth_repeat. now apply Hall.
Qed.

(** X9: [is_empty] answers TRUE exactly when the [count] bytes of the
    buffer are all [val], and [is_zero] exactly when they are all zero;
    [is_zero] is [is_empty] for the value 0, and a buffer of no bytes is
    empty. *)
Theorem scanners_compare_every_byte (m : memory) (b : Z) (count : nat)
    (val : byte) :
  (is_empty m b count val = true <-> load m b count = repeat val count)
  /\ (is_zero m b count = true <-> load m b count = repeat Byte.x00 count)
  /\ is_zero m b count = is_empty m b count Byte.x00
  /\ is_empty m b 0 val = true.
Proof.
  rewrite is_zero_spec, is_empty_spec, !load_eq_repeat.
  split; [tauto | split; [tauto | split; [| reflexivity]]].
  apply is_zero_is_empty.
Qed.

(** ** Strided copies, there and back *)

Lemma cpy_stride_in_outside (sizeT : Z) (m : memory) (d s : Z) (c : nat)
    (stride : Z) (a : Z) :
  0 <= sizeT -> a < d \/ d + Z.of_nat c * sizeT <= a ->
  cpy_stride_in sizeT m d s c stride a = m a.
Proof.
  intros Hs. revert m d s. induction c as [| c IH]; intros m d s Ha; simpl.
  - reflexivity.
  - rewrite IH by nia.
    apply store_outside. rewrite length_load, Z2Nat.id by exact Hs. nia.
Qed.

Lemma cpy_stride_in_inside (sizeT : Z) (m : memory) (d s : Z) (c : nat)
    (stride : Z) (k : nat) (j : Z) :
  0 < sizeT ->
  (* the destination is clear of every item read *)
  (forall k' : nat, (k' < c)%nat ->
     d + Z.of_nat c * sizeT <= s + Z.of_nat k' * stride * sizeT
     \/ s + Z.of_nat k' * stride * sizeT + sizeT <= d) ->
  (k < c)%nat -> 0 <= j < sizeT ->
  cpy_stride_in sizeT m d s c stride (d + Z.of_nat k * sizeT + j)
  = m (s + Z.of_nat k * stride * sizeT + j).
Proof.
  intros Hs. revert m d s k.
  induction c as [| c IH]; intros m d s k Hclear Hk Hj; [lia |].
  simpl. destruct k as [| k].
  - rewrite cpy_stride_in_outside by lia.
    rewrite store_inside by (rewrite length_load; lia).
    rewrite nth_load by lia. f_equal; lia.
  - replace (d + Z.of_nat (S k) * sizeT + j)
      with (d + sizeT + Z.of_nat k * sizeT + j) by lia.
    rewrite IH; try lia.
    + rewrite store_outside.
      * f_equal. lia.
      * rewrite length_load, Z2Nat.id by lia.
        specialize (Hclear (S k) ltac:(lia)).
        rewrite Nat2Z.inj_succ in Hclear. nia.
    + intros k' Hk'. specialize (Hclear (S k') ltac:(lia)).
      rewrite Nat2Z.inj_succ in Hclear. nia.
Qed.

(** An offset inside [n] items of [s] bytes names an item and a byte of
    it. *)
Lemma offset_split (s n o : Z) :
  0 < s -> 0 <= o < n * s ->
  o = o / s * s + o mod s /\ 0 <= o / s < n /\ 0 <= o mod s < s.
Proof.
  intros Hs Ho.
  pose proof (Z.div_mod o s ltac:(lia)) as E.
  pose proof (Z.mod_pos_bound o s Hs) as Hm.
  assert (Hq : 0 <= o / s) by (apply Z.div_pos; lia).
  assert (Hq' : o / s < n).
  { apply Z.div_lt_upper_bound; lia. }
  repeat split; lia.
Qed.

Lemma item_in_page (s c t i n : Z) (k : nat) (j : Z) :
  0 < s -> 0 <= i < c -> (k < Z.to_nat n)%nat -> 0 <= j < s ->
  t <= t + i * s + Z.of_nat k * c * s + j < t + n * c * s.
Proof.
  intros Hs Hi Hk Hj.
  apply (band_items_in_page s c t i n); try lia.
  exists k. split; [exact Hk | lia].
Qed.

(** X10: interleaving and de-interleaving undo each other.  When the
    [n] samples of a band are copied into slot [i] of a page of [c] bands
    with [cpy_stride_out] and copied out of that slot with
    [cpy_stride_in], the bytes that arrive are the bytes that left,
    provided neither band buffer overlaps the page. *)
Theorem interleave_round_trip (sz c i n : Z) (m : memory) (t p q : Z) :
  0 < sz -> 0 <= i < c -> 0 <= n ->
  (* neither band buffer overlaps the page *)
  p + n * sz <= t \/ t + n * c * sz <= p ->
  q + n * sz <= t \/ t + n * c * sz <= q ->
  let page := cpy_stride_out sz m (t + i * sz) p (Z.to_nat n) c in
  let back := cpy_stride_in sz page q (t + i * sz) (Z.to_nat n) c in
  load back q (Z.to_nat (n * sz)) = load m p (Z.to_nat (n * sz)).
Proof.
  intros Hs Hi Hn Hp Hq page back.
  apply (nth_ext _ _ Byte.x00 Byte.x00); [now rewrite !length_load |].
  rewrite length_load. intros o Ho.
  rewrite !nth_load by exact Ho.
  assert (Ho' : 0 <= Z.of_nat o < n * sz) by nia.
  destruct (offset_split sz n (Z.of_nat o) Hs Ho') as (E & Hk & Hj).
  set (k := Z.of_nat o / sz) in *. set (j := Z.of_nat o mod sz) in *.
  rewrite E.
  assert (Hkn : (Z.to_nat k < Z.to_nat n)%nat) by lia.
  replace (q + (k * sz + j)) with (q + Z.of_nat (Z.to_nat k) * sz + j) by lia.
  unfold back. rewrite cpy_stride_in_inside; try lia.
  - unfold page. rewrite cpy_stride_out_inside; try lia.
    + f_equal. lia.
    + intros k' Hk'. rewrite Z2Nat.id by lia.
      pose proof (item_in_page sz c t i n k' 0 Hs Hi Hk' ltac:(lia)).
      pose proof (item_in_page sz c t i n k' (sz - 1) Hs Hi Hk' ltac:(lia)).
      lia.
  - intros k' Hk'. rewrite Z2Nat.id by lia.
    pose proof (item_in_page sz c t i n k' 0 Hs Hi Hk' ltac:(lia)).
    pose proof (item_in_page sz c t i n k' (sz - 1) Hs Hi Hk' ltac:(lia)).
    lia.
Qed.

Lemma interleave_round_trip_witness :
  let m := store (fun _ => Byte.x00) 1000
             [Byte.x01; Byte.x02; Byte.x03; Byte.x04] in
  let page := cpy_stride_out 2 m (5000 + 1 * 2) 1000 (Z.to_nat 2) 3 in
  let back := cpy_stride_in 2 page 2000 (5000 + 1 * 2) (Z.to_nat 2) 3 in
  load back 2000 (Z.to_nat (2 * 2)) = load m 1000 (Z.to_nat (2 * 2)).
Proof.
  intros m.
  apply (interleave_round_trip 2 3 1 2 m 5000 1000 2000); lia.
Defined.

(** X11: copying a band into its slot of the page writes that slot
    only: every address outside the page, and every byte of the slot of
    another band, keeps its value. *)
Theorem interleave_keeps_other_bands (sz c i n : Z) (m : memory)
    (t p a : Z) :
  0 < sz -> 0 <= i < c -> 0 <= n ->
  (* the address is outside the page, or in the slot of another band *)
  (a < t \/ t + n * c * sz <= a
   \/ exists i' k j : Z,
        0 <= i' < c /\ i' <> i /\ 0 <= k < n /\ 0 <= j < sz
        /\ a = t + (i' + k * c) * sz + j) ->
  cpy_stride_out sz m (t + i * sz) p (Z.to_nat n) c a = m a.
Proof.
  intros Hs Hi Hn Ha. apply cpy_stride_out_outside; [lia |].
  intros Hin.
  destruct Ha as [Ha | [Ha | (i' & k & j & Hi' & Hne & Hk & Hj & ->)]].
  - apply band_items_in_page in Hin; lia.
  - apply band_items_in_page in Hin; lia.
  - apply Hne.
    apply (band_items_apart sz c t i' i (t + (i' + k * c) * sz + j)
             (Z.to_nat n)); try lia; [| exact Hin].
    exists (Z.to_nat k). split; [lia |]. rewrite Z2Nat.id by lia. lia.
Qed.

Lemma interleave_keeps_other_bands_witness :
  let m := store (fun _ => Byte.x00) 5000
             [Byte.x0a; Byte.x0b; Byte.x0c; Byte.x0d] in
  cpy_stride_out 1 m (5000 + 1 * 1) 1000 (Z.to_nat 2) 2 5002 = m 5002.
Proof.
  intros m.
  apply (interleave_keeps_other_bands 1 2 1 2 m 5000 1000 5002); try lia.
  right. right. exists 0, 1, 0. lia.
Defined.

(** ** Byte order *)

Lemma swab_addr_bounds (k b a : Z) :
  0 < k ->
  b + k * ((a - b) / k) <= swab_addr k b a < b + k * ((a - b) / k) + k
  /\ (swab_addr k b a - b) / k = (a - b) / k
  /\ (swab_addr k b a - b) mod k = k - 1 - (a - b) mod k.
Proof.
  intros Hk. unfold swab_addr.
  pose proof (Z.mod_pos_bound (a - b) k Hk) as Hm.
  split; [lia |].
  replace (b + k * ((a - b) / k) + (k - 1 - (a - b) mod k) - b)
    with ((k - 1 - (a - b) mod k) + (a - b) / k * k) by lia.
  rewrite Z.div_add, Z.mod_add by lia.
  rewrite Z.div_small, Z.mod_small by lia. lia.
Qed.

Lemma swab_addr_involutive (k b a : Z) :
  0 < k -> swab_addr k b (swab_addr k b a) = a.
Proof.
  intros Hk.
  destruct (swab_addr_bounds k b a Hk) as (_ & Eq & Em).
  unfold swab_addr at 1. rewrite Eq, Em.
  pose proof (Z.div_mod (a - b) k ltac:(lia)). lia.
Qed.

Lemma swab_addr_range (k b a n : Z) :
  0 < k -> 0 <= n ->
  (b <= swab_addr k b a < b + k * n) <-> (b <= a < b + k * n).
Proof.
  intros Hk Hn.
  destruct (swab_addr_bounds k b a Hk) as (Hb & _ & _).
  pose proof (Z.div_mod (a - b) k ltac:(lia)) as E.
  pose proof (Z.mod_pos_bound (a - b) k Hk) as Hm.
  set (q := (a - b) / k) in *.
  split; intros Hr.
  - assert (0 <= q) by nia. assert (q < n) by nia. nia.
  - assert (0 <= q) by nia. assert (q < n) by nia. nia.
Qed.

Lemma swab_addr_1 (b a : Z) : swab_addr 1 b a = a.
Proof.
  unfold swab_addr. rewrite Z.div_1_r, Z.mod_1_r. lia.
Qed.

(** What the loops of [swab_buff] leave at every address. *)
Lemma swab_loop_at (k : nat) (m : memory) (b : Z) (i : nat) (a : Z) :
  (0 < k)%nat ->
  swab_loop k m b i a
  = if (b <=? a) && (a <? b + Z.of_nat k * Z.of_nat i)
    then m (swab_addr (Z.of_nat k) b a)
    else m a.
Proof.
  intros Hk. revert m b. induction i as [| i IH]; intros m b.
  - simpl swab_loop. change (Z.of_nat 0) with 0.
    rewrite Z.mul_0_r, Z.add_0_r.
    destruct (Z.leb_spec b a); destruct (Z.ltb_spec a b);
      simpl; try reflexivity; lia.
  - simpl swab_loop. rewrite IH.
    remember (Z.of_nat k) as K eqn:EK. assert (HK : 0 < K) by lia.
    rewrite Nat2Z.inj_succ.
    assert (Hpos : a < b \/ b <= a < b + K
                   \/ b + K <= a < b + K * Z.succ (Z.of_nat i)
                   \/ b + K * Z.succ (Z.of_nat i) <= a) by lia.
    destruct Hpos as [Hp | [Hp | [Hp | Hp]]]; Zbool_cases; simpl; try lia.
    + apply store_outside. rewrite length_rev, length_load, <- EK. lia.
    + (* the first word *)
      rewrite store_inside
        by (rewrite length_rev, length_load; rewrite <- EK; lia).
      rewrite rev_nth by (rewrite length_load; lia).
      rewrite length_load, nth_load by lia.
      rewrite Nat2Z.inj_sub, Nat2Z.inj_succ, Z2Nat.id, <- EK by lia.
      f_equal. unfold swab_addr.
      rewrite Z.div_small, Z.mod_small by lia. lia.
    + (* a later word *)
      destruct (swab_addr_bounds K (b + K) a HK) as (Hb & _).
      assert (0 <= (a - (b + K)) / K) by (apply Z.div_pos; lia).
      assert (0 <= K * ((a - (b + K)) / K))
        by (apply Z.mul_nonneg_nonneg; lia).
      rewrite store_outside
        by (rewrite length_rev, length_load; rewrite <- EK; lia).
      f_equal. unfold swab_addr.
      replace (a - b) with ((a - (b + K)) + 1 * K) by lia.
      rewrite Z.div_add, Z.mod_add by lia. lia.
    + apply store_outside. rewrite length_rev, length_load, <- EK. lia.
Qed.

Lemma swab_loop_involutive (k : nat) (m : memory) (b : Z) (n : nat) (a : Z) :
  (0 < k)%nat -> swab_loop k (swab_loop k m b n) b n a = m a.
Proof.
  intros Hk. rewrite !swab_loop_at by exact Hk.
  pose proof (swab_addr_range (Z.of_nat k) b a (Z.of_nat n)
                ltac:(lia) ltac:(lia)) as Hr.
  rewrite swab_addr_involutive by lia.
  destruct (Z.leb_spec b a);
    destruct (Z.ltb_spec a (b + Z.of_nat k * Z.of_nat n));
    simpl; try reflexivity;
    destruct (Z.leb_spec b (swab_addr (Z.of_nat k) b a));
    destruct (Z.ltb_spec (swab_addr (Z.of_nat k) b a)
                (b + Z.of_nat k * Z.of_nat n));
    simpl; try reflexivity; lia.
Qed.

(** X12: swapping a buffer twice gives back the buffer, byte for byte,
    whatever the sample type and the size, and leaves every other
    address as it was. *)
Theorem swab_buff_twice (m : memory) (src : buf_mgr) (im : ILImage) (a : Z) :
  swab_buff (swab_buff m src im) src im a = m a.
Proof.
  unfold swab_buff.
  destruct (GDALGetDataTypeSize (dt im)) as [| p | p]; try reflexivity.
  repeat (destruct p as [p | p |]; try reflexivity);
    apply swab_loop_involutive; lia.
Qed.

Lemma swab_width_pos (im : ILImage) : 0 < swab_width im.
Proof.
  unfold swab_width.
  destruct (GDALGetDataTypeSize (dt im)) as [| p | p]; try lia.
  repeat (destruct p as [p | p |]; try lia).
Qed.

Lemma swab_words_exact (k n : Z) :
  0 < k -> 0 <= n < 2 ^ 32 -> Z.of_nat (swab_words k n) = n / k.
Proof.
  intros Hk Hn. unfold swab_words, int_count.
  rewrite wrap64_id by lia.
  assert (0 <= n / k) by (apply Z.div_pos; lia).
  assert (n / k <= n) by (apply Z.div_le_upper_bound; nia).
  rewrite Z.mod_small by lia. lia.
Qed.

Lemma swab_words_le (k n : Z) :
  0 < k -> 0 <= n < 2 ^ 64 -> k * Z.of_nat (swab_words k n) <= n.
Proof.
  intros Hk Hn. unfold swab_words, int_count.
  rewrite wrap64_id by lia.
  assert (0 <= n / k) by (apply Z.div_pos; lia).
  pose proof (Z.mod_le (n / k) (2 ^ 32) ltac:(lia) ltac:(lia)).
  pose proof (Z.mod_pos_bound (n / k) (2 ^ 32) ltac:(lia)).
  pose proof (Z.mul_div_le n k Hk).
  rewrite Z2Nat.id by lia. nia.
Qed.

Lemma swab_buff_at (m : memory) (src : buf_mgr) (im : ILImage) (a : Z) :
  let k := swab_width im in
  swab_buff m src im a
  = if (buffer src <=? a)
       && (a <? buffer src + k * Z.of_nat (swab_words k (bsize src)))
    then m (swab_addr k (buffer src) a)
    else m a.
Proof.
  cbv zeta. unfold swab_buff, swab_width, swab_words.
  destruct (GDALGetDataTypeSize (dt im)) as [| p | p];
    try (rewrite swab_addr_1; now destruct (_ && _)).
  repeat (destruct p as [p | p |];
          try (rewrite swab_addr_1; now destruct (_ && _)));
    rewrite swab_loop_at by lia; reflexivity.
Qed.

(** X13: [swab_buff] reverses the bytes of every whole word of the
    buffer, in place, and writes nowhere else: within the [size / k]
    whole words of [k] bytes (k the sample width in bytes for 16, 32 and
    64 bit samples, 1 otherwise) a byte moves to its mirror position in
    its own word, and bytes outside them, among them a trailing partial
    word, are untouched. *)
Theorem swab_buff_reverses_words (m : memory) (src : buf_mgr) (im : ILImage)
    (a : Z) :
  0 <= bsize src < 2 ^ 32 ->
  let k := swab_width im in
  let words := bsize src / k in
  (buffer src <= a < buffer src + k * words ->
   swab_buff m src im a = m (swab_addr k (buffer src) a)
   /\ buffer src <= swab_addr k (buffer src) a < buffer src + k * words)
  /\ (a < buffer src \/ buffer src + k * words <= a ->
      swab_buff m src im a = m a).
Proof.
  intros Hn k words.
  pose proof (swab_width_pos im) as Hk. fold k in Hk.
  pose proof (swab_buff_at m src im a) as E. cbv zeta in E. fold k in E.
  rewrite (swab_words_exact k (bsize src) Hk Hn) in E. fold words in E.
  assert (Hw : 0 <= words) by (apply Z.div_pos; lia).
  split; intros Ha; rewrite E.
  - split; [| now apply swab_addr_range].
    destruct (Z.leb_spec (buffer src) a);
      destruct (Z.ltb_spec a (buffer src + k * words));
      simpl; try reflexivity; lia.
  - destruct (Z.leb_spec (buffer src) a);
      destruct (Z.ltb_spec a (buffer src + k * words));
      simpl; try reflexivity; lia.
Qed.

Lemma swab_buff_reverses_words_witness :
  let m := store (fun _ => Byte.x00) 1000
             [Byte.x01; Byte.x02; Byte.x03; Byte.x04; Byte.x05] in
  let im := img int16_band in
  swab_buff m {| buffer := 1000; bsize := 5 |} im 1002 = m 1003
  /\ 1000 <= 1003 < 1000 + 2 * 2.
Proof.
  intros m im.
  destruct (swab_buff_reverses_words m {| buffer := 1000; bsize := 5 |} im
              1002 ltac:(simpl; lia)) as [Hin _].
  apply Hin. vm_compute. split; [discriminate | reflexivity].
Defined.

(** Swapping depends only on the bytes of the buffer, not on where the
    buffer is. *)
Lemma load_swab_buff (m m' : memory) (p p' n : Z) (im : ILImage) :
  0 <= n < 2 ^ 64 ->
  load m' p' (Z.to_nat n) = load m p (Z.to_nat n) ->
  load (swab_buff m' {| buffer := p'; bsize := n |} im) p' (Z.to_nat n)
  = load (swab_buff m {| buffer := p; bsize := n |} im) p (Z.to_nat n).
Proof.
  intros Hn Hsame.
  pose proof (swab_width_pos im) as Hk.
  pose proof (swab_words_le (swab_width im) n Hk Hn) as Hle.
  assert (Hat : forall o : nat, (o < Z.to_nat n)%nat ->
            m' (p' + Z.of_nat o) = m (p + Z.of_nat o)).
  { intros o Ho.
    rewrite <- (nth_load m' p' (Z.to_nat n) o Byte.x00) by exact Ho.
    rewrite Hsame. now apply nth_load. }
  apply (nth_ext _ _ Byte.x00 Byte.x00); [now rewrite !length_load |].
  rewrite length_load. intros o Ho. rewrite !nth_load by exact Ho.
  rewrite !swab_buff_at. simpl buffer. simpl bsize.
  set (k := swab_width im) in *.
  set (cnt := Z.of_nat (swab_words k n)) in *.
  assert (Hcnt : 0 <= cnt) by (unfold cnt; lia).
  destruct (Z.ltb_spec (Z.of_nat o) (k * cnt)) as [Hin | Hout].
  - replace ((p' <=? p' + Z.of_nat o) && (p' + Z.of_nat o <? p' + k * cnt))
      with true
      by (symmetry; apply andb_true_iff; split;
          [apply Z.leb_le | apply Z.ltb_lt]; lia).
    replace ((p <=? p + Z.of_nat o) && (p + Z.of_nat o <? p + k * cnt))
      with true
      by (symmetry; apply andb_true_iff; split;
          [apply Z.leb_le | apply Z.ltb_lt]; lia).
    pose proof (proj2 (swab_addr_range k p' (p' + Z.of_nat o) cnt Hk Hcnt)
                  ltac:(lia)) as Hr.
    assert (E : swab_addr k p' (p' + Z.of_nat o) - p'
                = swab_addr k p (p + Z.of_nat o) - p).
    { unfold swab_addr.
      replace (p' + Z.of_nat o - p') with (Z.of_nat o) by lia.
      replace (p + Z.of_nat o - p) with (Z.of_nat o) by lia. lia. }
    set (mo := swab_addr k p' (p' + Z.of_nat o) - p') in *.
    replace (swab_addr k p' (p' + Z.of_nat o))
      with (p' + Z.of_nat (Z.to_nat mo)) by lia.
    replace (swab_addr k p (p + Z.of_nat o))
      with (p + Z.of_nat (Z.to_nat mo)) by lia.
    apply Hat. lia.
  - replace ((p' <=? p' + Z.of_nat o) && (p' + Z.of_nat o <? p' + k * cnt))
      with false
      by (symmetry; apply andb_false_iff; right; apply Z.ltb_ge; lia).
    replace ((p <=? p + Z.of_nat o) && (p + Z.of_nat o <? p + k * cnt))
      with false
      by (symmetry; apply andb_false_iff; right; apply Z.ltb_ge; lia).
    now apply Hat.
Qed.

Lemma load_swab_twice (m : memory) (p n : Z) (im : ILImage) (N : nat) :
  load (swab_buff (swab_buff m {| buffer := p; bsize := n |} im)
          {| buffer := p; bsize := n |} im) p N
  = load m p N.
Proof.
  apply load_ext. intros a _. unfold swab_buff.
  destruct (GDALGetDataTypeSize (dt im)) as [| q | q]; try reflexivity.
  repeat (destruct q as [q | q |]; try reflexivity);
    apply swab_loop_involutive; lia.
Qed.

(** ** The band's values *)

Lemma getBandValue_pick (v : list double) (idx : Z) :
  v <> [] -> Z.of_nat (length v) <= INT_MAX -> 0 <= idx ->
  In (getBandValue v idx) v
  /\ (idx < Z.of_nat (length v) ->
      getBandValue v idx = nth (Z.to_nat idx) v double_zero)
  /\ (Z.of_nat (length v) <= idx -> getBandValue v idx = hd double_zero v).
Proof.
  intros Hv Hlen Hidx. unfold getBandValue.
  rewrite wrap32_id by (unfold is_int, INT_MIN, INT_MAX in *; lia).
  destruct v as [| x v]; [contradiction |].
  destruct (Z.ltb_spec idx (Z.of_nat (length (x :: v)))) as [Hlt | Hge].
  - split; [apply nth_In; lia |]. split; [reflexivity | lia].
  - split; [now left |]. split; [lia | reflexivity].
Qed.

(** X15: [GetNoDataValue], [GetMinimum] and [GetMaximum] answer from
    the dataset's list when it has entries, always with success: the
    entry of the band when the list reaches that far, the first entry
    otherwise, so that a list of one value serves every band.  With an
    empty list they answer what the base class answers. *)
Theorem band_values_come_from_the_list (ds : GDALMRFDataset)
    (b : GDALMRFRasterBand) (vMin vMax : list double)
    (pam_Minimum pam_Maximum : double * bool) :
  0 <= m_band b ->
  let pick (v : list double) (pam : double * bool) (r : double * bool) :=
    (v = [] -> r = pam)
    /\ (v <> [] -> Z.of_nat (length v) <= INT_MAX ->
        snd r = true /\ In (fst r) v
        /\ (m_band b < Z.of_nat (length v) ->
            fst r = nth (Z.to_nat (m_band b)) v double_zero)
        /\ (Z.of_nat (length v) <= m_band b -> fst r = hd double_zero v)) in
  pick (vNoData ds) (pam_NoData b) (GetNoDataValue ds b)
  /\ pick vMin pam_Minimum (GetMinimum vMin pam_Minimum b)
  /\ pick vMax pam_Maximum (GetMaximum vMax pam_Maximum b).
Proof.
  intros Hb pick.
  assert (Hpick : forall v pam,
             pick v pam (if (length v =? 0)%nat then pam
                         else (getBandValue v (m_band b), true))).
  { intros v pam. unfold pick. split.
    - intros ->. reflexivity.
    - intros Hv Hlen. destruct v as [| x v]; [contradiction |].
      cbn [length Nat.eqb fst snd].
      split; [reflexivity |]. now apply getBandValue_pick. }
  split; [| split]; apply Hpick.
Qed.

Lemma band_values_come_from_the_list_witness :
  fst (GetNoDataValue (fresh_DS 3 [double_one])
         (band_of GDT_Byte 2 1 2 2 false false None))
  = double_one.
Proof.
  destruct (band_values_come_from_the_list (fresh_DS 3 [double_one])
              (band_of GDT_Byte 2 1 2 2 false false None) [] []
              (double_zero, false) (double_zero, false)
              ltac:(simpl; lia)) as ((_ & Hlist) & _).
  destruct Hlist as (_ & _ & _ & Hfirst).
  - discriminate.
  - unfold INT_MAX. simpl. lia.
  - apply Hfirst. simpl. lia.
Defined.

Lemma read_data_appended (ds : GDALMRFDataset) (old new : list byte) :
  data_file ds = old ++ new ->
  read_data ds (Z.of_nat (length old)) (Z.of_nat (length new)) = Some new.
Proof.
  intros E. unfold read_data. rewrite E, length_app.
  destruct (Z.ltb_spec (Z.of_nat (length old + length new))
              (Z.of_nat (length old) + Z.of_nat (length new))); [lia |].
  rewrite !Nat2Z.id. rewrite skipn_app, skipn_all, Nat.sub_diag. simpl.
  now rewrite firstn_all.
Qed.

(** The number of samples the strided copies move. *)
Lemma sample_count_exact (b : GDALMRFRasterBand) :
  block_geometry_ok b ->
  sample_size b = 1 \/ sample_size b = 2 \/ sample_size b = 4
  \/ sample_size b = 8 ->
  int_count (wrap64 (blockSizeBytes b) / sample_size b)
  = Z.to_nat (block_samples b)
  /\ blockSizeBytes b = block_samples b * sample_size b
  /\ 0 < sample_size b /\ 0 <= block_samples b
  /\ 0 <= blockSizeBytes b < 2 ^ 64.
Proof.
  intros Hg Hs.
  destruct (blockSizeBytes_exact b Hg) as [Hb Hr].
  fold (sample_size b) in Hb. fold (block_samples b) in Hb.
  assert (Hpos : 0 < sample_size b) by lia.
  destruct Hg as (Hx & Hy & Hxy & _).
  assert (Hn : 0 <= block_samples b <= INT_MAX).
  { unfold block_samples. split; [apply Z.mul_nonneg_nonneg; lia | lia]. }
  assert (H64 : 0 <= blockSizeBytes b < 2 ^ 64)
    by (unfold INT_MAX in Hr; lia).
  repeat split; try lia.
  unfold int_count. rewrite wrap64_id by exact H64.
  rewrite Hb, Z.div_mul by lia.
  rewrite Z.mod_small; [reflexivity |]. unfold INT_MAX in Hn. lia.
Qed.

Lemma buff_fill_outside (sizeT : Z) (m : memory) (b : Z) (c : nat)
    (v : list byte) (a : Z) :
  0 <= sizeT -> length v = Z.to_nat sizeT ->
  a < b \/ b + Z.of_nat c * sizeT <= a ->
  buff_fill sizeT m b c v a = m a.
Proof.
  intros Hs Hv. revert m b. induction c as [| c IH]; intros m b Ha; simpl.
  - reflexivity.
  - rewrite IH by nia. apply store_outside. rewrite Hv. nia.
Qed.

(** ** De-interleaving *)

Section Deinterleave.
Context {H : Host}.
Variables (b : GDALMRFRasterBand) (xblk yblk buf : Z) (w0 : world).
Hypothesis Hok : deinterleave_ok b xblk yblk buf w0.

Ltac run :=
  unfold bind, ret, get_mem, set_mem, get_DS, set_DS, emit, CPLFree,
    CPLMalloc, CPLError; simpl.

Lemma RB_loop_step (n' : nat) (i0 : Z) (w1 : world) :
  RB_loop (S n') i0 b xblk yblk buf w1
  = RB_loop n' (i0 + 1) b xblk yblk buf
      {| mem := cpy_stride_in (sample_size b) (mem w1)
                  (band_dest b xblk yblk buf i0)
                  (pbuffer (poDS w1) + i0 * sample_size b)
                  (int_count (wrap64 (blockSizeBytes b) / sample_size b))
                  (sz_c (pagesize (img b)));
         heap_plan := heap_plan w1;
         trace := trace w1;
         poDS := poDS w1 |}.
Proof using Hok.
  destruct Hok as (_ & Hs & _). unfold sample_size in *.
  unfold band_dest. simpl RB_loop. run.
  destruct Hs as [Es | [Es | [Es | Es]]]; rewrite Es; reflexivity.
Qed.

(** The band loop of [RB], started at band [i0] for [n'] bands on a
    memory that still holds the page. *)
Lemma RB_loop_spec (n' : nat) :
  forall (i0 : Z) (w1 : world),
    0 <= i0 -> i0 + Z.of_nat n' <= nBands (poDS w0) ->
    poDS w1 = poDS w0 ->
    (forall a, pbuffer (poDS w0) <= a
               < pbuffer (poDS w0)
                 + block_samples b * sz_c (pagesize (img b)) * sample_size b ->
               mem w1 a = mem w0 a) ->
    exists w2 : world,
      RB_loop n' i0 b xblk yblk buf w1 = (tt, w2)
      /\ trace w2 = trace w1 /\ heap_plan w2 = heap_plan w1
      /\ poDS w2 = poDS w1
      /\ (forall a,
            (forall i, i0 <= i < i0 + Z.of_nat n' ->
               a < band_dest b xblk yblk buf i
               \/ band_dest b xblk yblk buf i
                  + block_samples b * sample_size b <= a) ->
            mem w2 a = mem w1 a)
      /\ (forall (i : Z) (k : nat) (j : Z),
            i0 <= i < i0 + Z.of_nat n' ->
            (k < Z.to_nat (block_samples b))%nat ->
            0 <= j < sample_size b ->
            mem w2 (band_dest b xblk yblk buf i + Z.of_nat k * sample_size b
                    + j)
            = mem w0 (pbuffer (poDS w0) + i * sample_size b
                      + Z.of_nat k * sz_c (pagesize (img b)) * sample_size b
                      + j)).
Proof using Hok.
  pose proof Hok as (Hg & Hss & Hbands & Hpage & Hapart).
  destruct (sample_count_exact b Hg Hss) as (Hcnt & Hbsb & Hs & Hn & H64).
  cbv zeta in Hpage, Hapart.
  set (c := sz_c (pagesize (img b))) in *.
  set (s := sample_size b) in *.
  set (n := block_samples b) in *.
  set (pb := pbuffer (poDS w0)) in *.
  set (dest := band_dest b xblk yblk buf) in *.
  induction n' as [| n' IH]; intros i0 w1 Hi0 Hend Hds Hmem.
  - exists w1. simpl. repeat split; auto. intros i k j Hi. lia.
  - rewrite RB_loop_step. fold s c dest. rewrite Hcnt, Hds. fold n pb.
    assert (Hic : 0 <= i0 < c) by lia.
    pose proof (Hpage i0 ltac:(lia)) as Hp.
    set (m1 := cpy_stride_in s (mem w1) (dest i0) (pb + i0 * s)
                 (Z.to_nat n) c).
    assert (Hm1out : forall a, a < dest i0 \/ dest i0 + n * s <= a ->
                               m1 a = mem w1 a).
    { intros a Ha. apply cpy_stride_in_outside; [lia |].
      rewrite Z2Nat.id by lia. exact Ha. }
    assert (Hm1in : forall (k : nat) (j : Z),
               (k < Z.to_nat n)%nat -> 0 <= j < s ->
               m1 (dest i0 + Z.of_nat k * s + j)
               = mem w0 (pb + i0 * s + Z.of_nat k * c * s + j)).
    { intros k j Hk Hj. unfold m1.
      rewrite cpy_stride_in_inside; try lia.
      - apply Hmem. apply item_in_page; lia.
      - intros k' Hk'. rewrite Z2Nat.id by lia.
        pose proof (item_in_page s c pb i0 n k' 0 Hs Hic Hk' ltac:(lia)).
        pose proof (item_in_page s c pb i0 n k' (s - 1) Hs Hic Hk'
                      ltac:(lia)).
        lia. }
    match goal with
    | |- context [RB_loop n' (i0 + 1) b xblk yblk buf ?w] =>
        destruct (IH (i0 + 1) w) as (w2 & Hg2 & Ht & Hh & Hd & Hk & Hc)
    end; try lia.
    { simpl. reflexivity. }
    { simpl. intros a Ha. fold m1. rewrite Hm1out by lia. now apply Hmem. }
    exists w2. simpl in *. fold m1 in Hk.
    repeat split; auto; try congruence.
    + intros a Ha. rewrite Hk.
      * apply Hm1out. apply Ha. lia.
      * intros i Hi. apply Ha. lia.
    + intros i k j Hi Hkn Hj.
      destruct (Z.eq_dec i i0) as [-> | Hne].
      * rewrite Hk; [now apply Hm1in |].
        intros i Hi'.
        assert (0 <= Z.of_nat k * s) by (apply Z.mul_nonneg_nonneg; lia).
        assert ((Z.of_nat k + 1) * s <= n * s)
          by (apply Z.mul_le_mono_nonneg_r; lia).
        pose proof (Hapart i0 i ltac:(lia) ltac:(lia) ltac:(lia)). lia.
      * apply Hc; auto. lia.
Qed.

End Deinterleave.

(** ** The engine *)

Section Laws.
Context {H : Host}.

Ltac run :=
  unfold bind, ret, get_mem, set_mem, get_DS, set_DS, emit, CPLFree,
    CPLMalloc, CPLError; simpl.

(** X14: [DeflateBlock] releases the temporary buffer it takes, on
    every path: the pointers it frees are the blocks it was given, there
    is at most one, and none at all when the caller left room for the
    input and 64 bytes more. *)
Theorem DeflateBlock_releases_its_buffer (src : buf_mgr)
    (extrasize flags : Z) (w : world) :
  exists evs : list event,
    trace (snd (DeflateBlock src extrasize flags w)) = evs ++ trace w
    /\ frees evs = blocks evs
    /\ (length (blocks evs) <= 1)%nat
    /\ (bsize src + 64 <= extrasize -> 0 <= bsize src + 64 < 2 ^ 64 ->
        blocks evs = []).
Proof.
  unfold DeflateBlock, ZPack_call.
  destruct (Z.ltb_spec extrasize (wrap64 (bsize src + 64))) as [Hlt | Hge];
    run.
  - destruct (Z.eqb_spec (hd NULL (heap_plan w)) NULL) as [En | Hn]; run.
    + eexists [_]. split; [reflexivity |].
      unfold blocks. simpl. rewrite En. simpl.
      repeat split; try lia.
    + destruct (ZPack _ _ _) as [ok out]. run. destruct ok; run.
      * destruct (Z.eqb_spec (hd NULL (heap_plan w)) NULL) as [En | _];
          [contradiction |].
        run. eexists [_; _; _]. split; [reflexivity |].
        unfold blocks. simpl.
        destruct (Z.eqb_spec (hd NULL (heap_plan w)) NULL) as [En | _];
          [contradiction |].
        simpl. repeat split; try lia.
        intros Hfit H64. rewrite wrap64_id in Hlt by lia. lia.
      * eexists [_; _; _]. split; [reflexivity |].
        unfold blocks. simpl.
        destruct (Z.eqb_spec (hd NULL (heap_plan w)) NULL) as [En | _];
          [contradiction |].
        simpl. repeat split; try lia.
        intros Hfit H64. rewrite wrap64_id in Hlt by lia. lia.
  - destruct (ZPack _ _ _) as [ok out]. run. destruct ok; run.
    + eexists [_]. split; [reflexivity |]. unfold blocks. simpl.
      repeat split; lia.
    + eexists [_; _]. split; [reflexivity |]. unfold blocks. simpl.
      repeat split; lia.
Qed.

(** X16: [FillBlock] writes inside the block only.  Every address
    before the buffer or at or after its end keeps its value, and the
    fill logs nothing, allocates nothing and leaves the dataset as it
    was. *)
Theorem FillBlock_stays_in_the_block (b : GDALMRFRasterBand) (buf : Z)
    (w : world) (a : Z) :
  block_geometry_ok b ->
  length (to_sample (NoDataValue (img b)) (eDataType b))
  = Z.to_nat (Z.quot (GDALGetDataTypeSize (eDataType b)) 8) ->
  a < buf \/ buf + blockSizeBytes b <= a ->
  let w' := snd (FillBlock b buf w) in
  mem w' a = mem w a
  /\ trace w' = trace w /\ heap_plan w' = heap_plan w /\ poDS w' = poDS w.
Proof.
  intros Hg Hlen Ha. cbv zeta.
  destruct (blockSizeBytes_exact b Hg) as [Hbsb Hrange].
  assert (H64 : 0 <= blockSizeBytes b < 2 ^ 64)
    by (unfold INT_MAX in Hrange; lia).
  unfold FillBlock. rewrite (wrap64_id _ H64).
  destruct (negb (hasNoData (img b))
            || GDALDataType_eqb (eDataType b) GDT_Byte) eqn:Efast.
  - run. repeat split. unfold memset. apply store_outside.
    rewrite repeat_length. lia.
  - destruct (hasNoData (img b)); [| discriminate Efast]. simpl.
    destruct (eDataType b) eqn:Et; run; repeat split;
      try reflexivity;
      apply buff_fill_outside; try lia; try exact Hlen;
        (destruct Ha as [Ha | Ha]; [now left | right]);
        match goal with
        | |- context [blockSizeBytes b / ?s] =>
            pose proof (Z.mul_div_le (blockSizeBytes b) s ltac:(lia));
            assert (0 <= blockSizeBytes b / s) by (apply Z.div_pos; lia)
        end; lia.
Qed.

Lemma FillBlock_effects (b : GDALMRFRasterBand) (buf : Z) (w : world) :
  trace (snd (FillBlock b buf w)) = trace w
  /\ heap_plan (snd (FillBlock b buf w)) = heap_plan w
  /\ poDS (snd (FillBlock b buf w)) = poDS w.
Proof.
  unfold FillBlock.
  destruct (negb (hasNoData (img b))
            || GDALDataType_eqb (eDataType b) GDT_Byte); run; [auto |].
  destruct (eDataType b); run; auto.
Qed.

Lemma RB_loop_poDS (n : nat) (i : Z) (b : GDALMRFRasterBand)
    (xblk yblk buf : Z) (w : world) :
  poDS (snd (RB_loop n i b xblk yblk buf w)) = poDS w.
Proof.
  revert i w. induction n as [| n IH]; intros i w; simpl; [reflexivity |].
  run.
  destruct (Z.quot (GDALGetDataTypeSize (eDataType b)) 8) as [| q | q];
    try (run; now rewrite IH).
  do 4 (destruct q as [q | q |]; try (run; now rewrite IH)).
Qed.

Lemma RB_effects (b : GDALMRFRasterBand) (xblk yblk : Z) (src : buf_mgr)
    (buf : Z) (w : world) :
  fst (RB b xblk yblk src buf w) = CE_None
  /\ trace (snd (RB b xblk yblk src buf w)) = trace w
  /\ poDS (snd (RB b xblk yblk src buf w)) = poDS w.
Proof.
  destruct (RB_result b xblk yblk src buf w) as [Hr Ht].
  split; [exact Hr | split; [exact Ht |]].
  unfold RB. run.
  pose proof (RB_loop_poDS (Z.to_nat (nBands (poDS w))) 0 b xblk yblk buf w)
    as Hd.
  destruct (RB_loop (Z.to_nat (nBands (poDS w))) 0 b xblk yblk buf w)
    as [u w1].
  exact Hd.
Qed.

Lemma no_fetch_fill (b : GDALMRFRasterBand) (xblk yblk : Z)
    (ds : GDALMRFDataset) (tinfo : ILIdx) :
  no_fetch b xblk yblk ds ->
  ReadTileIdx ds (tile_req b xblk yblk) (img b) = Some tinfo ->
  isize tinfo = 0 ->
  negb (offset tinfo =? 0) || is_update (eAccess ds) || source_empty ds
  || GDALRWFlag_eqb (IdxMode ds) GF_Read = true.
Proof.
  intros Hnf Hidx Hz.
  destruct (Hnf tinfo Hidx Hz) as [Ho | [Ha | [Hs | Hm]]].
  - destruct (Z.eqb_spec (offset tinfo) 0); [contradiction | reflexivity].
  - rewrite Ha. simpl. now rewrite orb_true_r.
  - rewrite Hs. now rewrite orb_true_r.
  - rewrite Hm. simpl. now rewrite orb_true_r.
Qed.

(** X17: for samples of 1, 2, 4 or 8 bytes and blocks that overlap
    neither the page buffer nor each other, [RB] gives every band its
    samples.  Sample [k] of band [i] of the interleaved page, at
    [(i + k * c) * s] in the page buffer, arrives at [k * s] in that
    band's block; memory outside the blocks is untouched, the call
    succeeds and changes neither the dataset nor the log. *)
Theorem RB_deinterleaves (b : GDALMRFRasterBand) (xblk yblk : Z)
    (src : buf_mgr) (buf : Z) (w : world) :
  deinterleave_ok b xblk yblk buf w ->
  let r := RB b xblk yblk src buf w in
  let c := sz_c (pagesize (img b)) in
  let s := sample_size b in
  fst r = CE_None
  /\ (forall i k j : Z,
        0 <= i < nBands (poDS w) -> 0 <= k < block_samples b -> 0 <= j < s ->
        mem (snd r) (band_dest b xblk yblk buf i + k * s + j)
        = mem w (pbuffer (poDS w) + (i + k * c) * s + j))
  /\ (forall a : Z,
        (forall i, 0 <= i < nBands (poDS w) ->
           a < band_dest b xblk yblk buf i
           \/ band_dest b xblk yblk buf i + block_samples b * s <= a) ->
        mem (snd r) a = mem w a)
  /\ poDS (snd r) = poDS w /\ trace (snd r) = trace w.
Proof.
  intros Hok. cbv zeta. unfold RB. run.
  pose proof Hok as (_ & _ & Hbands & _).
  destruct (RB_loop_spec b xblk yblk buf w Hok (Z.to_nat (nBands (poDS w)))
              0 w) as (w2 & Hr & Ht & Hh & Hd & Hframe & Hslots);
    try lia; try reflexivity.
  rewrite Hr. simpl. split; [reflexivity |].
  split; [| split; [| auto]].
  - intros i k j Hi Hk Hj.
    specialize (Hslots i (Z.to_nat k) j ltac:(lia) ltac:(lia) Hj).
    rewrite Z2Nat.id in Hslots by lia. rewrite Hslots. f_equal. lia.
  - intros a Ha. apply Hframe. intros i Hi. apply Ha. lia.
Qed.


Lemma RB_loop_wide (n : nat) (i : Z) (b : GDALMRFRasterBand)
    (xblk yblk buf : Z) (w : world) :
  eDataType b = GDT_CFloat64 \/ eDataType b = GDT_Unknown ->
  RB_loop n i b xblk yblk buf w = (tt, w).
Proof.
  intros Ht. revert i. induction n as [| n IH]; intros i; [reflexivity |].
  simpl RB_loop. run.
  destruct Ht as [-> | ->]; simpl; apply IH.
Qed.

(** X18: for samples that are not 1, 2, 4 or 8 bytes wide (the
    sixteen-byte complex type, or an unknown type) [RB] copies nothing
    and still reports success: the blocks keep what they held. *)
Theorem RB_leaves_wide_samples (b : GDALMRFRasterBand) (xblk yblk : Z)
    (src : buf_mgr) (buf : Z) (w : world) :
  eDataType b = GDT_CFloat64 \/ eDataType b = GDT_Unknown ->
  RB b xblk yblk src buf w = (CE_None, w).
Proof.
  intros Ht. unfold RB. run. now rewrite RB_loop_wide.
Qed.

(** ** Reading *)

(** X19: a read that does not go to the cache source leaves the
    dataset object as it was, whatever the outcome: the index, the data
    file, the current tile, the dirty mask and the address and size of
    the page buffer are unchanged.  This is about the dataset's fields,
    not about the bytes at the page buffer, into which an interleaved
    read decodes. *)
Theorem read_keeps_the_dataset (b : GDALMRFRasterBand) (xblk yblk buf : Z)
    (w : world) :
  no_fetch b xblk yblk (poDS w) ->
  poDS (snd (IReadBlock b xblk yblk buf w)) = poDS w.
Proof.
  intros Hnf. unfold IReadBlock. run.
  destruct (ReadTileIdx (poDS w) (tile_req b xblk yblk) (img b))
    as [tinfo |] eqn:Hidx; [| reflexivity].
  destruct (Z.eqb_spec (isize tinfo) 0) as [Hz | Hnz].
  - rewrite (no_fetch_fill b xblk yblk (poDS w) tinfo Hnf Hidx Hz).
    apply FillBlock_effects.
  - run. destruct (data_open (poDS w)); [| reflexivity]. simpl.
    destruct (read_data (poDS w) (offset tinfo) (isize tinfo)) as [page |];
      [| reflexivity].
    run. unfold ZUnPack_call, Decompress_call, swab_call.
    destruct (deflate b); run.
    + destruct (ZUnPack _ _ _) as [ok out]. run.
      destruct ok; run;
        destruct (Decompress _ _ _) as [err dec]; run;
        destruct (needs_swab (img b)); run;
        destruct ((sz_c (pagesize (img b)) =? 1)
                  || negb (CPLErr_eqb err CE_None)); run;
        try reflexivity;
        match goal with
        | |- context [RB b xblk yblk ?s buf ?w0] =>
            destruct (RB_effects b xblk yblk s buf w0) as (_ & _ & Hd);
            rewrite Hd; reflexivity
        end.
    + destruct (Decompress _ _ _) as [err dec]; run;
        destruct (needs_swab (img b)); run;
        destruct ((sz_c (pagesize (img b)) =? 1)
                  || negb (CPLErr_eqb err CE_None)); run;
        try reflexivity;
        match goal with
        | |- context [RB b xblk yblk ?s buf ?w0] =>
            destruct (RB_effects b xblk yblk s buf w0) as (_ & _ & Hd);
            rewrite Hd; reflexivity
        end.
Qed.

(** X20: with the data file open, a read releases every buffer it
    allocates: in the events it logs, the pointers handed to [CPLFree]
    are, up to order, the blocks [CPLMalloc] returned. *)
Theorem read_releases_its_buffers (b : GDALMRFRasterBand)
    (xblk yblk buf : Z) (w : world) :
  no_fetch b xblk yblk (poDS w) ->
  data_open (poDS w) = true ->
  exists evs : list event,
    trace (snd (IReadBlock b xblk yblk buf w)) = evs ++ trace w
    /\ Permutation (frees evs) (blocks evs).
Proof.
  intros Hnf Hopen. unfold IReadBlock. run.
  destruct (ReadTileIdx (poDS w) (tile_req b xblk yblk) (img b))
    as [tinfo |] eqn:Hidx.
  2:{ run. eexists [_]. split; [reflexivity | constructor]. }
  destruct (Z.eqb_spec (isize tinfo) 0) as [Hz | Hnz].
  - rewrite (no_fetch_fill b xblk yblk (poDS w) tinfo Hnf Hidx Hz).
    destruct (FillBlock_effects b buf w) as (Ht & _).
    rewrite Ht. exists []. split; [reflexivity | constructor].
  - run. rewrite Hopen. simpl.
    destruct (read_data (poDS w) (offset tinfo) (isize tinfo)) as [page |].
    2:{ run. eexists [_; _; _]. split; [reflexivity |].
        unfold blocks. simpl. Zbool_cases; simpl; repeat constructor. }
    run. unfold ZUnPack_call, Decompress_call, swab_call.
    destruct (deflate b); run.
    + destruct (ZUnPack _ _ _) as [ok out]. run.
      destruct ok; run;
        destruct (Decompress _ _ _) as [err dec]; run;
        destruct (needs_swab (img b)); run;
        destruct ((sz_c (pagesize (img b)) =? 1)
                  || negb (CPLErr_eqb err CE_None)); run;
        try match goal with
          | |- context [RB b xblk yblk ?s buf ?w0] =>
              destruct (RB_effects b xblk yblk s buf w0) as (_ & Ht & _);
              rewrite Ht; simpl
          end;
        match goal with
        | |- exists evs, ?a :: ?b :: ?c :: ?d :: ?e :: ?f :: ?g :: ?h
                         :: trace w = _ /\ _ =>
            exists [a; b; c; d; e; f; g; h]
        | |- exists evs, ?a :: ?b :: ?c :: ?d :: ?e :: ?f :: ?g
                         :: trace w = _ /\ _ =>
            exists [a; b; c; d; e; f; g]
        | |- exists evs, ?a :: ?b :: ?c :: ?d :: ?e :: ?f
                         :: trace w = _ /\ _ =>
            exists [a; b; c; d; e; f]
        end;
        (split; [reflexivity |]); unfold blocks; simpl;
        Zbool_cases; simpl; repeat constructor.
    + destruct (Decompress _ _ _) as [err dec]; run;
        destruct (needs_swab (img b)); run;
        destruct ((sz_c (pagesize (img b)) =? 1)
                  || negb (CPLErr_eqb err CE_None)); run;
        try match goal with
          | |- context [RB b xblk yblk ?s buf ?w0] =>
              destruct (RB_effects b xblk yblk s buf w0) as (_ & Ht & _);
              rewrite Ht; simpl
          end;
        match goal with
        | |- exists evs, ?a :: ?b :: ?c :: ?d :: trace w = _ /\ _ =>
            exists [a; b; c; d]
        | |- exists evs, ?a :: ?b :: ?c :: trace w = _ /\ _ =>
            exists [a; b; c]
        end;
        (split; [reflexivity |]); unfold blocks; simpl;
        Zbool_cases; simpl; repeat constructor.
Qed.


(** ** Writing *)

(** What a band-separate write without the deflate stage leaves behind. *)
Lemma band_separate_write (b : GDALMRFRasterBand) (xblk yblk buf : Z)
    (w : world) :
  let P := pageSizeBytes (img b) in
  let ds := poDS w in
  let src := {| buffer := buf; bsize := P |} in
  let m1 := if needs_swab (img b) then swab_buff (mem w) src (img b)
            else mem w in
  let raw := load m1 buf (Z.to_nat P) in
  let out := snd (Compress b raw (pbsize ds)) in
  let infooffset := IdxOffset (tile_req b xblk yblk) (img b) in
  sz_c (pagesize (img b)) = 1 -> deflate b = false ->
  0 <= P < 2 ^ 64 ->
  io_ok ds = true ->
  block_empty ds b (mem w) buf P = false ->
  0 < Z.of_nat (length out) < 2 ^ 64 ->
  IWriteBlock b xblk yblk buf w
  = (CE_None,
     {| mem := store m1 (pbuffer ds) out;
        heap_plan := heap_plan w;
        trace := ev_WriteTile (pbuffer ds) infooffset (Z.of_nat (length out))
                 :: ev_Compress raw
                 :: (if needs_swab (img b) then [ev_swab buf P] else [])
                 ++ trace w;
        poDS := with_files (with_tile ds ILSize_default)
                  (<[infooffset :=
                       {| offset := Z.of_nat (length (data_file ds));
                          isize := Z.of_nat (length out) |}]> (idx_file ds))
                  (data_file ds ++ out) |}).
Proof.
  cbv zeta. intros Hc Hd HP Hio He Hout.
  unfold IWriteBlock. run. rewrite Hc, He. simpl.
  unfold swab_call, Compress_call, WriteTile. run.
  rewrite (size_count_id _ HP).
  destruct (needs_swab (img b)); run.
  - destruct (Compress b _ (pbsize (poDS w))) as [err out] eqn:Ec.
    simpl in Hout. run. rewrite Hd. run. rewrite Hio. simpl.
    destruct (Z.eqb_spec (Z.of_nat (length out)) 0) as [E0 | _]; [lia |].
    run. rewrite size_count_id, Nat2Z.id, load_store_same by lia.
    reflexivity.
  - destruct (Compress b _ (pbsize (poDS w))) as [err out] eqn:Ec.
    simpl in Hout. run. rewrite Hd. run. rewrite Hio. simpl.
    destruct (Z.eqb_spec (Z.of_nat (length out)) 0) as [E0 | _]; [lia |].
    run. rewrite size_count_id, Nat2Z.id, load_store_same by lia.
    reflexivity.
Qed.

(** X22: a band-separate write that is not elided appends to the data
    file exactly the bytes the codec produced, runs the codec once, and
    points the tile's index entry at them: reading the entry's range of
    the data file gives those bytes. *)
Theorem band_separate_write_stores_codec_output (b : GDALMRFRasterBand)
    (xblk yblk buf : Z) (w : world) :
  let P := pageSizeBytes (img b) in
  let ds := poDS w in
  let src := {| buffer := buf; bsize := P |} in
  let m1 := if needs_swab (img b) then swab_buff (mem w) src (img b)
            else mem w in
  let raw := load m1 buf (Z.to_nat P) in
  let out := snd (Compress b raw (pbsize ds)) in
  let infooffset := IdxOffset (tile_req b xblk yblk) (img b) in
  sz_c (pagesize (img b)) = 1 -> deflate b = false ->
  0 <= P < 2 ^ 64 ->
  io_ok ds = true ->
  block_empty ds b (mem w) buf P = false ->
  0 < Z.of_nat (length out) < 2 ^ 64 ->
  let r := IWriteBlock b xblk yblk buf w in
  let entry := {| offset := Z.of_nat (length (data_file ds));
                  isize := Z.of_nat (length out) |} in
  fst r = CE_None
  /\ data_file (poDS (snd r)) = data_file ds ++ out
  /\ idx_file (poDS (snd r)) !! infooffset = Some entry
  /\ read_data (poDS (snd r)) (offset entry) (isize entry) = Some out
  /\ compress_count (trace (snd r)) = S (compress_count (trace w)).
Proof.
  cbv zeta. intros Hc Hd HP Hio He Hout.
  rewrite (band_separate_write b xblk yblk buf w Hc Hd HP Hio He Hout).
  simpl. split; [reflexivity | split; [reflexivity |]].
  split; [apply lookup_insert_eq |].
  split; [now apply read_data_appended |].
  destruct (needs_swab (img b)); reflexivity.
Qed.

(** X23: when the store's byte order differs, a band-separate write
    (not elided, no deflate stage, working I/O) swaps the caller's
    buffer in place and does not swap it back: after the write the
    buffer holds the swapped samples that went to the codec. *)
Theorem band_separate_write_swaps_in_place (b : GDALMRFRasterBand)
    (xblk yblk buf : Z) (w : world) :
  let P := pageSizeBytes (img b) in
  let ds := poDS w in
  let src := {| buffer := buf; bsize := P |} in
  let raw := load (swab_buff (mem w) src (img b)) buf (Z.to_nat P) in
  let out := snd (Compress b raw (pbsize ds)) in
  sz_c (pagesize (img b)) = 1 -> deflate b = false ->
  0 <= P < 2 ^ 64 ->
  io_ok ds = true ->
  block_empty ds b (mem w) buf P = false ->
  0 < Z.of_nat (length out) < 2 ^ 64 ->
  needs_swab (img b) = true ->
  (* the page buffer does not overlap the tile *)
  pbuffer ds + Z.of_nat (length out) <= buf \/ buf + P <= pbuffer ds ->
  load (mem (snd (IWriteBlock b xblk yblk buf w))) buf (Z.to_nat P) = raw.
Proof.
  cbv zeta. intros Hc Hd HP Hio He Hout Hsw Hapart.
  pose proof (band_separate_write b xblk yblk buf w Hc Hd HP Hio He) as Hw.
  cbv zeta in Hw. rewrite Hsw in Hw. rewrite (Hw Hout). simpl.
  apply load_store_disjoint. lia.
Qed.


(** X25: the round trip holds through the deflate stage as well.
    When the packer succeeds and the unpacker and the codec undo their
    stages, the data file grows by the packed bytes and reading the tile
    back gives the bytes that were written. *)
Theorem deflated_round_trip (b : GDALMRFRasterBand)
    (xblk yblk buf buf2 : Z) (w : world) :
  let P := pageSizeBytes (img b) in
  let ds := poDS w in
  let src := {| buffer := buf; bsize := P |} in
  let m1 := if needs_swab (img b) then swab_buff (mem w) src (img b)
            else mem w in
  let raw := load m1 buf (Z.to_nat P) in
  let out := snd (Compress b raw (pbsize ds)) in
  let n := Z.of_nat (length out) in
  let extrasize := wrap64 (pbsize ds - n) in
  let cap := if extrasize <? n + 64 then n + 64 else extrasize in
  let packed := snd (ZPack out cap (deflate_flags b)) in
  sz_c (pagesize (img b)) = 1 -> deflate b = true ->
  0 <= P < 2 ^ 64 -> n + 64 < 2 ^ 64 ->
  io_ok ds = true -> data_open ds = true ->
  block_empty ds b (mem w) buf P = false ->
  0 < pbuffer ds ->
  (extrasize < n + 64 -> hd NULL (heap_plan w) <> NULL) ->
  (* the packer succeeds, and the unpacker and the codec undo their
     stages *)
  fst (ZPack out cap (deflate_flags b)) = true ->
  0 < Z.of_nat (length packed) < 2 ^ 64 ->
  ZUnPack packed (wrap64 (add32 P 1440)) (deflate_flags b) = (true, out) ->
  Decompress b out P = (CE_None, raw) ->
  let wr := IWriteBlock b xblk yblk buf w in
  let rd := IReadBlock b xblk yblk buf2 (snd wr) in
  fst wr = CE_None
  /\ data_file (poDS (snd wr)) = data_file ds ++ packed
  /\ fst rd = CE_None
  /\ load (mem (snd rd)) buf2 (Z.to_nat P) = load (mem w) buf (Z.to_nat P).
Proof.
  cbv zeta.
  intros Hc Hd HP Hn64 Hio Hopen He Hpb Htmp Hpk Hplen Hunp Hcodec.
  set (m1 := if needs_swab (img b)
             then swab_buff (mem w)
                    {| buffer := buf; bsize := pageSizeBytes (img b) |}
                    (img b)
             else mem w) in *.
  set (raw := load m1 buf (Z.to_nat (pageSizeBytes (img b)))) in *.
  set (out := snd (Compress b raw (pbsize (poDS w)))) in *.
  set (n := Z.of_nat (length out)) in *.
  set (extrasize := wrap64 (pbsize (poDS w) - n)) in *.
  set (cap := if extrasize <? n + 64 then n + 64 else extrasize) in *.
  set (packed := snd (ZPack out cap (deflate_flags b))) in *.
  assert (Hpack : ZPack out cap (deflate_flags b) = (true, packed)).
  { unfold packed. destruct (ZPack out cap (deflate_flags b)) as [ok pk].
    simpl in Hpk. now subst ok. }
  (* the write *)
  assert (Hwrite :
    exists w1 : world,
      IWriteBlock b xblk yblk buf w = (CE_None, w1)
      /\ idx_file (poDS w1)
         = <[IdxOffset (tile_req b xblk yblk) (img b) :=
               {| offset := Z.of_nat (length (data_file (poDS w)));
                  isize := Z.of_nat (length packed) |}]> (idx_file (poDS w))
      /\ data_file (poDS w1) = data_file (poDS w) ++ packed
      /\ data_open (poDS w1) = data_open (poDS w)).
  { unfold IWriteBlock. run. rewrite Hc, He. simpl.
    unfold swab_call, Compress_call. run.
    rewrite (size_count_id _ HP).
    subst packed cap extrasize n out raw m1.
    destruct (needs_swab (img b)); run;
      destruct (Compress b _ (pbsize (poDS w))) as [err out];
      simpl in *; run; rewrite Hd;
      match goal with
      | |- context [DeflateBlock ?s0 ?e0 ?f0 ?w3] =>
          destruct (DeflateBlock_packs s0 e0 f0 w3
                      (snd (ZPack out
                              (if e0 <? Z.of_nat (length out) + 64
                               then Z.of_nat (length out) + 64 else e0)
                              (deflate_flags b))))
            as (ptr & w4 & Hr & Hptr & Hload & Hds & _)
      end; simpl; try lia;
      try (rewrite Nat2Z.id, load_store_same; exact Hpack);
      try exact Htmp;
      simpl in Hr, Hptr, Hds; rewrite Hr; simpl;
      (assert (Hnn : (ptr =? NULL) = false)
         by (apply Z.eqb_neq; unfold NULL; rewrite Hptr;
             match goal with
             | |- context [if ?c then _ else _] => destruct c; lia
             end));
      rewrite Hnn; unfold WriteTile; run;
      rewrite Hds; simpl; rewrite Hio; simpl;
      match goal with
      | |- context [Z.of_nat (length ?pk) =? 0] =>
          destruct (Z.eqb_spec (Z.of_nat (length pk)) 0) as [E0 | _];
            [lia |]
      end;
      run; eexists; (split; [reflexivity |]); simpl;
      rewrite size_count_id, Nat2Z.id, Hload by lia; auto. }
  destruct Hwrite as (w1 & Hw & Eidx & Edat & Eopen).
  rewrite Hw. simpl. split; [reflexivity | split; [exact Edat |]].
  (* the read *)
  unfold IReadBlock. run. unfold ReadTileIdx. rewrite Eidx.
  rewrite lookup_insert_eq. simpl.
  destruct (Z.eqb_spec (Z.of_nat (length packed)) 0) as [E0 | _]; [lia |].
  run. rewrite Eopen, Hopen. simpl.
  rewrite (read_data_appended (poDS w1) (data_file (poDS w)) packed Edat).
  run. rewrite Hd. run. unfold ZUnPack_call. run.
  rewrite size_count_id by lia. rewrite Nat2Z.id, load_store_same.
  rewrite Hunp. run. unfold Decompress_call. run.
  fold n. rewrite size_count_id by (unfold n; lia).
  unfold n. rewrite Nat2Z.id, load_store_same.
  rewrite Hcodec. run. rewrite Hc. simpl.
  assert (Hraw : length raw = Z.to_nat (pageSizeBytes (img b)))
    by apply length_load.
  unfold swab_call. subst m1.
  destruct (needs_swab (img b)); run.
  - split; [reflexivity |].
    rewrite <- (load_swab_twice (mem w) buf (pageSizeBytes (img b)) (img b)).
    apply load_swab_buff; [exact HP |].
    rewrite <- Hraw at 1. rewrite load_store_same. reflexivity.
  - split; [reflexivity |].
    rewrite <- Hraw at 1. rewrite load_store_same. reflexivity.
Qed.

(** A band-separate write of an empty tile, and the read that follows. *)
Lemma elided_then_read (b : GDALMRFRasterBand) (xblk yblk buf buf2 : Z)
    (w : world) :
  sz_c (pagesize (img b)) = 1 ->
  io_ok (poDS w) = true -> eAccess (poDS w) = GA_Update ->
  block_empty (poDS w) b (mem w) buf (pageSizeBytes (img b)) = true ->
  let wr := IWriteBlock b xblk yblk buf w in
  fst wr = CE_None
  /\ data_file (poDS (snd wr)) = data_file (poDS w)
  /\ mem (snd wr) = mem w
  /\ IReadBlock b xblk yblk buf2 (snd wr) = FillBlock b buf2 (snd wr).
Proof.
  intros Hc Hio Hacc He. cbv zeta.
  unfold IWriteBlock. run. rewrite Hc, He. simpl.
  unfold WriteTile. run. rewrite Hio. simpl.
  repeat split.
  unfold IReadBlock. run. unfold ReadTileIdx. simpl.
  rewrite lookup_insert_eq. simpl. rewrite Hacc. reflexivity.
Qed.

(** X26: an elided tile reads back as it was written.  A tile of
    zeros (no NoData value) or of the NoData byte (Byte samples) is
    stored as an empty index entry, with no data, and the read that
    follows fills the caller's buffer with the same bytes. *)
Theorem empty_tile_round_trip (b : GDALMRFRasterBand)
    (xblk yblk buf buf2 : Z) (w : world) :
  sz_c (pagesize (img b)) = 1 ->
  pageSizeBytes (img b) = blockSizeBytes b -> block_geometry_ok b ->
  io_ok (poDS w) = true -> eAccess (poDS w) = GA_Update ->
  NoData_of_img (poDS w) b ->
  hasNoData (img b) = false
  \/ (eDataType b = GDT_Byte /\ vNoData (poDS w) <> []) ->
  block_empty (poDS w) b (mem w) buf (pageSizeBytes (img b)) = true ->
  let wr := IWriteBlock b xblk yblk buf w in
  let rd := IReadBlock b xblk yblk buf2 (snd wr) in
  let n := Z.to_nat (blockSizeBytes b) in
  fst wr = CE_None
  /\ data_file (poDS (snd wr)) = data_file (poDS w)
  /\ fst rd = CE_None
  /\ load (mem (snd rd)) buf2 n = load (mem w) buf n.
Proof.
  intros Hc HP Hg Hio Hacc [Hndv Hhas] Hcase He. cbv zeta.
  destruct (elided_then_read b xblk yblk buf buf2 w Hc Hio Hacc He)
    as (Hw & Hdata & Hmem & Hread).
  split; [exact Hw | split; [exact Hdata |]].
  rewrite Hread.
  destruct (FillBlock_spec b buf2 (snd (IWriteBlock b xblk yblk buf w)) Hg)
    as (Hzero & Hbyte & _).
  destruct (blockSizeBytes_exact b Hg) as [_ Hrange].
  assert (H64 : 0 <= blockSizeBytes b < 2 ^ 64)
    by (unfold INT_MAX in Hrange; lia).
  rewrite HP in He. unfold block_empty in He.
  rewrite (size_count_id _ H64) in He.
  destruct Hcase as [Hno | [Hbyte' Hlist]].
  - destruct (Hzero Hno) as [Hr Hl]. split; [exact Hr |]. rewrite Hl.
    symmetry. apply load_eq_repeat.
    assert (Htest : GDALDataType_eqb (eDataType b) GDT_Byte
                    && negb (length (vNoData (poDS w)) =? 0)%nat = false).
    { destruct (GDALDataType_eqb (eDataType b) GDT_Byte); [| reflexivity].
      destruct (vNoData (poDS w)) as [| v vs] eqn:Ev; [reflexivity |].
      unfold GetNoDataValue in Hhas. rewrite Ev in Hhas. simpl in Hhas.
      congruence. }
    rewrite Htest in He. now apply is_zero_spec.
  - assert (Hyes : hasNoData (img b) = true).
    { rewrite Hhas. unfold GetNoDataValue.
      destruct (vNoData (poDS w)); [contradiction | reflexivity]. }
    destruct (Hbyte Hyes Hbyte') as [Hr Hl]. split; [exact Hr |]. rewrite Hl.
    symmetry. apply load_eq_repeat.
    rewrite Hbyte' in He. simpl in He.
    destruct (vNoData (poDS w)) as [| v vs] eqn:Ev; [contradiction |].
    simpl in He. rewrite Hndv. unfold GetNoDataValue. rewrite Ev.
    unfold GetNoDataValue in He. rewrite Ev in He. simpl in *.
    now apply is_empty_spec.
Qed.

(** X27: for a sample type with a typed fill (the 16 and 32 bit
    integers, Float32 and Float64) in a band with a NoData value, a
    band-separate tile of zeros is elided as well, but reads back as the
    NoData value in every sample: the bytes read are not the bytes
    written unless the NoData value is zero. *)
Theorem zero_tile_reads_back_as_NoData (b : GDALMRFRasterBand)
    (xblk yblk buf buf2 : Z) (w : world) :
  sz_c (pagesize (img b)) = 1 ->
  pageSizeBytes (img b) = blockSizeBytes b -> block_geometry_ok b ->
  io_ok (poDS w) = true -> eAccess (poDS w) = GA_Update ->
  hasNoData (img b) = true -> has_typed_fill (eDataType b) = true ->
  length (to_sample (NoDataValue (img b)) (eDataType b))
  = Z.to_nat (Z.quot (GDALGetDataTypeSize (eDataType b)) 8) ->
  filled_with (mem w) buf (blockSizeBytes b) Byte.x00 ->
  let wr := IWriteBlock b xblk yblk buf w in
  let rd := IReadBlock b xblk yblk buf2 (snd wr) in
  fst wr = CE_None
  /\ data_file (poDS (snd wr)) = data_file (poDS w)
  /\ fst rd = CE_None
  /\ load (mem (snd rd)) buf2 (Z.to_nat (blockSizeBytes b))
     = concat (repeat (to_sample (NoDataValue (img b)) (eDataType b))
                 (Z.to_nat (nBlockXSize b * nBlockYSize b))).
Proof.
  intros Hc HP Hg Hio Hacc Hhas Htyped Hlen Hzero. cbv zeta.
  destruct (blockSizeBytes_exact b Hg) as [_ Hrange].
  assert (H64 : 0 <= blockSizeBytes b < 2 ^ 64)
    by (unfold INT_MAX in Hrange; lia).
  assert (He : block_empty (poDS w) b (mem w) buf (pageSizeBytes (img b))
               = true).
  { rewrite HP. unfold block_empty. rewrite (size_count_id _ H64).
    replace (GDALDataType_eqb (eDataType b) GDT_Byte) with false
      by (destruct (eDataType b); try reflexivity; discriminate Htyped).
    simpl. apply is_zero_spec. intros i Hi. apply Hzero. lia. }
  destruct (elided_then_read b xblk yblk buf buf2 w Hc Hio Hacc He)
    as (Hw & Hdata & Hmem & Hread).
  split; [exact Hw | split; [exact Hdata |]].
  rewrite Hread.
  destruct (FillBlock_spec b buf2 (snd (IWriteBlock b xblk yblk buf w)) Hg)
    as (_ & _ & Hfill & _).
  exact (Hfill Hhas Htyped Hlen).
Qed.

(** The band loop writes no tile and leaves the two files alone. *)
Lemma gather_bands_files (n : nat) :
  forall (i e : Z) (b : GDALMRFRasterBand) (xblk yblk buf t : Z) (w : world),
    let w' := snd (gather_bands n i b xblk yblk buf t e w) in
    tile_writes (trace w') = tile_writes (trace w)
    /\ idx_file (poDS w') = idx_file (poDS w)
    /\ data_file (poDS w') = data_file (poDS w)
    /\ io_ok (poDS w') = io_ok (poDS w).
Proof.
  induction n as [| n IH]; intros i e b xblk yblk buf t w; simpl;
    [auto |].
  run.
  destruct (if i =? m_band b then Some buf
            else TryGetLockedBlockRef i (m_l b) xblk yblk) as [p |];
    [| apply IH].
  run.
  destruct (Z.quot (GDALGetDataTypeSize (eDataType b)) 8) as [| q | q];
    try (simpl; auto).
  do 4 (destruct q as [q | q |]; try (simpl; auto);
        try (run;
             match goal with
             | |- context [gather_bands n ?i0 b xblk yblk buf t ?e0 ?w0] =>
                 destruct (IH i0 e0 b xblk yblk buf t w0)
                   as (A & B & C & D)
             end; simpl in *; now rewrite A, B, C, D)).
Qed.

Lemma DeflateBlock_files (src : buf_mgr) (extrasize flags : Z) (w : world) :
  let w' := snd (DeflateBlock src extrasize flags w) in
  tile_writes (trace w') = tile_writes (trace w) /\ poDS w' = poDS w.
Proof.
  cbv zeta. unfold DeflateBlock, ZPack_call.
  destruct (extrasize <? wrap64 (bsize src + 64)); run.
  - destruct (Z.eqb_spec (hd NULL (heap_plan w)) NULL) as [En | Hn]; run.
    + auto.
    + destruct (ZPack _ _ _) as [ok out]. run. destruct ok; run.
      * destruct (Z.eqb_spec (hd NULL (heap_plan w)) NULL) as [En | _];
          [contradiction |].
        auto.
      * auto.
  - destruct (ZPack _ _ _) as [ok out]. run. destruct ok; auto.
Qed.


Lemma WriteTile_files (buff infooffset n : Z) (w : world) :
  let r := WriteTile buff infooffset n w in
  tile_writes (trace (snd r)) = (buff, infooffset, n) :: tile_writes (trace w)
  /\ (forall k : Z, k <> infooffset ->
        idx_file (poDS (snd r)) !! k = idx_file (poDS w) !! k)
  /\ (exists added : list byte,
        data_file (poDS (snd r)) = data_file (poDS w) ++ added
        /\ (n = 0 -> added = []))
  /\ (fst r = CE_None <-> io_ok (poDS w) = true).
Proof.
  cbv zeta. unfold WriteTile. run.
  destruct (io_ok (poDS w)); run.
  - destruct (Z.eqb_spec n 0) as [E0 | Hn0]; run.
    + split; [reflexivity |].
      split; [intros k Hk; now apply lookup_insert_ne |].
      split; [exists []; split; [now rewrite app_nil_r | auto] | tauto].
    + split; [reflexivity |].
      split; [intros k Hk; now apply lookup_insert_ne |].
      split; [eexists; split; [reflexivity | intros; contradiction] | tauto].
  - split; [reflexivity |]. split; [auto |].
    split; [exists []; split; [now rewrite app_nil_r | auto] |].
    split; discriminate.
Qed.

(** The write went through [WriteTile] once. *)
Ltac one_write :=
  match goal with
  | |- context [WriteTile ?a0 ?o0 ?n0 ?w5] =>
      destruct (WriteTile_files a0 o0 n0 w5) as (Hwt & Hidx & Hdat & Hio);
      destruct (WriteTile a0 o0 n0 w5) as [rw w6];
      simpl in Hwt, Hidx, Hdat, Hio; simpl;
      right; exists a0, n0
  end.

Ltac deflate_step :=
  match goal with
  | |- context [DeflateBlock ?s0 ?e0 ?f0 ?w3] =>
      destruct (DeflateBlock_files s0 e0 f0 w3) as (Hdt & Hdd);
      destruct (DeflateBlock s0 e0 f0 w3) as [[usebuff dst'] w4];
      simpl in Hdt, Hdd; simpl;
      destruct (usebuff =? NULL); simpl
  end.

(** X28: a write touches one index entry.  Either it fails before
    any tile is written and leaves the index and the data file as they
    were, or it calls [WriteTile] exactly once, for the index position of
    the tile: every other index entry is unchanged, the data file only
    grows at its end (and not at all for a tile of size 0), and the
    result is CE_None exactly when the dataset's I/O succeeds. *)
Theorem write_touches_one_entry (b : GDALMRFRasterBand)
    (xblk yblk buf : Z) (w : world) :
  let r := IWriteBlock b xblk yblk buf w in
  let infooffset := IdxOffset (tile_req b xblk yblk) (img b) in
  (fst r = CE_Failure
   /\ tile_writes (trace (snd r)) = tile_writes (trace w)
   /\ idx_file (poDS (snd r)) = idx_file (poDS w)
   /\ data_file (poDS (snd r)) = data_file (poDS w))
  \/ (exists p n : Z,
        tile_writes (trace (snd r)) = (p, infooffset, n) :: tile_writes (trace w)
        /\ (forall k : Z, k <> infooffset ->
              idx_file (poDS (snd r)) !! k = idx_file (poDS w) !! k)
        /\ (exists added : list byte,
              data_file (poDS (snd r)) = data_file (poDS w) ++ added
              /\ (n = 0 -> added = []))
        /\ (fst r = CE_None <-> io_ok (poDS w) = true)).
Proof.
  cbv zeta. unfold IWriteBlock. run.
  destruct (sz_c (pagesize (img b)) =? 1).
  - (* band separate *)
    destruct (block_empty (poDS w) b (mem w) buf (pageSizeBytes (img b))).
    + one_write. auto.
    + unfold swab_call, Compress_call.
      destruct (needs_swab (img b)); run;
        destruct (Compress _ _ _) as [err out]; run;
        destruct (deflate b); try deflate_step; run.
      all: try (left; rewrite Hdt, Hdd; simpl; now auto).
      all: one_write.
      all: try rewrite Hdd in *; try rewrite Hdt in *; simpl in *; auto.
  - (* interleaved *)
    destruct (Z.eqb_spec (hd NULL (heap_plan w)) NULL) as [En | _].
    + run. left. auto.
    + match goal with
      | |- context [gather_bands ?n ?i b xblk yblk buf ?t ?e ?wA] =>
          destruct (gather_bands_files n i e b xblk yblk buf t wA)
            as (Gt & Gi & Gd & Go);
          destruct (gather_bands n i b xblk yblk buf t e wA) as [[emp |] w2]
      end; simpl in Gt, Gi, Gd, Go; simpl.
      2:{ left. auto. }
      destruct (emp =? AllBandMask (poDS w)).
      * run. one_write. rewrite Gt, Gi, Gd, Go in *. auto.
      * unfold Compress_call.
        destruct (negb (bdirty (poDS w2) =? AllBandMask (poDS w2))); run;
          destruct (Compress _ _ _) as [err out]; run;
          destruct (deflate b); try deflate_step; run.
        all: try (left; rewrite ?Hdt, ?Hdd; simpl; now auto).
        all: one_write.
        all: try rewrite Hdd in *; try rewrite Hdt in *; simpl in *;
             rewrite ?Gt, ?Gi, ?Gd, ?Go in *; auto.
Qed.





End Laws.

(** ** The laws at concrete tiles *)

#[local] Existing Instance raw_host.

Lemma FillBlock_stays_in_the_block_witness :
  let w := stale_buffer_world (fresh_DS 1 [double_one]) in
  mem (snd (FillBlock int16_band 1000 w)) 1004 = mem w 1004.
Proof.
  intros w.
  destruct (FillBlock_stays_in_the_block int16_band 1000 w 1004)
    as [Hmem _].
  - vm_compute. repeat split; discriminate.
  - reflexivity.
  - right. vm_compute. discriminate.
  - exact Hmem.
Defined.

(** Two Byte bands of one sample: the blocks at [buf] and 3100 are clear
    of the page buffer at 2000 and of each other. *)
Lemma pair_deinterleave_ok (buf : Z) (w : world) :
  nBands (poDS w) = 2 -> pbuffer (poDS w) = 2000 -> buf < 1999 ->
  deinterleave_ok pair_band 0 0 buf w.
Proof.
  intros Hn Hp Hbuf. unfold deinterleave_ok. cbv zeta. rewrite Hn, Hp.
  split; [vm_compute; repeat split; discriminate |].
  split; [left; reflexivity |].
  split; [vm_compute; split; discriminate |].
  assert (Hdest : forall i : Z, 0 <= i < 2 ->
            (i = 0 /\ band_dest pair_band 0 0 buf i = buf)
            \/ (i = 1 /\ band_dest pair_band 0 0 buf i = 3100)).
  { intros i Hi. assert (Ei : i = 0 \/ i = 1) by lia.
    destruct Ei as [-> | ->]; [left | right]; split; reflexivity. }
  change (block_samples pair_band) with 1.
  change (sample_size pair_band) with 1.
  change (sz_c (pagesize (img pair_band))) with 2.
  split.
  - intros i Hi. destruct (Hdest i Hi) as [[_ ->] | [_ ->]]; lia.
  - intros i i' Hi Hi' Hne.
    destruct (Hdest i Hi) as [[-> ->] | [-> ->]];
      destruct (Hdest i' Hi') as [[-> ->] | [-> ->]]; lia.
Qed.

Lemma RB_deinterleaves_witness :
  mem (snd (RB pair_band 0 0 {| buffer := 2000; bsize := 2 |} 1000
              page_world)) 3100
  = Byte.x0b.
Proof.
  destruct (RB_deinterleaves pair_band 0 0 {| buffer := 2000; bsize := 2 |}
              1000 page_world) as (_ & Hslots & _).
  - apply pair_deinterleave_ok; [reflexivity | reflexivity | lia].
  - exact (Hslots 1 0 0 ltac:(vm_compute; split; [discriminate | reflexivity])
             ltac:(vm_compute; split; [discriminate | reflexivity])
             ltac:(vm_compute; split; [discriminate | reflexivity])).
Defined.

Lemma RB_leaves_wide_samples_witness :
  RB (band_of GDT_CFloat64 0 2 1 1 false false None) 0 0
    {| buffer := 2000; bsize := 32 |} 1000 page_world
  = (CE_None, page_world).
Proof.
  apply RB_leaves_wide_samples. left. reflexivity.
Defined.

Lemma plain_tile_no_fetch (b : GDALMRFRasterBand) (xblk yblk : Z) :
  no_fetch b xblk yblk plain_tile_DS.
Proof.
  intros tinfo _ _. right. left. reflexivity.
Qed.

Lemma read_keeps_the_dataset_witness :
  poDS (snd (IReadBlock deflate_band 0 0 1000
               (world_with 1000 [] [5000; 6000] plain_tile_DS)))
  = plain_tile_DS.
Proof.
  apply (read_keeps_the_dataset deflate_band 0 0 1000
           (world_with 1000 [] [5000; 6000] plain_tile_DS)).
  apply plain_tile_no_fetch.
Defined.

Lemma read_releases_its_buffers_witness :
  let w := world_with 1000 [] [5000; 6000] plain_tile_DS in
  exists evs : list event,
    trace (snd (IReadBlock deflate_band 0 0 1000 w)) = evs ++ trace w
    /\ Permutation (frees evs) (blocks evs).
Proof.
  intros w.
  apply (read_releases_its_buffers deflate_band 0 0 1000 w).
  - apply plain_tile_no_fetch.
  - reflexivity.
Defined.


(** A data file one byte short of the entry: the byte it has is left in
    the block the read allocated. *)
Lemma short_read_leaves_its_bytes :
  let ds := one_entry_DS [] {| offset := 0; isize := 2 |} [Byte.x01] in
  let w := world_with 1000 [] [5000] ds in
  let r := IReadBlock deflate_band 0 0 1000 w in
  fst r = CE_Failure
  /\ mem w 5000 = Byte.x00 /\ mem (snd r) 5000 = Byte.x01.
Proof. vm_compute. repeat split. Qed.

Lemma band_separate_write_stores_codec_output_witness :
  data_file (poDS (snd (IWriteBlock (swapped_band false) 0 0 1000
                          swapped_world)))
  = [Byte.x02; Byte.x01].
Proof.
  destruct (band_separate_write_stores_codec_output (swapped_band false)
              0 0 1000 swapped_world) as (_ & Hdata & _).
  - reflexivity.
  - reflexivity.
  - vm_compute. split; [discriminate | reflexivity].
  - reflexivity.
  - vm_compute. reflexivity.
  - vm_compute. split; reflexivity.
  - exact Hdata.
Defined.

Lemma band_separate_write_swaps_in_place_witness :
  load (mem (snd (IWriteBlock (swapped_band false) 0 0 1000 swapped_world)))
    1000 2
  = [Byte.x02; Byte.x01].
Proof.
  apply (band_separate_write_swaps_in_place (swapped_band false) 0 0 1000
           swapped_world).
  - reflexivity.
  - reflexivity.
  - vm_compute. split; [discriminate | reflexivity].
  - reflexivity.
  - vm_compute. reflexivity.
  - vm_compute. split; reflexivity.
  - vm_compute. reflexivity.
  - right. vm_compute. discriminate.
Defined.


Lemma deflated_round_trip_witness :
  let wr := IWriteBlock (swapped_band true) 0 0 1000 swapped_world in
  data_file (poDS (snd wr)) = [Byte.x78; Byte.x02; Byte.x01]
  /\ load (mem (snd (IReadBlock (swapped_band true) 0 0 1100 (snd wr))))
       1100 2
     = [Byte.x01; Byte.x02].
Proof.
  intros wr.
  destruct (deflated_round_trip (swapped_band true) 0 0 1000 1100
              swapped_world) as (_ & Hdata & _ & Hsame).
  - reflexivity.
  - reflexivity.
  - vm_compute. split; [discriminate | reflexivity].
  - vm_compute. reflexivity.
  - reflexivity.
  - reflexivity.
  - vm_compute. reflexivity.
  - vm_compute. reflexivity.
  - intros _. vm_compute. discriminate.
  - vm_compute. reflexivity.
  - vm_compute. split; reflexivity.
  - vm_compute. reflexivity.
  - vm_compute. reflexivity.
  - split; [exact Hdata | exact Hsame].
Defined.

Lemma empty_tile_round_trip_witness :
  let wr := IWriteBlock byte_band 0 0 1000 nodata_tile_world in
  data_file (poDS (snd wr)) = []
  /\ load (mem (snd (IReadBlock byte_band 0 0 1100 (snd wr)))) 1100 2
     = [Byte.x01; Byte.x01].
Proof.
  intros wr.
  destruct (empty_tile_round_trip byte_band 0 0 1000 1100 nodata_tile_world)
    as (_ & Hdata & _ & Hsame).
  - reflexivity.
  - reflexivity.
  - vm_compute. repeat split; discriminate.
  - reflexivity.
  - reflexivity.
  - split; reflexivity.
  - right. split; [reflexivity | discriminate].
  - vm_compute. reflexivity.
  - split; [exact Hdata | exact Hsame].
Defined.

Lemma zero_tile_reads_back_as_NoData_witness :
  let w := world_with 1000 [] [] (fresh_DS 1 [double_one]) in
  let wr := IWriteBlock int16_band 0 0 1000 w in
  load (mem w) 1000 4 = [Byte.x00; Byte.x00; Byte.x00; Byte.x00]
  /\ data_file (poDS (snd wr)) = []
  /\ load (mem (snd (IReadBlock int16_band 0 0 1100 (snd wr)))) 1100 4
     = [Byte.x01; Byte.x00; Byte.x01; Byte.x00].
Proof.
  intros w wr.
  destruct (zero_tile_reads_back_as_NoData int16_band 0 0 1000 1100 w)
    as (_ & Hdata & _ & Hfill).
  - reflexivity.
  - reflexivity.
  - vm_compute. repeat split; discriminate.
  - reflexivity.
  - reflexivity.
  - reflexivity.
  - reflexivity.
  - reflexivity.
  - intros a _. unfold w, world_with, store. simpl.
    destruct ((1000 <=? a) && _); [| reflexivity].
    now destruct (Z.to_nat (a - 1000)).
  - split; [reflexivity | split; [exact Hdata | exact Hfill]].
Defined.




End BandLaws.
